(** * Batumi: the oscillator engine (lfo.cc) and the front panel (ui.cc)

    A shallow embedding of the firmware's [Lfo] and [Ui] classes, and the
    properties of the specification stated over it.

    Conventions.  C++ integers are [Z] with their wrap-around written out
    ([u32], [u16], [to_int32], [to_int16]); C's [/] and [%] are [Z.quot] and
    [Z.rem]; the arrays of the classes are lists read with [!!!] and written
    with [<[i:=x]>]; the event queue is the list of the events not yet
    pulled, oldest first.

    The headers ui.h and lfo.h, the tables of resources.h and the classes of
    stmlib and of the drivers are not among the translated sources.  Their
    constants, tables and helpers are parameters of the sections below.  The
    members are given the types their uses in ui.cc and lfo.cc show: the pot
    arrays are [uint16_t[4]] (they are filled from a [uint16_t] reading),
    [press_time_] and the millisecond clock are [uint32_t], the data of an
    event is [int32_t], the phases are [uint32_t] and [level_] is
    [uint16_t]. *)

From Stdlib Require Import ZArith Bool Lia.
From stdpp Require Import base list.

Local Open Scope Z_scope.

(** ** Machine integers *)

Definition UINT32_MAX : Z := 4294967295.
Definition UINT16_MAX : Z := 65535.
Definition INT16_MIN : Z := -32768.
Definition INT16_MAX : Z := 32767.

(** Conversion to [uint32_t] and [uint16_t]. *)
Definition u32 (x : Z) : Z := x mod 4294967296.
Definition u16 (x : Z) : Z := x mod 65536.

(** Conversion to [int32_t] and [int16_t] (two's complement). *)
Definition to_int32 (x : Z) : Z := (x + 2147483648) mod 4294967296 - 2147483648.
Definition to_int16 (x : Z) : Z := (x + 32768) mod 65536 - 32768.

(** ** The oscillator state (class [Lfo]) *)

Record Lfo : Type := mkLfo {
  phase_ : Z;            (* uint32_t *)
  divided_phase_ : Z;    (* uint32_t *)
  initial_phase_ : Z;    (* uint32_t *)
  phase_increment_ : Z;  (* uint32_t *)
  divider_ : Z;
  divider_count_ : Z;
  level_ : Z;            (* uint16_t *)
  pitch_ : Z;            (* int16_t *)
  divided_pitch_ : Z     (* int16_t *)
}.

(** [Lfo::Init]: the two pitch fields are not written. *)
Definition Lfo_Init (l : Lfo) : Lfo :=
  {| phase_ := 0;
     divided_phase_ := 0;
     initial_phase_ := 0;
     phase_increment_ := Z.shiftr UINT32_MAX 8;
     divider_ := 1;
     divider_count_ := 0;
     level_ := UINT16_MAX;
     pitch_ := pitch_ l;
     divided_pitch_ := divided_pitch_ l |}.

(** [Lfo::Step]. *)
Definition Lfo_Step (l : Lfo) : Lfo :=
  let phase := u32 (phase_ l + phase_increment_ l) in
  let divider_count :=
    if phase <? phase_increment_ l
    then Z.rem (divider_count_ l + 1) (divider_ l)
    else divider_count_ l in
  let divided_phase :=
    u32 (Z.quot phase (divider_ l)
         + u32 (Z.quot UINT32_MAX (divider_ l) * divider_count)) in
  {| phase_ := phase;
     divided_phase_ := divided_phase;
     initial_phase_ := initial_phase_ l;
     phase_increment_ := phase_increment_ l;
     divider_ := divider_ l;
     divider_count_ := divider_count;
     level_ := level_ l;
     pitch_ := pitch_ l;
     divided_pitch_ := divided_pitch_ l |}.

(** [n] calls of [Step]. *)
Fixpoint Lfo_Steps (n : nat) (l : Lfo) : Lfo :=
  match n with
  | O => l
  | S n' => Lfo_Steps n' (Lfo_Step l)
  end.

(** The step from [l] wraps the 32-bit accumulator: the test of [Step]. *)
Definition base_wrap (l : Lfo) : bool :=
  phase_ (Lfo_Step l) <? phase_increment_ l.

(** The step from [l] takes the divided phase backwards, which is how the
    end of a cycle of the divided ramp shows. *)
Definition divided_wrap (l : Lfo) : bool :=
  divided_phase_ (Lfo_Step l) <? divided_phase_ l.

(** How many of the [n] next steps wrap the accumulator, and how many end a
    cycle of the divided ramp. *)
Fixpoint base_wraps (n : nat) (l : Lfo) : Z :=
  match n with
  | O => 0
  | S n' => (if base_wrap l then 1 else 0) + base_wraps n' (Lfo_Step l)
  end.

Fixpoint divided_wraps (n : nat) (l : Lfo) : Z :=
  match n with
  | O => 0
  | S n' => (if divided_wrap l then 1 else 0) + divided_wraps n' (Lfo_Step l)
  end.

(** The formula of the divided phase, over the fields of [l]. *)
Definition divided_formula (l : Lfo) : Z :=
  phase_ l / divider_ l + UINT32_MAX / divider_ l * divider_count_ l.

(** The state a sequence of [Step]s keeps: a divider of at least 1, a count
    below it, 32-bit phases, and a divided phase that follows the formula. *)
Record lfo_ok (l : Lfo) : Prop := {
  ok_divider : 1 <= divider_ l <= UINT32_MAX;
  ok_count : 0 <= divider_count_ l < divider_ l;
  ok_phase : 0 <= phase_ l <= UINT32_MAX;
  ok_increment : 0 <= phase_increment_ l <= UINT32_MAX;
  ok_divided : divided_phase_ l = divided_formula l
}.

(** An oscillator just initialised, at pitch [p]. *)
Definition slow_lfo (p : Z) : Lfo :=
  Lfo_Init (mkLfo 0 0 0 0 0 0 0 p p).

(** ** Pitch to phase increment, and the waveforms *)

Inductive LfoShape : Type :=
  | SHAPE_TRIANGLE
  | SHAPE_SAW
  | SHAPE_RAMP
  | SHAPE_TRAPEZOID.

Section Waveforms.

(** The constants of lfo.h, the tables of resources.h and the helpers of
    stmlib's dsp.h are not part of the translated sources: the functions
    below take them as parameters. *)
Variables kOctave kPitch1Hz kPitch10Hz kPitch100Hz : Z.
Variable lut_increments : Z -> Z.
Variable Wavetable : Type.
Variables wav_tri10 wav_tri100 wav_saw10 wav_saw100
          wav_trap10 wav_trap100 : Wavetable.
Variable Interpolate1022 : Wavetable -> Z -> Z.
Variable Crossfade1022 : Wavetable -> Wavetable -> Z -> Z -> Z.
Variable CONSTRAIN : Z -> Z -> Z -> Z.

(** [while (pitch < 0) { pitch += kOctave; --num_shifts; }], cut after
    [fuel] turns. *)
Fixpoint octaves_up (fuel : nat) (pitch num_shifts : Z) : option (Z * Z) :=
  if pitch <? 0 then
    match fuel with
    | O => None
    | S fuel' =>
        octaves_up fuel' (to_int16 (pitch + kOctave)) (to_int16 (num_shifts - 1))
    end
  else Some (pitch, num_shifts).

(** [while (pitch >= kOctave) { pitch -= kOctave; ++num_shifts; }]. *)
Fixpoint octaves_down (fuel : nat) (pitch num_shifts : Z) : option (Z * Z) :=
  if kOctave <=? pitch then
    match fuel with
    | O => None
    | S fuel' =>
        octaves_down fuel' (to_int16 (pitch - kOctave)) (to_int16 (num_shifts + 1))
    end
  else Some (pitch, num_shifts).

(** The table lookup and the interpolation, for a pitch inside the
    octave. *)
Definition lookup_increment (pitch : Z) : Z :=
  let a := u32 (lut_increments (Z.shiftr pitch 4)) in
  let b := u32 (lut_increments (Z.shiftr pitch 4 + 1)) in
  u32 (a + Z.shiftr (u32 (u32 (b - a) * Z.land pitch 15)) 4).

(** The last statement of [ComputePhaseIncrement]: the increment of the
    table shifted by the count of octaves. *)
Definition shifted (phase_increment num_shifts : Z) : Z :=
  if 0 <=? num_shifts
  then u32 (Z.shiftl phase_increment num_shifts)
  else Z.shiftr phase_increment (- num_shifts).

(** [Lfo::ComputePhaseIncrement]: the new state (the pitch is stored) and
    the increment; [None] when a loop is still running after [fuel]
    turns. *)
Definition ComputePhaseIncrement (fuel : nat) (l : Lfo) (pitch : Z)
  : option (Lfo * Z) :=
  let l' :=
    {| phase_ := phase_ l;
       divided_phase_ := divided_phase_ l;
       initial_phase_ := initial_phase_ l;
       phase_increment_ := phase_increment_ l;
       divider_ := divider_ l;
       divider_count_ := divider_count_ l;
       level_ := level_ l;
       pitch_ := pitch;
       divided_pitch_ := divided_pitch_ l |} in
  match octaves_up fuel pitch 0 with
  | None => None
  | Some (pitch1, num_shifts1) =>
      match octaves_down fuel pitch1 num_shifts1 with
      | None => None
      | Some (pitch2, num_shifts) =>
          let phase_increment := lookup_increment pitch2 in
          Some (l', shifted phase_increment num_shifts)
      end
  end.

(** [Lfo::ComputeSampleTriangle]. *)
Definition ComputeSampleTriangle (l : Lfo) : Z :=
  let phase := u32 (initial_phase_ l + divided_phase_ l) in
  let tri :=
    if phase <? Z.shiftl 1 31
    then to_int16 (u32 (-32768 + Z.shiftr phase 15))
    else to_int16 (u32 (32767 - Z.shiftr phase 15)) in
  let pitch := divided_pitch_ l in
  let x :=
    if kPitch100Hz <? pitch then
      Interpolate1022 wav_tri100 phase
    else if kPitch10Hz <? pitch then
      let balance :=
        u16 (Z.quot ((pitch - kPitch10Hz) * 65535) (kPitch100Hz - kPitch10Hz)) in
      Crossfade1022 wav_tri10 wav_tri100 phase balance
    else if kPitch1Hz <? pitch then
      let balance :=
        u16 (Z.quot ((pitch - kPitch1Hz) * 65535) (kPitch10Hz - kPitch1Hz)) in
      let a := tri in
      let b := Interpolate1022 wav_tri10 phase in
      to_int16 (a + Z.shiftr ((b - a) * balance) 16)
    else tri in
  to_int16 (Z.shiftr (x * level_ l) 16).

(** [Lfo::ComputeSampleRamp]; the constant -32678 is the one of the
    source. *)
Definition ComputeSampleRamp (l : Lfo) : Z :=
  let phase := u32 (initial_phase_ l + divided_phase_ l) in
  let ramp := to_int16 (u32 (-32678 + Z.shiftr phase 16)) in
  let pitch := divided_pitch_ l in
  let x :=
    if kPitch100Hz <? pitch then
      Interpolate1022 wav_saw100 phase
    else if kPitch10Hz <? pitch then
      let balance :=
        u16 (Z.quot ((pitch - kPitch10Hz) * 65535) (kPitch100Hz - kPitch10Hz)) in
      Crossfade1022 wav_saw10 wav_saw100 phase balance
    else if kPitch1Hz <? pitch then
      let balance :=
        u16 (Z.quot ((pitch - kPitch1Hz) * 65535) (kPitch10Hz - kPitch1Hz)) in
      let a := ramp in
      let b := Interpolate1022 wav_saw10 phase in
      to_int16 (a + Z.shiftr ((b - a) * balance) 16)
    else ramp in
  to_int16 (Z.shiftr (x * level_ l) 16).

(** [Lfo::ComputeSampleSaw]. *)
Definition ComputeSampleSaw (l : Lfo) : Z :=
  to_int16 (- ComputeSampleRamp l).

(** [Lfo::ComputeSampleTrapezoid]. *)
Definition ComputeSampleTrapezoid (l : Lfo) : Z :=
  let phase := u32 (initial_phase_ l + divided_phase_ l) in
  let tri :=
    if phase <? Z.shiftl 1 31
    then to_int16 (u32 (-32768 + Z.shiftr phase 15))
    else to_int16 (u32 (32767 - Z.shiftr phase 15)) in
  let trap := CONSTRAIN (tri * 2) INT16_MIN INT16_MAX in
  let pitch := divided_pitch_ l in
  let x :=
    if kPitch100Hz <? pitch then
      Interpolate1022 wav_trap100 phase
    else if kPitch10Hz <? pitch then
      let balance :=
        u16 (Z.quot ((pitch - kPitch10Hz) * 65535) (kPitch100Hz - kPitch10Hz)) in
      Crossfade1022 wav_trap10 wav_trap100 phase balance
    else if kPitch1Hz <? pitch then
      let balance :=
        u16 (Z.quot ((pitch - kPitch1Hz) * 65535) (kPitch10Hz - kPitch1Hz)) in
      let a := trap in
      let b := Interpolate1022 wav_trap10 phase in
      to_int16 (a + Z.shiftr ((b - a) * balance) 16)
    else to_int16 trap in
  to_int16 (Z.shiftr (x * level_ l) 16).

(** [Lfo::ComputeSampleShape]: the selector is overwritten before the
    dispatch, as in the source. *)
Definition ComputeSampleShape (l : Lfo) (s : LfoShape) : Z :=
  let s := SHAPE_SAW in
  match s with
  | SHAPE_TRIANGLE => ComputeSampleTriangle l
  | SHAPE_SAW => ComputeSampleSaw l
  | SHAPE_RAMP => ComputeSampleRamp l
  | SHAPE_TRAPEZOID => ComputeSampleTrapezoid l
  end.

(** The waveform computation that belongs to a selector value. *)
Definition waveform_of (s : LfoShape) (l : Lfo) : Z :=
  match s with
  | SHAPE_TRIANGLE => ComputeSampleTriangle l
  | SHAPE_SAW => ComputeSampleSaw l
  | SHAPE_RAMP => ComputeSampleRamp l
  | SHAPE_TRAPEZOID => ComputeSampleTrapezoid l
  end.

End Waveforms.

(** ** The front panel (class [Ui]) *)

Definition kLongPressDuration : Z := 500.
Definition kVeryLongPressDuration : Z := 2000.
Definition kPotMoveThreshold : Z := Z.shiftl 1 (16 - 10).
Definition kCatchupThreshold : Z := Z.shiftl 1 10.

Inductive UiMode : Type :=
  | UI_MODE_SPLASH
  | UI_MODE_ZOOM
  | UI_MODE_NORMAL.

Inductive ControlType : Type :=
  | CONTROL_SWITCH
  | CONTROL_POT.

Record Event : Type := mkEvent {
  control_type : ControlType;
  control_id : nat;   (* uint16_t *)
  data : Z            (* int32_t *)
}.

(** *** One switch of the input filter

    [press_time_[i]] and [detect_very_long_press_[i]] of one switch [i]. *)
Record SwitchState : Type := mkSwitchState {
  press_time : Z;                  (* uint32_t, 0 = not pressed *)
  detect_very_long_press : bool
}.

(** The three blocks of the switch loop of [Ui::Poll], each giving the data
    of the events it adds to the queue and the new state of the switch.
    [now] is the reading of [system_clock.milliseconds()] in this poll. *)

(** [if (switches_.just_pressed(i)) { ... }] *)
Definition switch_just_pressed (now : Z) (s : SwitchState)
  : list Z * SwitchState :=
  ([0], {| press_time := now; detect_very_long_press := false |}).

(** [if (switches_.pressed(i)) { ... }] *)
Definition switch_pressed (now : Z) (s : SwitchState) : list Z * SwitchState :=
  let pressed_time := to_int32 (u32 (now - press_time s)) in
  if negb (detect_very_long_press s) then
    if kLongPressDuration <? pressed_time then
      ([pressed_time],
       {| press_time := press_time s; detect_very_long_press := true |})
    else ([], s)
  else
    if kVeryLongPressDuration <? pressed_time then
      ([pressed_time], {| press_time := 0; detect_very_long_press := false |})
    else ([], s).

(** [if (switches_.released(i) && press_time_[i] != 0 &&
        !detect_very_long_press_[i]) { ... }], the test on [released]
    apart. *)
Definition switch_released (now : Z) (s : SwitchState) : list Z * SwitchState :=
  if negb (press_time s =? 0) && negb (detect_very_long_press s) then
    ([to_int32 (u32 (now - press_time s + 1))],
     {| press_time := 0; detect_very_long_press := false |})
  else ([], s).

(** What the debounced switch shows in one poll, with the clock. *)
Record SwitchInput : Type := mkSwitchInput {
  sw_now : Z;
  sw_just_pressed : bool;
  sw_pressed : bool;
  sw_released : bool
}.

(** The body of the switch loop for one switch. *)
Definition switch_poll (x : SwitchInput) (s : SwitchState)
  : list Z * SwitchState :=
  let '(e1, s1) :=
    if sw_just_pressed x then switch_just_pressed (sw_now x) s else ([], s) in
  let '(e2, s2) :=
    if sw_pressed x then switch_pressed (sw_now x) s1 else ([], s1) in
  let '(e3, s3) :=
    if sw_released x then switch_released (sw_now x) s2 else ([], s2) in
  (e1 ++ e2 ++ e3, s3).

(** The switch over a sequence of polls: all the event data, in order. *)
Fixpoint switch_run (xs : list SwitchInput) (s : SwitchState)
  : list Z * SwitchState :=
  match xs with
  | [] => ([], s)
  | x :: xs' =>
      let '(e, s1) := switch_poll x s in
      let '(es, s2) := switch_run xs' s1 in
      (e ++ es, s2)
  end.

(** One physical press, hold and release, as the polls see it: the poll
    that finds the switch just pressed at [t0], the polls at the times [hs]
    that find it held, and the poll that finds it released at [tr]. *)
Definition press_poll (t0 : Z) : SwitchInput :=
  {| sw_now := t0; sw_just_pressed := true;
     sw_pressed := false; sw_released := false |}.
Definition held_poll (t : Z) : SwitchInput :=
  {| sw_now := t; sw_just_pressed := false;
     sw_pressed := true; sw_released := false |}.
Definition release_poll (tr : Z) : SwitchInput :=
  {| sw_now := tr; sw_just_pressed := false;
     sw_pressed := false; sw_released := true |}.

Definition gesture (t0 : Z) (hs : list Z) (tr : Z) : list SwitchInput :=
  press_poll t0 :: map held_poll hs ++ [release_poll tr].

(** The held polls of a switch polled every millisecond and held [n]
    milliseconds from [t0]: [t0 + 1], ..., [t0 + n - 1]. *)
Definition every_ms (t0 : Z) (n : nat) : list Z :=
  map (fun k => t0 + Z.of_nat k) (seq 1 (n - 1)).

(** *** The state of the panel *)

Record Ui : Type := mkUi {
  mode_ : UiMode;
  feat_mode_ : Z;                         (* FeatureMode *)
  press_time_ : list Z;                   (* one per switch *)
  detect_very_long_press_ : list bool;
  pot_value_ : list Z;                    (* uint16_t [4] *)
  pot_filtered_value_ : list Z;
  pot_coarse_value_ : list Z;
  pot_fine_value_ : list Z;
  catchup_state_ : list bool;
  queue_ : list Event;
  leds_ : list bool;
  lfo_ : list Lfo;
  animation_counter_ : Z                  (* int32_t, a global of ui.cc *)
}.

Definition set_mode (m : UiMode) (u : Ui) : Ui :=
  mkUi m (feat_mode_ u) (press_time_ u) (detect_very_long_press_ u)
       (pot_value_ u) (pot_filtered_value_ u) (pot_coarse_value_ u)
       (pot_fine_value_ u) (catchup_state_ u) (queue_ u) (leds_ u) (lfo_ u)
       (animation_counter_ u).
Definition set_feat_mode (f : Z) (u : Ui) : Ui :=
  mkUi (mode_ u) f (press_time_ u) (detect_very_long_press_ u)
       (pot_value_ u) (pot_filtered_value_ u) (pot_coarse_value_ u)
       (pot_fine_value_ u) (catchup_state_ u) (queue_ u) (leds_ u) (lfo_ u)
       (animation_counter_ u).
Definition set_switch (i : nat) (s : SwitchState) (u : Ui) : Ui :=
  mkUi (mode_ u) (feat_mode_ u)
       (<[i := press_time s]> (press_time_ u))
       (<[i := detect_very_long_press s]> (detect_very_long_press_ u))
       (pot_value_ u) (pot_filtered_value_ u) (pot_coarse_value_ u)
       (pot_fine_value_ u) (catchup_state_ u) (queue_ u) (leds_ u) (lfo_ u)
       (animation_counter_ u).
Definition set_pot_value (i : nat) (v : Z) (u : Ui) : Ui :=
  mkUi (mode_ u) (feat_mode_ u) (press_time_ u) (detect_very_long_press_ u)
       (<[i := v]> (pot_value_ u)) (pot_filtered_value_ u)
       (pot_coarse_value_ u) (pot_fine_value_ u) (catchup_state_ u)
       (queue_ u) (leds_ u) (lfo_ u) (animation_counter_ u).
Definition set_pot_filtered_value (i : nat) (v : Z) (u : Ui) : Ui :=
  mkUi (mode_ u) (feat_mode_ u) (press_time_ u) (detect_very_long_press_ u)
       (pot_value_ u) (<[i := v]> (pot_filtered_value_ u))
       (pot_coarse_value_ u) (pot_fine_value_ u) (catchup_state_ u)
       (queue_ u) (leds_ u) (lfo_ u) (animation_counter_ u).
Definition set_pot_coarse_value (i : nat) (v : Z) (u : Ui) : Ui :=
  mkUi (mode_ u) (feat_mode_ u) (press_time_ u) (detect_very_long_press_ u)
       (pot_value_ u) (pot_filtered_value_ u)
       (<[i := v]> (pot_coarse_value_ u)) (pot_fine_value_ u)
       (catchup_state_ u) (queue_ u) (leds_ u) (lfo_ u)
       (animation_counter_ u).
Definition set_pot_fine_value (i : nat) (v : Z) (u : Ui) : Ui :=
  mkUi (mode_ u) (feat_mode_ u) (press_time_ u) (detect_very_long_press_ u)
       (pot_value_ u) (pot_filtered_value_ u) (pot_coarse_value_ u)
       (<[i := v]> (pot_fine_value_ u)) (catchup_state_ u) (queue_ u)
       (leds_ u) (lfo_ u) (animation_counter_ u).
Definition set_catchup_state (i : nat) (b : bool) (u : Ui) : Ui :=
  mkUi (mode_ u) (feat_mode_ u) (press_time_ u) (detect_very_long_press_ u)
       (pot_value_ u) (pot_filtered_value_ u) (pot_coarse_value_ u)
       (pot_fine_value_ u) (<[i := b]> (catchup_state_ u)) (queue_ u)
       (leds_ u) (lfo_ u) (animation_counter_ u).
Definition set_queue (q : list Event) (u : Ui) : Ui :=
  mkUi (mode_ u) (feat_mode_ u) (press_time_ u) (detect_very_long_press_ u)
       (pot_value_ u) (pot_filtered_value_ u) (pot_coarse_value_ u)
       (pot_fine_value_ u) (catchup_state_ u) q (leds_ u) (lfo_ u)
       (animation_counter_ u).
Definition set_led (i : nat) (b : bool) (u : Ui) : Ui :=
  mkUi (mode_ u) (feat_mode_ u) (press_time_ u) (detect_very_long_press_ u)
       (pot_value_ u) (pot_filtered_value_ u) (pot_coarse_value_ u)
       (pot_fine_value_ u) (catchup_state_ u) (queue_ u)
       (<[i := b]> (leds_ u)) (lfo_ u) (animation_counter_ u).
Definition set_lfo (l : list Lfo) (u : Ui) : Ui :=
  mkUi (mode_ u) (feat_mode_ u) (press_time_ u) (detect_very_long_press_ u)
       (pot_value_ u) (pot_filtered_value_ u) (pot_coarse_value_ u)
       (pot_fine_value_ u) (catchup_state_ u) (queue_ u) (leds_ u) l
       (animation_counter_ u).
Definition set_animation_counter (c : Z) (u : Ui) : Ui :=
  mkUi (mode_ u) (feat_mode_ u) (press_time_ u) (detect_very_long_press_ u)
       (pot_value_ u) (pot_filtered_value_ u) (pot_coarse_value_ u)
       (pot_fine_value_ u) (catchup_state_ u) (queue_ u) (leds_ u) (lfo_ u) c.

(** [queue_.AddEvent(type, id, data)]: the queue is taken as long as
    needed; what stmlib's queue does when it is full is not modelled. *)
Definition AddEvent (t : ControlType) (id : nat) (d : Z) (u : Ui) : Ui :=
  set_queue (queue_ u ++ [mkEvent t id d]) u.

(** What one poll reads from the hardware: the clock, the debounced
    switches and the converter. *)
Record PollInput : Type := mkPollInput {
  milliseconds : Z;            (* uint32_t *)
  just_pressed : nat -> bool;
  pressed : nat -> bool;
  released : nat -> bool;
  pot : nat -> Z               (* uint16_t *)
}.

Definition switch_input (inp : PollInput) (i : nat) : SwitchInput :=
  {| sw_now := milliseconds inp;
     sw_just_pressed := just_pressed inp i;
     sw_pressed := pressed inp i;
     sw_released := released inp i |}.

Definition switch_state (u : Ui) (i : nat) : SwitchState :=
  {| press_time := press_time_ u !!! i;
     detect_very_long_press := detect_very_long_press_ u !!! i |}.

Inductive Handler : Type :=
  | ON_SWITCH_PRESSED
  | ON_SWITCH_RELEASED
  | ON_POT_CHANGED.

(** The handler [Ui::DoEvents] calls for an event. *)
Definition handler_of (e : Event) : Handler :=
  match control_type e with
  | CONTROL_SWITCH =>
      if data e =? 0 then ON_SWITCH_PRESSED else ON_SWITCH_RELEASED
  | CONTROL_POT => ON_POT_CHANGED
  end.

(** The value [Ui::Poll] computes for pot [i]: the filtered reading. *)
Definition smoothed (inp : PollInput) (u : Ui) (i : nat) : Z :=
  Z.shiftr (31 * (pot_filtered_value_ u !!! i) + pot inp i) 5.

(** The test of the pot loop of [Ui::Poll] for pot [i], on the state before
    the poll. *)
Definition pot_moved (inp : PollInput) (u : Ui) (i : nat) : bool :=
  (pot_value_ u !!! i + kPotMoveThreshold <=? smoothed inp u i)
  || (smoothed inp u i <=? pot_value_ u !!! i - kPotMoveThreshold).

(** The events pot [i] adds to the queue in one poll. *)
Definition pot_events (inp : PollInput) (u : Ui) (i : nat) : list Event :=
  if pot_moved inp u i
  then [mkEvent CONTROL_POT i (smoothed inp u i)]
  else [].

(** [for (int i = 0; i < 4; i++) lfo_[i].Init();] *)
Definition init_lfos (l : list Lfo) : list Lfo :=
  fold_left (fun l i => alter Lfo_Init i l) (seq 0 4) l.

Section Panel.

(** The enumerations and sizes of ui.h and of the switch driver are not
    part of the translated sources.  Of the switches only the value of
    [SWITCH_SELECT] matters: the other case labels of
    [OnSwitchReleased] do nothing, as does a value without a label. *)
Variables kNumSwitches kNumLeds : nat.
Variable SWITCH_SELECT : nat.
Variables FEAT_MODE_FREE FEAT_MODE_LAST : Z.

(** The switch loop of [Ui::Poll], for switch [i]. *)
Definition poll_switch (inp : PollInput) (u : Ui) (i : nat) : Ui :=
  let '(ds, s) := switch_poll (switch_input inp i) (switch_state u i) in
  set_switch i s
    (fold_left (fun u d => AddEvent CONTROL_SWITCH i d u) ds u).

(** The pot loop of [Ui::Poll], for pot [i]. *)
Definition poll_pot (inp : PollInput) (u : Ui) (i : nat) : Ui :=
  let value := smoothed inp u i in
  let u := set_pot_filtered_value i (u16 value) u in
  let current_value := pot_value_ u !!! i in
  if (current_value + kPotMoveThreshold <=? value)
     || (value <=? current_value - kPotMoveThreshold)
  then set_pot_value i (u16 value) (AddEvent CONTROL_POT i value u)
  else u.

(** The [switch (mode_)] that paints the interface.  Each of its three
    cases starts with [animation_counter_++], written once here; the
    counter is kept in 32 bits. *)
Definition paint (u : Ui) : Ui :=
  let c := to_int32 (animation_counter_ u + 1) in
  let u := set_animation_counter c u in
  match mode_ u with
  | UI_MODE_SPLASH =>
      if Z.rem c 64 =? 0 then
        let u :=
          fold_left
            (fun u i => set_led i (Z.rem (Z.quot c 64) 4 =? Z.of_nat i) u)
            (seq 0 kNumLeds) u in
        if 8 <? Z.quot c 64 then set_mode UI_MODE_NORMAL u else u
      else u
  | UI_MODE_ZOOM =>
      let u := fold_left (fun u i => set_led i false u) (seq 0 kNumLeds) u in
      set_led (Z.to_nat (feat_mode_ u)) (negb (Z.land c 128 =? 0)) u
  | UI_MODE_NORMAL =>
      let flash :=
        negb (Z.land c 64 =? 0) && negb (Z.land c 32 =? 0)
        && negb (Z.land c 16 =? 0) in
      fold_left
        (fun (u : Ui) (i : nat) =>
           if (catchup_state_ u !!! i : bool)
           then set_led i (if Z.of_nat i =? feat_mode_ u
                           then negb flash else flash) u
           else set_led i (Z.of_nat i =? feat_mode_ u) u)
        (seq 0 kNumLeds) u
  end.

(** [Ui::Poll]. *)
Definition Poll (inp : PollInput) (u : Ui) : Ui :=
  let u := fold_left (poll_switch inp) (seq 0 kNumSwitches) u in
  let u := fold_left (poll_pot inp) (seq 0 4) u in
  paint u.

(** [Ui::FlushEvents]. *)
Definition FlushEvents (u : Ui) : Ui := set_queue [] u.

(** [Ui::OnSwitchPressed]: the body is empty. *)
Definition OnSwitchPressed (e : Event) (u : Ui) : Ui := u.

(** The loop of the zoom case: the pots that moved during zoom. *)
Definition detect_moved_pots (u : Ui) : Ui :=
  fold_left
    (fun (u : Ui) (i : nat) =>
       if kCatchupThreshold
          <? Z.abs (pot_value_ u !!! i - pot_coarse_value_ u !!! i)
       then set_catchup_state i true u
       else u)
    (seq 0 4) u.

(** [Ui::OnSwitchReleased]. *)
Definition OnSwitchReleased (e : Event) (u : Ui) : Ui :=
  if Nat.eqb (control_id e) SWITCH_SELECT then
    if kVeryLongPressDuration <? data e then u
    else if kLongPressDuration <? data e then set_mode UI_MODE_ZOOM u
    else
      match mode_ u with
      | UI_MODE_SPLASH => u
      | UI_MODE_ZOOM => set_mode UI_MODE_NORMAL (detect_moved_pots u)
      | UI_MODE_NORMAL =>
          set_lfo (init_lfos (lfo_ u))
            (set_feat_mode (Z.rem (feat_mode_ u + 1) FEAT_MODE_LAST) u)
      end
  else u.

(** [Ui::OnPotChanged]. *)
Definition OnPotChanged (e : Event) (u : Ui) : Ui :=
  match mode_ u with
  | UI_MODE_SPLASH => u
  | UI_MODE_ZOOM => set_pot_fine_value (control_id e) (u16 (data e)) u
  | UI_MODE_NORMAL =>
      if Z.abs (data e - pot_coarse_value_ u !!! control_id e)
         <? kCatchupThreshold
      then set_catchup_state (control_id e) false
             (set_pot_coarse_value (control_id e) (u16 (data e)) u)
      else u
  end.

(** The SELECT events that take [OnSwitchReleased] to its second branch:
    a data past the long press and not past the very long press. *)
Definition enters_zoom (e : Event) : bool :=
  match control_type e with
  | CONTROL_SWITCH =>
      Nat.eqb (control_id e) SWITCH_SELECT
      && (kLongPressDuration <? data e)
      && (data e <=? kVeryLongPressDuration)
  | CONTROL_POT => false
  end.

(** The body of the loop of [Ui::DoEvents], for the event just pulled. *)
Definition handle_event (e : Event) (u : Ui) : Ui :=
  match handler_of e with
  | ON_SWITCH_PRESSED => OnSwitchPressed e u
  | ON_SWITCH_RELEASED => OnSwitchReleased e u
  | ON_POT_CHANGED => OnPotChanged e u
  end.

(** [while (queue_.available()) { Event e = queue_.PullEvent(); ... }] on
    the queue [q]. *)
Fixpoint drain (q : list Event) (u : Ui) : Ui :=
  match q with
  | [] => u
  | e :: q' => drain q' (handle_event e (set_queue q' u))
  end.

(** [Ui::DoEvents].  Its last statement,
    [if (queue_.idle_time() > 500) queue_.Touch();], reads and writes the
    idle timer of stmlib's queue only; that timer is not part of the state
    kept here, so nothing below speaks about it. *)
Definition DoEvents (u : Ui) : Ui := drain (queue_ u) u.

(** The events [es] handled one after the other. *)
Definition handle_events (es : list Event) (u : Ui) : Ui :=
  fold_left (fun u e => handle_event e u) es u.

(** [Ui::Init], on the object [u]; [adc_pot] is what the converter
    reads. *)
Definition Ui_Init (adc_pot : nat -> Z) (lfo : list Lfo) (u : Ui) : Ui :=
  let u := set_lfo lfo (set_feat_mode FEAT_MODE_FREE
                          (set_mode UI_MODE_SPLASH u)) in
  fold_left
    (fun u i =>
       let adc_value := adc_pot i in
       set_catchup_state i false
         (set_pot_fine_value i (Z.shiftl 1 15)
            (set_pot_value i adc_value
               (set_pot_filtered_value i adc_value
                  (set_pot_coarse_value i adc_value u)))))
    (seq 0 4) u.

(** The object before [Init]: zero-initialised. *)
Definition Ui_zero : Ui :=
  {| mode_ := UI_MODE_SPLASH;
     feat_mode_ := 0;
     press_time_ := replicate kNumSwitches 0;
     detect_very_long_press_ := replicate kNumSwitches false;
     pot_value_ := replicate 4 0;
     pot_filtered_value_ := replicate 4 0;
     pot_coarse_value_ := replicate 4 0;
     pot_fine_value_ := replicate 4 0;
     catchup_state_ := replicate 4 false;
     queue_ := [];
     leds_ := replicate kNumLeds false;
     lfo_ := [];
     animation_counter_ := 0 |}.

(** What the host does with the panel after [Init]: a poll, a flush, or
    the handling of the queued events.  The last case also covers any one
    event handled on its own. *)
Inductive ui_step : Ui -> Ui -> Prop :=
  | step_Poll inp u : ui_step u (Poll inp u)
  | step_FlushEvents u : ui_step u (FlushEvents u)
  | step_DoEvents u : ui_step u (DoEvents u)
  | step_event e u : ui_step u (handle_event e u).

Inductive ui_steps : Ui -> Ui -> Prop :=
  | steps_refl u : ui_steps u u
  | steps_step u1 u2 u3 : ui_step u1 u2 -> ui_steps u2 u3 -> ui_steps u1 u3.

End Panel.

(** The four pot arrays hold four values. *)
Record pots_ok (u : Ui) : Prop := {
  ok_pot_value : length (pot_value_ u) = 4%nat;
  ok_pot_filtered : length (pot_filtered_value_ u) = 4%nat;
  ok_pot_coarse : length (pot_coarse_value_ u) = 4%nat;
  ok_pot_fine : length (pot_fine_value_ u) = 4%nat;
  ok_catchup : length (catchup_state_ u) = 4%nat
}.

(** A value is within the catch-up threshold of another. *)
Definition within_catchup (v c : Z) : Prop :=
  Z.abs (v - c) < kCatchupThreshold.

(** *** A panel to run

    Four switches and four leds, SELECT the last of the switches, four
    feature modes.  The values stand for the declarations of ui.h, which the
    sources do not include. *)
Definition sample_Poll : PollInput -> Ui -> Ui := Poll 4 4.
Definition sample_handle_event : Event -> Ui -> Ui := handle_event 3 4.
Definition sample_DoEvents : Ui -> Ui := DoEvents 3 4.

(** The panel after [Init], all pots reading 100. *)
Definition splash_panel : Ui :=
  Ui_Init 0 (fun _ => 100) (replicate 4 (slow_lfo 0)) (Ui_zero 4 4).

(** The poll at time [t] that finds SELECT just pressed ([first]) or held,
    the other switches at rest and the pots at 100. *)
Definition select_down (first : bool) (t : Z) : PollInput :=
  {| milliseconds := t;
     just_pressed := fun i => first && Nat.eqb i 3;
     pressed := fun i => negb first && Nat.eqb i 3;
     released := fun _ => false;
     pot := fun _ => 100 |}.

(** SELECT pressed at 1 ms and held until 502 ms, polled every
    millisecond. *)
Definition select_hold_polls : list PollInput :=
  select_down true 1
  :: map (fun k => select_down false (1 + Z.of_nat k)) (seq 1 501).

Definition run_polls (inps : list PollInput) (u : Ui) : Ui :=
  fold_left (fun u inp => sample_Poll inp u) inps u.

(** A panel in zoom whose first pot was committed at 100 and now reads
    5000. *)
Definition zoomed_panel : Ui :=
  set_pot_value 0 5000 (set_mode UI_MODE_ZOOM splash_panel).

(** *** Closed forms, conditions and runs

    What the further properties are stated with: the shapes that the slow
    branch of the waveform functions computes, written as functions of the
    phase, with which the code is compared; conditions on the parameters;
    polls in sequence, and the events of one switch in the queue. *)

(** The triangle over one turn of the phase: up from -32768 over the first
    half, down from 32767 over the second. *)
Definition triangle_wave (phase : Z) : Z :=
  if phase <? 2147483648
  then phase / 32768 - 32768
  else 98303 - phase / 32768.

(** The ramp over one turn of the phase with the constant of the code,
    -32678: it leaves the 16-bit range 90 steps before the end of the turn
    and goes on from -32768. *)
Definition ramp_wave (phase : Z) : Z :=
  if phase / 65536 <? 65446
  then phase / 65536 - 32678
  else phase / 65536 - 98214.

(** The divided pitch of [l] is at or below the three thresholds: the
    waveform functions read no table. *)
Definition slowest_band (kPitch1Hz kPitch10Hz kPitch100Hz : Z) (l : Lfo)
    : Prop :=
  divided_pitch_ l <= kPitch1Hz /\ divided_pitch_ l <= kPitch10Hz
  /\ divided_pitch_ l <= kPitch100Hz.

(** A table of increments over one octave of [16 * m] pitch steps: entries
    0 to [m] in 32 bits and not decreasing, neighbours close enough for the
    interpolation not to overflow, and the last entry at most twice the
    first. *)
Definition table_ok (kOctave : Z) (lut_increments : Z -> Z) (m : Z) : Prop :=
  kOctave = 16 * m
  /\ (forall i, 0 <= i < m ->
        0 <= lut_increments i <= lut_increments (i + 1)
        /\ lut_increments (i + 1) <= UINT32_MAX
        /\ (lut_increments (i + 1) - lut_increments i) * 15 <= UINT32_MAX)
  /\ lut_increments m <= 2 * lut_increments 0.

(** [Ui::Poll] once for each of [inps], in order. *)
Fixpoint Polls (kNumSwitches kNumLeds : nat) (u : Ui)
    (inps : list PollInput) {struct inps} : Ui :=
  match inps with
  | [] => u
  | inp :: inps' =>
      Polls kNumSwitches kNumLeds (Poll kNumSwitches kNumLeds inp u) inps'
  end.

(** A short release of SELECT as [DoEvents] sees it. *)
Definition short_select (SWITCH_SELECT : nat) (e : Event) : Prop :=
  control_type e = CONTROL_SWITCH /\ control_id e = SWITCH_SELECT
  /\ 0 < data e <= kLongPressDuration.

(** The events of switch [i] among queued events, and their data in queue
    order. *)
Definition is_switch_event (i : nat) (e : Event) : bool :=
  match control_type e with
  | CONTROL_SWITCH => Nat.eqb (control_id e) i
  | CONTROL_POT => false
  end.

Definition switch_data (i : nat) (evs : list Event) : list Z :=
  map data (List.filter (is_switch_event i) evs).

(** Modelled from the spec: the event queue is bounded (stmlib's
    event_queue.h is not part of the sources).  What a queue that holds at
    most [queue_size] events contains once the events of [log] have been
    added to it in order, starting empty and with none pulled in between;
    [overflow] is what the queue makes of its contents and an event that
    arrives when it is full, which the spec leaves open (the event dropped,
    or the oldest evicted). *)
Definition bounded_queue (queue_size : nat)
    (overflow : list Event -> Event -> list Event) (log : list Event)
    : list Event :=
  fold_left
    (fun q e => if (length q <? queue_size)%nat then q ++ [e]
                else overflow q e)
    log [].

(** * Properties *)

(** ** Machine integers *)

Lemma u32_small x : 0 <= x <= UINT32_MAX -> u32 x = x.
Proof. unfold u32, UINT32_MAX. intros H. apply Z.mod_small. lia. Qed.

Lemma u16_small x : 0 <= x <= UINT16_MAX -> u16 x = x.
Proof. unfold u16, UINT16_MAX. intros H. apply Z.mod_small. lia. Qed.

Lemma to_int16_small x : INT16_MIN <= x <= INT16_MAX -> to_int16 x = x.
Proof.
  unfold to_int16, INT16_MIN, INT16_MAX. intros H.
  rewrite Z.mod_small by lia. lia.
Qed.

Lemma to_int32_small x : -2147483648 <= x <= 2147483647 -> to_int32 x = x.
Proof.
  unfold to_int32. intros H. rewrite Z.mod_small by lia. lia.
Qed.

(** ** The divided phase of [Lfo::Step]

    The wrap test of [Step] is exact. *)
Lemma base_wrap_spec l :
  0 <= phase_ l <= UINT32_MAX -> 0 <= phase_increment_ l <= UINT32_MAX ->
  base_wrap l = (UINT32_MAX <? phase_ l + phase_increment_ l).
Proof.
  unfold base_wrap, UINT32_MAX. cbn [Lfo_Step phase_]. unfold u32. intros HP HI.
  destruct (Z.ltb_spec 4294967295 (phase_ l + phase_increment_ l)) as [H|H].
  - apply Z.ltb_lt.
    replace (phase_ l + phase_increment_ l)
      with ((phase_ l + phase_increment_ l - 4294967296) + 1 * 4294967296) by ring.
    rewrite Z.mod_add by lia. rewrite Z.mod_small by lia. lia.
  - apply Z.ltb_ge. rewrite Z.mod_small by lia. lia.
Qed.

Lemma Lfo_Step_phase l :
  0 <= phase_ l <= UINT32_MAX -> 0 <= phase_increment_ l <= UINT32_MAX ->
  phase_ (Lfo_Step l)
  = phase_ l + phase_increment_ l - (if base_wrap l then 4294967296 else 0).
Proof.
  intros HP HI. rewrite base_wrap_spec by assumption.
  cbn [Lfo_Step phase_]. unfold u32, UINT32_MAX in *.
  destruct (Z.ltb_spec 4294967295 (phase_ l + phase_increment_ l)) as [H|H].
  - replace (phase_ l + phase_increment_ l)
      with ((phase_ l + phase_increment_ l - 4294967296) + 1 * 4294967296) at 1 by ring.
    rewrite Z.mod_add by lia. rewrite Z.mod_small by lia. lia.
  - rewrite Z.mod_small by lia. lia.
Qed.

Lemma Lfo_Step_count l :
  lfo_ok l ->
  divider_count_ (Lfo_Step l)
  = if base_wrap l
    then (if divider_count_ l + 1 =? divider_ l then 0 else divider_count_ l + 1)
    else divider_count_ l.
Proof.
  intros [HD HC HP HI _]. unfold base_wrap. cbn [Lfo_Step phase_ divider_count_].
  destruct (_ <? _); [|reflexivity].
  rewrite Z.rem_mod_nonneg by lia.
  destruct (Z.eqb_spec (divider_count_ l + 1) (divider_ l)) as [E|E].
  - rewrite E. apply Z.mod_same. lia.
  - apply Z.mod_small. lia.
Qed.

Lemma divided_bound p c d :
  1 <= d <= UINT32_MAX -> 0 <= c < d -> 0 <= p <= UINT32_MAX ->
  0 <= UINT32_MAX / d * c <= UINT32_MAX
  /\ 0 <= p / d + UINT32_MAX / d * c <= UINT32_MAX.
Proof.
  intros Hd Hc Hp.
  assert (Hq : 0 <= UINT32_MAX / d) by (apply Z.div_pos; unfold UINT32_MAX; lia).
  assert (Hm : d * (UINT32_MAX / d) <= UINT32_MAX)
    by (apply Z.mul_div_le; lia).
  assert (Hpd : 0 <= p / d <= UINT32_MAX / d).
  { split; [apply Z.div_pos; lia | apply Z.div_le_mono; lia]. }
  split; nia.
Qed.

Lemma Lfo_Step_ok l : lfo_ok l -> lfo_ok (Lfo_Step l).
Proof.
  intros Hok. pose proof (Lfo_Step_count l Hok) as Hc.
  destruct Hok as [HD HC HP HI HF].
  pose proof (Lfo_Step_phase l HP HI) as Hp.
  pose proof (base_wrap_spec l HP HI) as Hw.
  assert (HP' : 0 <= phase_ (Lfo_Step l) <= UINT32_MAX).
  { rewrite Hp, Hw. unfold UINT32_MAX in *.
    destruct (Z.ltb_spec 4294967295 (phase_ l + phase_increment_ l)); lia. }
  assert (HC' : 0 <= divider_count_ (Lfo_Step l) < divider_ l).
  { rewrite Hc. destruct (base_wrap l); [|lia].
    destruct (Z.eqb_spec (divider_count_ l + 1) (divider_ l)); lia. }
  split; try assumption.
  - unfold divided_formula. revert HP' HC'.
    cbn [Lfo_Step phase_ divider_count_ divided_phase_ divider_].
    set (p := u32 (phase_ l + phase_increment_ l)).
    set (c := if p <? phase_increment_ l then _ else _).
    intros HP' HC'.
    destruct (divided_bound p c (divider_ l) HD HC' HP') as [H1 H2].
    rewrite !Z.quot_div_nonneg by (unfold UINT32_MAX; lia).
    rewrite (u32_small (_ * _)) by assumption.
    apply u32_small. assumption.
Qed.

(** The divided phase goes backwards exactly at the wrap of the accumulator
    that takes the count back to 0. *)
Lemma divided_wrap_spec l :
  lfo_ok l ->
  divided_wrap l = base_wrap l && (divider_count_ l + 1 =? divider_ l).
Proof.
  intros Hok. pose proof (Lfo_Step_ok l Hok) as Hok'.
  pose proof (Lfo_Step_count l Hok) as Hc.
  destruct Hok as [HD HC HP HI HF].
  pose proof (Lfo_Step_phase l HP HI) as Hp.
  pose proof (base_wrap_spec l HP HI) as Hw.
  destruct Hok' as [_ HC' HP' _ HF'].
  unfold divided_wrap. rewrite HF', HF. unfold divided_formula.
  change (divider_ (Lfo_Step l)) with (divider_ l) in *.
  set (d := divider_ l) in *. set (q := UINT32_MAX / d).
  assert (Hq : 1 <= q).
  { unfold q. apply Z.div_le_lower_bound; lia. }
  assert (Hpq : phase_ l / d <= q) by (apply Z.div_le_mono; lia).
  assert (Hpq' : phase_ (Lfo_Step l) / d <= q) by (apply Z.div_le_mono; lia).
  assert (H0 : 0 <= phase_ l / d) by (apply Z.div_pos; lia).
  assert (H0' : 0 <= phase_ (Lfo_Step l) / d) by (apply Z.div_pos; lia).
  rewrite Hc. destruct (base_wrap l) eqn:Hb; cbn [andb].
  - destruct (Z.eqb_spec (divider_count_ l + 1) d) as [E|E].
    + apply Z.ltb_lt. rewrite Z.mul_0_r, Z.add_0_r.
      assert (Hlt : phase_ (Lfo_Step l) < phase_ l) by (unfold UINT32_MAX in *; lia).
      destruct (Z.eq_dec d 1) as [E1|E1].
      * rewrite E1, !Z.div_1_r. nia.
      * assert (phase_ (Lfo_Step l) / d <= phase_ l / d)
          by (apply Z.div_le_mono; lia).
        nia.
    + apply Z.ltb_ge. nia.
  - apply Z.ltb_ge.
    assert (phase_ l / d <= phase_ (Lfo_Step l) / d)
      by (apply Z.div_le_mono; lia).
    lia.
Qed.

Lemma base_wraps_closed n : forall l,
  0 <= phase_ l <= UINT32_MAX -> 0 <= phase_increment_ l <= UINT32_MAX ->
  base_wraps n l
  = (phase_ l + Z.of_nat n * phase_increment_ l) / 4294967296
  /\ phase_ (Lfo_Steps n l)
     = (phase_ l + Z.of_nat n * phase_increment_ l) mod 4294967296.
Proof.
  induction n as [|n IH]; intros l HP HI.
  - cbn [base_wraps Lfo_Steps]. rewrite Z.mul_0_l, Z.add_0_r.
    unfold UINT32_MAX in *.
    rewrite Z.div_small, Z.mod_small by lia. split; reflexivity.
  - cbn [base_wraps Lfo_Steps].
    pose proof (Lfo_Step_phase l HP HI) as Hp.
    pose proof (base_wrap_spec l HP HI) as Hw.
    assert (HP' : 0 <= phase_ (Lfo_Step l) <= UINT32_MAX).
    { rewrite Hp, Hw. unfold UINT32_MAX in *.
      destruct (Z.ltb_spec 4294967295 (phase_ l + phase_increment_ l)); lia. }
    destruct (IH (Lfo_Step l) HP' HI) as [IH1 IH2].
    change (phase_increment_ (Lfo_Step l)) with (phase_increment_ l) in *.
    rewrite IH1, IH2, Hp.
    replace (phase_ l + Z.of_nat (S n) * phase_increment_ l)
      with (phase_ l + phase_increment_ l + Z.of_nat n * phase_increment_ l) by lia.
    destruct (base_wrap l).
    + replace (phase_ l + phase_increment_ l + Z.of_nat n * phase_increment_ l)
        with (phase_ l + phase_increment_ l - 4294967296
              + Z.of_nat n * phase_increment_ l + 1 * 4294967296) by ring.
      rewrite Z.div_add, Z.mod_add by lia. split; lia.
    + rewrite Z.sub_0_r. split; lia.
Qed.

Lemma wraps_count n : forall l,
  lfo_ok l ->
  divider_count_ (Lfo_Steps n l)
  = (divider_count_ l + base_wraps n l) mod divider_ l
  /\ divided_wraps n l = (divider_count_ l + base_wraps n l) / divider_ l.
Proof.
  induction n as [|n IH]; intros l Hok.
  - cbn [Lfo_Steps base_wraps divided_wraps]. rewrite Z.add_0_r.
    destruct Hok as [HD HC _ _ _].
    rewrite Z.mod_small, Z.div_small by lia. split; reflexivity.
  - cbn [Lfo_Steps base_wraps divided_wraps].
    destruct (IH (Lfo_Step l) (Lfo_Step_ok l Hok)) as [IH1 IH2].
    change (divider_ (Lfo_Step l)) with (divider_ l) in *.
    rewrite IH1, IH2, divided_wrap_spec, Lfo_Step_count by assumption.
    destruct Hok as [HD HC _ _ _].
    destruct (base_wrap l); cbn [andb].
    + destruct (Z.eqb_spec (divider_count_ l + 1) (divider_ l)) as [E|E].
      * replace (divider_count_ l + (1 + base_wraps n (Lfo_Step l)))
          with (0 + base_wraps n (Lfo_Step l) + 1 * divider_ l) by lia.
        rewrite Z.mod_add, Z.div_add by lia. split; lia.
      * rewrite Z.add_assoc. split; reflexivity.
    + split; reflexivity.
Qed.

Lemma Lfo_Steps_ok n : forall l,
  lfo_ok l -> lfo_ok (Lfo_Steps n l) /\ divider_ (Lfo_Steps n l) = divider_ l.
Proof.
  induction n as [|n IH]; intros l Hok; cbn [Lfo_Steps].
  - split; [assumption | reflexivity].
  - destruct (IH (Lfo_Step l) (Lfo_Step_ok l Hok)) as [H1 H2].
    split; [assumption | exact H2].
Qed.

(** C6.  With a divider [D >= 1] and a fixed increment, after any number
    [n] of calls of [Step]: the divided phase is
    [phase / D + (UINT32_MAX / D) * divider_count], inside the band of its
    count; the count is the number of wraps of the 32-bit accumulator modulo
    [D]; the divided phase has gone backwards (ended a cycle) once per [D]
    wraps of the accumulator, and goes backwards at no other step: across a
    wrap of the accumulator that is not the [D]-th it does not decrease. *)
Theorem divided_phase_cycle (l : Lfo) (n : nat) :
  lfo_ok l ->
  let D := divider_ l in
  let l' := Lfo_Steps n l in
  divided_phase_ l' = phase_ l' / D + UINT32_MAX / D * divider_count_ l'
  /\ UINT32_MAX / D * divider_count_ l' <= divided_phase_ l'
     <= UINT32_MAX / D * (divider_count_ l' + 1)
  /\ base_wraps n l
     = (phase_ l + Z.of_nat n * phase_increment_ l) / 4294967296
  /\ divider_count_ l' = (divider_count_ l + base_wraps n l) mod D
  /\ divided_wraps n l = (divider_count_ l + base_wraps n l) / D
  /\ divided_wrap l' = base_wrap l' && (divider_count_ l' + 1 =? D)
  /\ (base_wrap l' = true -> divider_count_ l' + 1 < D ->
      divided_phase_ l' <= divided_phase_ (Lfo_Step l')).
Proof.
  intros Hok D l'.
  destruct (Lfo_Steps_ok n l Hok) as [Hok' HD].
  destruct (wraps_count n l Hok) as [Hc Hw].
  destruct (base_wraps_closed n l (ok_phase l Hok) (ok_increment l Hok))
    as [Hb _].
  pose proof (divided_wrap_spec l' Hok') as Hs.
  fold l' in HD, Hc. fold D in Hc, Hw. rewrite HD in Hs. fold D in Hs.
  assert (Hf : divided_phase_ l'
               = phase_ l' / D + UINT32_MAX / D * divider_count_ l').
  { rewrite (ok_divided l' Hok'). unfold divided_formula. rewrite HD.
    reflexivity. }
  split; [exact Hf|]. split.
  { rewrite Hf. pose proof (ok_divider _ Hok') as HD'.
    pose proof (ok_phase _ Hok') as HP'. fold l' in HD', HP'.
    rewrite HD in HD'. fold D in HD'.
    assert (0 <= phase_ l' / D <= UINT32_MAX / D).
    { split; [apply Z.div_pos; lia | apply Z.div_le_mono; lia]. }
    lia. }
  repeat split; try assumption.
  - intros Hbw Hlt. apply Z.ltb_ge. fold (divided_wrap l'). rewrite Hs, Hbw.
    cbn [andb]. apply Z.eqb_neq. lia.
Qed.

Lemma divided_phase_cycle_witness :
  let l := mkLfo 0 0 0 1500000000 3 0 65535 0 0 in
  lfo_ok l
  /\ divided_wraps 9 l = (divider_count_ l + base_wraps 9 l) / divider_ l.
Proof.
  intros l.
  assert (Hok : lfo_ok l).
  { constructor; unfold UINT32_MAX; cbn; try lia. reflexivity. }
  split; [exact Hok | apply (divided_phase_cycle l 9 Hok)].
Defined.

(** ** Pitch to phase increment *)

Section PhaseIncrement.

Variable kOctave : Z.
Variable lut_increments : Z -> Z.
Hypothesis kOctave_range : 0 < kOctave <= INT16_MAX.

Lemma octaves_up_done fuel p n :
  0 <= p -> octaves_up kOctave fuel p n = Some (p, n).
Proof.
  intros Hp. destruct fuel; cbn [octaves_up];
    destruct (Z.ltb_spec p 0); (lia || reflexivity).
Qed.

Lemma octaves_down_done fuel p n :
  p < kOctave -> octaves_down kOctave fuel p n = Some (p, n).
Proof.
  intros Hp. destruct fuel; cbn [octaves_down];
    destruct (Z.leb_spec kOctave p); (lia || reflexivity).
Qed.

(** The first loop takes a negative pitch into the octave and counts. *)
Lemma octaves_up_spec fuel : forall p n,
  INT16_MIN <= p < 0 ->
  INT16_MIN <= n + p / kOctave -> n <= INT16_MAX ->
  (Z.to_nat (- p) <= fuel)%nat ->
  octaves_up kOctave fuel p n = Some (p mod kOctave, n + p / kOctave).
Proof.
  unfold INT16_MIN, INT16_MAX in *.
  induction fuel as [|fuel IH]; intros p n Hp Hn1 Hn2 Hf; [lia|].
  cbn [octaves_up]. destruct (Z.ltb_spec p 0) as [_|]; [|lia].
  assert (Hq : p / kOctave <= -1).
  { apply Z.lt_succ_r. apply Z.div_lt_upper_bound; lia. }
  rewrite (to_int16_small (p + kOctave)), (to_int16_small (n - 1))
    by (unfold INT16_MIN, INT16_MAX; lia).
  assert (Hm : (p + kOctave) mod kOctave = p mod kOctave).
  { replace (p + kOctave) with (p + 1 * kOctave) by ring.
    apply Z.mod_add. lia. }
  assert (Hd : (p + kOctave) / kOctave = p / kOctave + 1).
  { replace (p + kOctave) with (p + 1 * kOctave) by ring.
    apply Z.div_add. lia. }
  destruct (Z.lt_ge_cases (p + kOctave) 0) as [Hneg|Hpos].
  - rewrite IH by lia. rewrite Hm, Hd. f_equal. f_equal. lia.
  - rewrite octaves_up_done by assumption.
    rewrite <- Hm. rewrite Z.mod_small by lia.
    assert (Hd0 : (p + kOctave) / kOctave = 0) by (apply Z.div_small; lia).
    f_equal. f_equal. lia.
Qed.

(** The second loop takes a pitch above the octave into it and counts. *)
Lemma octaves_down_spec fuel : forall p n,
  0 <= p <= INT16_MAX ->
  INT16_MIN <= n -> n + p / kOctave <= INT16_MAX ->
  (Z.to_nat p <= fuel)%nat ->
  octaves_down kOctave fuel p n = Some (p mod kOctave, n + p / kOctave).
Proof.
  unfold INT16_MIN, INT16_MAX in *.
  induction fuel as [|fuel IH]; intros p n Hp Hn1 Hn2 Hf.
  - assert (p = 0) by lia. subst p. rewrite octaves_down_done by lia.
    rewrite Z.mod_0_l, Z.div_0_l by lia. f_equal. f_equal. lia.
  - destruct (Z.lt_ge_cases p kOctave) as [Hlt|Hge].
    + rewrite octaves_down_done by assumption.
      rewrite Z.mod_small, Z.div_small by lia. f_equal. f_equal. lia.
    + cbn [octaves_down]. destruct (Z.leb_spec kOctave p) as [_|]; [|lia].
      assert (Hm : (p - kOctave) mod kOctave = p mod kOctave).
      { replace (p - kOctave) with (p + (-1) * kOctave) by ring.
        apply Z.mod_add. lia. }
      assert (Hd : (p - kOctave) / kOctave = p / kOctave - 1).
      { replace (p - kOctave) with (p + (-1) * kOctave) by ring.
        rewrite Z.div_add by lia. lia. }
      assert (Hq : 1 <= p / kOctave)
        by (apply Z.div_le_lower_bound; lia).
      rewrite (to_int16_small (p - kOctave)), (to_int16_small (n + 1))
        by (unfold INT16_MIN, INT16_MAX; lia).
      rewrite IH by lia. rewrite Hm, Hd. f_equal. f_equal. lia.
Qed.

(** [ComputePhaseIncrement] returns, for every 16-bit pitch, once the
    fuel covers the loops. *)
Lemma ComputePhaseIncrement_spec fuel l p :
  INT16_MIN <= p <= INT16_MAX ->
  (Z.to_nat 32768 <= fuel)%nat ->
  exists l',
    ComputePhaseIncrement kOctave lut_increments fuel l p
    = Some (l', shifted (lookup_increment lut_increments (p mod kOctave))
                        (p / kOctave))
    /\ pitch_ l' = p.
Proof.
  intros Hp Hf. unfold ComputePhaseIncrement, INT16_MIN, INT16_MAX in *.
  assert (Hm : 0 <= p mod kOctave < kOctave) by (apply Z.mod_pos_bound; lia).
  destruct (Z.lt_ge_cases p 0) as [Hneg|Hpos].
  - assert (Hq : -32768 <= p / kOctave).
    { apply Z.div_le_lower_bound; nia. }
    rewrite (octaves_up_spec fuel p 0)
      by (unfold INT16_MIN, INT16_MAX; lia).
    rewrite octaves_down_done by lia.
    eexists. split; [reflexivity|reflexivity].
  - rewrite octaves_up_done by assumption.
    assert (Hq : 0 <= p / kOctave <= p).
    { split; [apply Z.div_pos; lia|].
      apply Z.div_le_upper_bound; nia. }
    rewrite (octaves_down_spec fuel p 0)
      by (unfold INT16_MIN, INT16_MAX; lia).
    eexists. split; [reflexivity|reflexivity].
Qed.

Lemma lookup_increment_range p :
  0 <= lookup_increment lut_increments p <= UINT32_MAX.
Proof.
  unfold lookup_increment, u32, UINT32_MAX.
  match goal with |- 0 <= ?x mod ?m <= _ =>
    pose proof (Z.mod_pos_bound x m ltac:(lia)) end.
  lia.
Qed.

(** One octave more in the count: twice the increment, up to the bit a
    right shift drops. *)
Lemma shifted_succ x n :
  0 <= x <= UINT32_MAX ->
  u32 (Z.shiftl (shifted x n) 1) <= shifted x (n + 1)
                                 <= u32 (Z.shiftl (shifted x n) 1) + 1
  /\ (0 <= n -> shifted x (n + 1) = u32 (Z.shiftl (shifted x n) 1)).
Proof.
  intros Hx. unfold shifted.
  destruct (Z.leb_spec 0 n) as [Hn|Hn].
  - destruct (Z.leb_spec 0 (n + 1)) as [_|]; [|lia].
    assert (E : u32 (Z.shiftl x (n + 1)) = u32 (Z.shiftl (u32 (Z.shiftl x n)) 1)).
    { unfold u32. rewrite !Z.shiftl_mul_pow2 by lia.
      rewrite Z.pow_add_r by lia. rewrite Z.pow_1_r.
      rewrite Z.mul_mod_idemp_l by lia. f_equal. ring. }
    rewrite E. split; [lia | reflexivity].
  - split; [|lia].
    assert (E : shifted x (n + 1) = Z.shiftr x (- (n + 1))).
    { unfold shifted. destruct (Z.leb_spec 0 (n + 1)) as [H1|H1];
        [|reflexivity].
      assert (n = -1) by lia. subst n. cbn. apply u32_small. assumption. }
    unfold shifted in E. rewrite E. clear E.
    set (k := - (n + 1)). replace (- n) with (k + 1) by (unfold k; lia).
    assert (Hk : 0 <= k) by (unfold k; lia).
    rewrite <- Z.shiftr_shiftr by lia.
    set (y := Z.shiftr x k).
    assert (Hy : 0 <= y <= UINT32_MAX).
    { unfold y. rewrite Z.shiftr_div_pow2 by lia.
      split; [apply Z.div_pos; lia|].
      transitivity x; [|lia].
      apply Z.div_le_upper_bound; [lia|].
      assert (1 <= 2 ^ k) by lia. nia. }
    rewrite Z.shiftl_mul_pow2, Z.shiftr_div_pow2 by lia.
    rewrite Z.pow_1_r.
    pose proof (Z.div_mod y 2 ltac:(lia)) as Hdm.
    pose proof (Z.mod_pos_bound y 2 ltac:(lia)) as Hmb.
    rewrite u32_small by (unfold UINT32_MAX in *; lia).
    lia.
Qed.

(** C5.  For every pitch such that [pitch] and [pitch + kOctave] are 16-bit
    values and the counts of octaves are shifts of less than 32 bits,
    [ComputePhaseIncrement] returns for both, and the increment of
    [pitch + kOctave] is the increment of [pitch] shifted left by one, up to
    the one unit that the right shift of a negative count of octaves
    rounds away; from pitch 0 on the two are equal. *)
Theorem octave_doubling (fuel : nat) (l : Lfo) (pitch : Z) :
  INT16_MIN <= pitch -> pitch + kOctave <= INT16_MAX ->
  - 32 < pitch / kOctave -> pitch / kOctave + 1 < 32 ->
  (Z.to_nat 32768 <= fuel)%nat ->
  exists l1 r1 l2 r2,
    ComputePhaseIncrement kOctave lut_increments fuel l (pitch + kOctave)
    = Some (l1, r1)
    /\ ComputePhaseIncrement kOctave lut_increments fuel l pitch
       = Some (l2, r2)
    /\ u32 (Z.shiftl r2 1) <= r1 <= u32 (Z.shiftl r2 1) + 1
    /\ (0 <= pitch -> r1 = u32 (Z.shiftl r2 1)).
Proof.
  intros Hlo Hhi _ _ Hf.
  destruct (ComputePhaseIncrement_spec fuel l (pitch + kOctave))
    as (l1 & E1 & _); [unfold INT16_MIN in *; lia | assumption |].
  destruct (ComputePhaseIncrement_spec fuel l pitch)
    as (l2 & E2 & _); [unfold INT16_MIN in *; lia | assumption |].
  assert (Hm : (pitch + kOctave) mod kOctave = pitch mod kOctave).
  { replace (pitch + kOctave) with (pitch + 1 * kOctave) by ring.
    apply Z.mod_add. lia. }
  assert (Hd : (pitch + kOctave) / kOctave = pitch / kOctave + 1).
  { replace (pitch + kOctave) with (pitch + 1 * kOctave) by ring.
    apply Z.div_add. lia. }
  rewrite Hm, Hd in E1.
  destruct (shifted_succ _ (pitch / kOctave)
              (lookup_increment_range (pitch mod kOctave))) as [Hb He].
  eexists _, _, _, _. split; [exact E1|]. split; [exact E2|].
  split; [exact Hb|]. intros Hp. apply He. apply Z.div_pos; lia.
Qed.

End PhaseIncrement.

Lemma octave_doubling_witness :
  exists l1 r1 l2 r2,
    ComputePhaseIncrement 1536 (fun i => 1000 + 7 * i) (Z.to_nat 32768)
      (slow_lfo 0) (-5 + 1536) = Some (l1, r1)
    /\ ComputePhaseIncrement 1536 (fun i => 1000 + 7 * i) (Z.to_nat 32768)
         (slow_lfo 0) (-5) = Some (l2, r2)
    /\ u32 (Z.shiftl r2 1) <= r1 <= u32 (Z.shiftl r2 1) + 1
    /\ (0 <= -5 -> r1 = u32 (Z.shiftl r2 1)).
Proof.
  apply (octave_doubling 1536 (fun i => 1000 + 7 * i)).
  - unfold INT16_MAX. lia.
  - unfold INT16_MIN. lia.
  - unfold INT16_MAX. lia.
  - vm_compute. reflexivity.
  - vm_compute. reflexivity.
  - lia.
Defined.

(** The rounding does occur below pitch 0. *)
Example octave_doubling_rounds :
  snd <$> ComputePhaseIncrement 1536 (fun i => 1000 + 7 * i)
            (Z.to_nat 32768) (slow_lfo 0) (-5) = Some 834
  /\ snd <$> ComputePhaseIncrement 1536 (fun i => 1000 + 7 * i)
               (Z.to_nat 32768) (slow_lfo 0) (-5 + 1536) = Some 1669.
Proof. split; vm_compute; reflexivity. Qed.

(** ** The dispatch on the shape *)

Section ShapeDispatch.

Variables kPitch1Hz kPitch10Hz kPitch100Hz : Z.
Variable Wavetable : Type.
Variables wav_tri10 wav_tri100 wav_saw10 wav_saw100
          wav_trap10 wav_trap100 : Wavetable.
Variable Interpolate1022 : Wavetable -> Z -> Z.
Variable Crossfade1022 : Wavetable -> Wavetable -> Z -> Z -> Z.
Variable CONSTRAIN : Z -> Z -> Z -> Z.

Local Abbreviation Shape :=
  (ComputeSampleShape kPitch1Hz kPitch10Hz kPitch100Hz Wavetable
     wav_tri10 wav_tri100 wav_saw10 wav_saw100 wav_trap10 wav_trap100
     Interpolate1022 Crossfade1022 CONSTRAIN).
Local Abbreviation waveform :=
  (waveform_of kPitch1Hz kPitch10Hz kPitch100Hz Wavetable
     wav_tri10 wav_tri100 wav_saw10 wav_saw100 wav_trap10 wav_trap100
     Interpolate1022 Crossfade1022 CONSTRAIN).

(** Whatever the selector, the sample is the one of the saw. *)
Lemma ComputeSampleShape_always_saw l s :
  Shape l s = waveform SHAPE_SAW l.
Proof. reflexivity. Qed.

(** C3.  [ComputeSampleShape] evaluated where the claim fails: for an
    oscillator just initialised, at a pitch [p] at or below the three band
    thresholds (no table is read), the selector [SHAPE_TRIANGLE] gives
    32678, the sample of the saw, where the triangle computation gives
    -32768. *)
Theorem ComputeSampleShape_triangle_selector (p : Z) :
  p <= kPitch1Hz -> p <= kPitch10Hz -> p <= kPitch100Hz ->
  Shape (slow_lfo p) SHAPE_TRIANGLE = 32678
  /\ waveform SHAPE_TRIANGLE (slow_lfo p) = -32768.
Proof.
  intros H1 H10 H100.
  unfold ComputeSampleShape, waveform_of, ComputeSampleSaw,
    ComputeSampleRamp, ComputeSampleTriangle.
  cbn [slow_lfo Lfo_Init divided_pitch_ initial_phase_ divided_phase_ level_].
  destruct (Z.ltb_spec kPitch100Hz p); [lia|].
  destruct (Z.ltb_spec kPitch10Hz p); [lia|].
  destruct (Z.ltb_spec kPitch1Hz p); [lia|].
  split; reflexivity.
Qed.

End ShapeDispatch.

Lemma ComputeSampleShape_triangle_selector_witness :
  ComputeSampleShape 0 0 0 unit tt tt tt tt tt tt
    (fun _ _ => 0) (fun _ _ _ _ => 0) (fun x _ _ => x)
    (slow_lfo (-1)) SHAPE_TRIANGLE = 32678
  /\ waveform_of 0 0 0 unit tt tt tt tt tt tt
       (fun _ _ => 0) (fun _ _ _ _ => 0) (fun x _ _ => x)
       SHAPE_TRIANGLE (slow_lfo (-1)) = -32768.
Proof.
  apply (ComputeSampleShape_triangle_selector 0 0 0 unit tt tt tt tt tt tt
           (fun _ _ => 0) (fun _ _ _ _ => 0) (fun x _ _ => x) (-1)); lia.
Defined.

(** ** The switches of the input filter

    The time a switch pressed at [t0] has been held at [t], as [Poll]
    computes it, when the clock has not wrapped since the press. *)
Lemma elapsed_exact t0 t :
  0 <= t - t0 <= 2147483647 -> to_int32 (u32 (t - t0)) = t - t0.
Proof.
  intros H. rewrite u32_small by (unfold UINT32_MAX; lia).
  apply to_int32_small. lia.
Qed.

Lemma switch_run_app xs ys s :
  switch_run (xs ++ ys) s
  = let '(e1, s1) := switch_run xs s in
    let '(e2, s2) := switch_run ys s1 in
    (e1 ++ e2, s2).
Proof.
  revert s. induction xs as [|x xs IH]; intros s; cbn [switch_run app].
  - destruct (switch_run ys s). reflexivity.
  - destruct (switch_poll x s) as [e s1]. rewrite IH.
    destruct (switch_run xs s1) as [e1 s2].
    destruct (switch_run ys s2) as [e2 s3].
    rewrite app_assoc. reflexivity.
Qed.

Lemma switch_poll_press t0 s :
  switch_poll (press_poll t0) s
  = ([0], {| press_time := t0; detect_very_long_press := false |}).
Proof. reflexivity. Qed.

(** Held, before the long press: nothing up to the threshold. *)
Lemma switch_poll_held_short t0 t :
  0 <= t - t0 <= kLongPressDuration ->
  switch_poll (held_poll t) (mkSwitchState t0 false)
  = ([], mkSwitchState t0 false).
Proof.
  unfold kLongPressDuration. intros H.
  unfold switch_poll, held_poll, switch_pressed.
  cbn [sw_just_pressed sw_pressed sw_released sw_now press_time
       detect_very_long_press negb].
  rewrite elapsed_exact by lia.
  destruct (Z.ltb_spec kLongPressDuration (t - t0)) as [H1|H1];
    [unfold kLongPressDuration in H1; lia | reflexivity].
Qed.

(** Held past the threshold: the long press, once. *)
Lemma switch_poll_held_long t0 t :
  kLongPressDuration < t - t0 <= 2147483647 ->
  switch_poll (held_poll t) (mkSwitchState t0 false)
  = ([t - t0], mkSwitchState t0 true).
Proof.
  unfold kLongPressDuration. intros H.
  unfold switch_poll, held_poll, switch_pressed.
  cbn [sw_just_pressed sw_pressed sw_released sw_now press_time
       detect_very_long_press negb].
  rewrite elapsed_exact by lia.
  destruct (Z.ltb_spec kLongPressDuration (t - t0)) as [H1|H1];
    [reflexivity | unfold kLongPressDuration in H1; lia].
Qed.

(** Held after the long press: nothing up to the second threshold. *)
Lemma switch_poll_held_armed t0 t :
  0 <= t - t0 <= kVeryLongPressDuration ->
  switch_poll (held_poll t) (mkSwitchState t0 true)
  = ([], mkSwitchState t0 true).
Proof.
  unfold kVeryLongPressDuration. intros H.
  unfold switch_poll, held_poll, switch_pressed.
  cbn [sw_just_pressed sw_pressed sw_released sw_now press_time
       detect_very_long_press negb].
  rewrite elapsed_exact by lia.
  destruct (Z.ltb_spec kVeryLongPressDuration (t - t0)) as [H1|H1];
    [unfold kVeryLongPressDuration in H1; lia | reflexivity].
Qed.

(** Held past the second threshold: the very long press, and the switch
    is taken as not pressed. *)
Lemma switch_poll_held_very_long t0 t :
  kVeryLongPressDuration < t - t0 <= 2147483647 ->
  switch_poll (held_poll t) (mkSwitchState t0 true)
  = ([t - t0], mkSwitchState 0 false).
Proof.
  unfold kVeryLongPressDuration. intros H.
  unfold switch_poll, held_poll, switch_pressed.
  cbn [sw_just_pressed sw_pressed sw_released sw_now press_time
       detect_very_long_press negb].
  rewrite elapsed_exact by lia.
  destruct (Z.ltb_spec kVeryLongPressDuration (t - t0)) as [H1|H1];
    [reflexivity | unfold kVeryLongPressDuration in H1; lia].
Qed.

Lemma switch_run_held_short t0 hs :
  Forall (fun t => 0 <= t - t0 <= kLongPressDuration) hs ->
  switch_run (map held_poll hs) (mkSwitchState t0 false)
  = ([], mkSwitchState t0 false).
Proof.
  induction 1 as [|t hs Ht _ IH]; [reflexivity|].
  cbn [map switch_run]. rewrite switch_poll_held_short by assumption.
  rewrite IH. reflexivity.
Qed.

Lemma switch_run_held_armed t0 hs :
  Forall (fun t => 0 <= t - t0 <= kVeryLongPressDuration) hs ->
  switch_run (map held_poll hs) (mkSwitchState t0 true)
  = ([], mkSwitchState t0 true).
Proof.
  induction 1 as [|t hs Ht _ IH]; [reflexivity|].
  cbn [map switch_run]. rewrite switch_poll_held_armed by assumption.
  rewrite IH. reflexivity.
Qed.

(** The release of a switch neither consumed nor armed. *)
Lemma switch_poll_release t0 tr :
  t0 <> 0 -> 0 <= tr - t0 < 2147483647 ->
  switch_poll (release_poll tr) (mkSwitchState t0 false)
  = ([tr - t0 + 1], mkSwitchState 0 false).
Proof.
  intros H0 H.
  unfold switch_poll, release_poll, switch_released.
  cbn [sw_just_pressed sw_pressed sw_released sw_now press_time
       detect_very_long_press negb andb].
  destruct (Z.eqb_spec t0 0) as [|_]; [contradiction|].
  cbn [negb app]. replace (tr - t0 + 1) with (tr + 1 - t0) by ring.
  rewrite elapsed_exact by lia. reflexivity.
Qed.

(** The release after a long press, and the release of a switch taken as
    not pressed: no event. *)
Lemma switch_poll_release_armed t0 tr :
  switch_poll (release_poll tr) (mkSwitchState t0 true)
  = ([], mkSwitchState t0 true).
Proof.
  unfold switch_poll, release_poll, switch_released.
  cbn [sw_just_pressed sw_pressed sw_released sw_now press_time
       detect_very_long_press negb andb].
  rewrite andb_false_r. reflexivity.
Qed.

Lemma switch_poll_release_consumed tr d :
  switch_poll (release_poll tr) (mkSwitchState 0 d)
  = ([], mkSwitchState 0 d).
Proof. reflexivity. Qed.

(** C1, as amended.  One press at [t0] (the clock not at 0, and not wrapping
    during the gesture), held and released at [tr]:
    - released within the long-press threshold: exactly the press event
      (data 0) and the release event (hold + 1);
    - found held past the long-press threshold by some poll, and by no later
      poll past the very-long-press threshold: exactly the press event and
      the long-press event, and no release event;
    - found held past the very-long-press threshold by a later poll, and
      released by the next: exactly the press, long-press and very-long-press
      events, and no release event. *)
Theorem gesture_events (t0 tr : Z) (s : SwitchState) :
  t0 <> 0 -> 0 <= tr - t0 < 2147483647 ->
  (forall hs,
      tr - t0 <= kLongPressDuration ->
      Forall (fun t => t0 <= t <= tr) hs ->
      fst (switch_run (gesture t0 hs tr) s) = [0; tr - t0 + 1])
  /\ (forall hs1 h hs2,
      Forall (fun t => 0 <= t - t0 <= kLongPressDuration) hs1 ->
      kLongPressDuration < h - t0 <= 2147483647 ->
      Forall (fun t => 0 <= t - t0 <= kVeryLongPressDuration) hs2 ->
      fst (switch_run (gesture t0 (hs1 ++ h :: hs2) tr) s) = [0; h - t0])
  /\ (forall hs1 h hs2 h',
      Forall (fun t => 0 <= t - t0 <= kLongPressDuration) hs1 ->
      kLongPressDuration < h - t0 <= 2147483647 ->
      Forall (fun t => 0 <= t - t0 <= kVeryLongPressDuration) hs2 ->
      kVeryLongPressDuration < h' - t0 <= 2147483647 ->
      fst (switch_run (gesture t0 (hs1 ++ h :: hs2 ++ [h']) tr) s)
      = [0; h - t0; h' - t0]).
Proof.
  intros H0 Hr. unfold gesture. split; [|split].
  - intros hs Hshort Hhs. cbn [switch_run].
    rewrite switch_poll_press, switch_run_app, switch_run_held_short.
    + cbn [switch_run]. rewrite switch_poll_release by assumption.
      reflexivity.
    + eapply Forall_impl; [exact Hhs|]. cbn. intros t Ht. lia.
  - intros hs1 h hs2 H1 Hh H2. cbn [switch_run].
    rewrite switch_poll_press, map_app, <- app_assoc, switch_run_app.
    rewrite switch_run_held_short by assumption.
    cbn [map app switch_run]. rewrite switch_poll_held_long by assumption.
    rewrite switch_run_app, switch_run_held_armed by assumption.
    cbn [switch_run]. rewrite switch_poll_release_armed. reflexivity.
  - intros hs1 h hs2 h' H1 Hh H2 Hh'. cbn [switch_run].
    rewrite switch_poll_press, map_app, <- app_assoc, switch_run_app.
    rewrite switch_run_held_short by assumption.
    cbn [map app switch_run]. rewrite switch_poll_held_long by assumption.
    rewrite map_app, <- app_assoc, switch_run_app.
    rewrite switch_run_held_armed by assumption.
    cbn [map app switch_run].
    rewrite switch_poll_held_very_long by assumption.
    rewrite switch_poll_release_consumed. reflexivity.
Qed.

Lemma fold_left_inv {A B : Type} (P : A -> Prop) (f : A -> B -> A) (l : list B) :
  (forall a b, P a -> P (f a b)) -> forall a, P a -> P (fold_left f l a).
Proof.
  intros Hf. induction l as [|b l IH]; intros a Ha; cbn [fold_left].
  - exact Ha.
  - apply IH, Hf, Ha.
Qed.

(** C9.  The release block of the switch loop adds at most one event; its
    data is the time elapsed since the press plus 1, at least 1 (for every
    hold whose elapsed time plus 1 fits the 32-bit signed data field), and
    [DoEvents] hands it to the release handler.  [DoEvents] hands a switch
    event to the press handler exactly when its data is 0. *)
Theorem release_event_data (now : Z) (s s' : SwitchState) (ds : list Z) :
  u32 (now - press_time s) < 2147483647 ->
  switch_released now s = (ds, s') ->
  (length ds <= 1)%nat
  /\ (forall d, In d ds ->
     d = u32 (now - press_time s) + 1
     /\ 1 <= d
     /\ forall i, handler_of (mkEvent CONTROL_SWITCH i d) = ON_SWITCH_RELEASED)
  /\ (forall e, control_type e = CONTROL_SWITCH ->
        (handler_of e = ON_SWITCH_PRESSED <-> data e = 0)).
Proof.
  intros Hel Hrel. split; [|split].
  - unfold switch_released in Hrel.
    destruct (negb (press_time s =? 0) && negb (detect_very_long_press s));
      injection Hrel as <- _; cbn [length]; lia.
  - intros d Hd.
    assert (Hpos : 0 <= u32 (now - press_time s)).
    { unfold u32. apply Z.mod_pos_bound. lia. }
    assert (Ed : d = u32 (now - press_time s) + 1).
    { unfold switch_released in Hrel.
      destruct (negb (press_time s =? 0) && negb (detect_very_long_press s));
        injection Hrel as <- _; [|destruct Hd].
      destruct Hd as [<-|[]].
      assert (E : u32 (now - press_time s + 1) = u32 (now - press_time s) + 1).
      { unfold u32 in *. rewrite <- Z.add_mod_idemp_l by lia.
        apply Z.mod_small. lia. }
      rewrite E. apply to_int32_small. lia. }
    split; [exact Ed|]. split; [lia|].
    intros i. unfold handler_of. cbn [control_type data].
    destruct (Z.eqb_spec d 0); [lia | reflexivity].
  - intros e He. unfold handler_of. rewrite He.
    destruct (Z.eqb_spec (data e) 0); split; intros H;
      (assumption || reflexivity || discriminate || contradiction).
Qed.

Lemma release_event_data_witness :
  301 = u32 (1300 - 1000) + 1
  /\ 1 <= 301
  /\ handler_of (mkEvent CONTROL_SWITCH 3 301) = ON_SWITCH_RELEASED.
Proof.
  destruct (release_event_data 1300 (mkSwitchState 1000 false)
              (mkSwitchState 0 false) [301]
              ltac:(vm_compute; reflexivity) eq_refl) as (_ & Hd & _).
  destruct (Hd 301 ltac:(left; reflexivity)) as (H1 & H2 & H3).
  split; [exact H1|]. split; [exact H2 | exact (H3 3%nat)].
Defined.

(** ** The handlers and the modes *)

Section PanelProperties.

Variables kNumSwitches kNumLeds : nat.
Variable SWITCH_SELECT : nat.
Variables FEAT_MODE_FREE FEAT_MODE_LAST : Z.

Local Abbreviation Poll' := (Poll kNumSwitches kNumLeds).
Local Abbreviation paint' := (paint kNumLeds).
Local Abbreviation OnSwitchReleased' :=
  (OnSwitchReleased SWITCH_SELECT FEAT_MODE_LAST).
Local Abbreviation handle_event' := (handle_event SWITCH_SELECT FEAT_MODE_LAST).
Local Abbreviation handle_events' := (handle_events SWITCH_SELECT FEAT_MODE_LAST).
Local Abbreviation drain' := (drain SWITCH_SELECT FEAT_MODE_LAST).
Local Abbreviation DoEvents' := (DoEvents SWITCH_SELECT FEAT_MODE_LAST).
Local Abbreviation enters_zoom' := (enters_zoom SWITCH_SELECT).
Local Abbreviation ui_step' :=
  (ui_step kNumSwitches kNumLeds SWITCH_SELECT FEAT_MODE_LAST).
Local Abbreviation ui_steps' :=
  (ui_steps kNumSwitches kNumLeds SWITCH_SELECT FEAT_MODE_LAST).

(** C10.  Handling a switch press event (data 0), and handling a release
    event of a switch other than SELECT, leaves the whole state of the panel
    as it is: the result is the state itself, so the modes, the pot values,
    the catch-up flags and the oscillators are unchanged. *)
Theorem switch_events_without_effect (e : Event) (u : Ui) :
  OnSwitchPressed e u = u
  /\ (control_id e <> SWITCH_SELECT -> OnSwitchReleased' e u = u)
  /\ (control_type e = CONTROL_SWITCH ->
      data e = 0 \/ control_id e <> SWITCH_SELECT ->
      handle_event' e u = u).
Proof.
  assert (Hrel : control_id e <> SWITCH_SELECT -> OnSwitchReleased' e u = u).
  { intros Hid. unfold OnSwitchReleased.
    destruct (Nat.eqb_spec (control_id e) SWITCH_SELECT);
      [contradiction | reflexivity]. }
  split; [reflexivity|]. split; [exact Hrel|].
  intros Ht Hcase. unfold handle_event, handler_of. rewrite Ht.
  destruct (Z.eqb_spec (data e) 0) as [E|E]; [reflexivity|].
  destruct Hcase as [?|Hid]; [contradiction | exact (Hrel Hid)].
Qed.

(** *** The modes *)

Lemma AddEvent_mode t i d u : mode_ (AddEvent t i d u) = mode_ u.
Proof. reflexivity. Qed.

Lemma poll_switch_mode inp u i : mode_ (poll_switch inp u i) = mode_ u.
Proof.
  unfold poll_switch. destruct (switch_poll _ _) as [ds s].
  cbn [set_switch mode_].
  apply (fold_left_inv (fun u' => mode_ u' = mode_ u)); [|reflexivity].
  intros a b Ha. exact Ha.
Qed.

Lemma poll_pot_mode inp u i : mode_ (poll_pot inp u i) = mode_ u.
Proof. unfold poll_pot. destruct (_ || _); reflexivity. Qed.

Lemma set_leds_mode (f : Ui -> nat -> bool) (l : list nat) (u : Ui) :
  mode_ (fold_left (fun u i => set_led i (f u i) u) l u) = mode_ u.
Proof.
  apply (fold_left_inv (fun u' => mode_ u' = mode_ u)); [|reflexivity].
  intros a b Ha. exact Ha.
Qed.

(** The time-based exit: painting leaves SPLASH for NORMAL when the
    counter reaches a multiple of 64 past 8 * 64, and changes no other
    mode. *)
Lemma paint_mode u :
  mode_ (paint' u)
  = match mode_ u with
    | UI_MODE_SPLASH =>
        let c := to_int32 (animation_counter_ u + 1) in
        if (Z.rem c 64 =? 0) && (8 <? Z.quot c 64)
        then UI_MODE_NORMAL else UI_MODE_SPLASH
    | m => m
    end.
Proof.
  unfold paint. cbn [set_animation_counter mode_].
  destruct (mode_ u) eqn:Em.
  - destruct (Z.rem _ 64 =? 0); cbn [andb]; [|exact Em].
    destruct (8 <? _); cbn [set_mode mode_]; [reflexivity|].
    rewrite (set_leds_mode (fun _ i => _ =? Z.of_nat i)). exact Em.
  - cbn [set_led mode_].
    rewrite (set_leds_mode (fun _ _ => false)). exact Em.
  - apply (fold_left_inv (fun u' => mode_ u' = UI_MODE_NORMAL));
      [|exact Em].
    intros a b Ha. destruct (_ : bool); exact Ha.
Qed.

Lemma Poll_mode inp u :
  mode_ (Poll' inp u)
  = match mode_ u with
    | UI_MODE_SPLASH =>
        let c := to_int32 (animation_counter_ u + 1) in
        if (Z.rem c 64 =? 0) && (8 <? Z.quot c 64)
        then UI_MODE_NORMAL else UI_MODE_SPLASH
    | m => m
    end.
Proof.
  unfold Poll. rewrite paint_mode.
  set (u1 := fold_left (poll_switch inp) _ u).
  set (u2 := fold_left (poll_pot inp) _ u1).
  assert (E1 : mode_ u1 = mode_ u /\ animation_counter_ u1 = animation_counter_ u).
  { apply (fold_left_inv (fun u' => mode_ u' = mode_ u
                            /\ animation_counter_ u' = animation_counter_ u));
      [|split; reflexivity].
    intros a b [Ha Hc]. rewrite poll_switch_mode. split; [exact Ha|].
    rewrite <- Hc. unfold poll_switch. destruct (switch_poll _ _) as [ds s].
    cbn [set_switch animation_counter_].
    apply (fold_left_inv (fun u' => animation_counter_ u' = animation_counter_ a));
      [|reflexivity].
    intros a' b' Ha'. exact Ha'. }
  assert (E2 : mode_ u2 = mode_ u1 /\ animation_counter_ u2 = animation_counter_ u1).
  { apply (fold_left_inv (fun u' => mode_ u' = mode_ u1
                            /\ animation_counter_ u' = animation_counter_ u1));
      [|split; reflexivity].
    intros a b [Ha Hc]. rewrite poll_pot_mode. split; [exact Ha|].
    rewrite <- Hc. unfold poll_pot. destruct (_ || _); reflexivity. }
  destruct E1 as [E1 C1], E2 as [E2 C2]. rewrite E2, E1, C2, C1.
  reflexivity.
Qed.

Lemma detect_moved_pots_mode u : mode_ (detect_moved_pots u) = mode_ u.
Proof.
  apply (fold_left_inv (fun u' => mode_ u' = mode_ u)); [|reflexivity].
  intros a b Ha. destruct (_ <? _); exact Ha.
Qed.

Lemma handle_event_splash e u :
  mode_ u = UI_MODE_SPLASH ->
  mode_ (handle_event' e u)
  = if enters_zoom' e then UI_MODE_ZOOM else UI_MODE_SPLASH.
Proof.
  intros Em. unfold handle_event, handler_of, enters_zoom.
  unfold kLongPressDuration, kVeryLongPressDuration.
  destruct (control_type e).
  - destruct (Z.eqb_spec (data e) 0) as [E0|E0].
    + unfold OnSwitchPressed. rewrite E0, Em.
      destruct (Nat.eqb _ _); reflexivity.
    + unfold OnSwitchReleased.
      unfold kLongPressDuration, kVeryLongPressDuration.
      destruct (Nat.eqb _ _); cbn [andb]; [|exact Em].
      destruct (Z.ltb_spec 2000 (data e)), (Z.ltb_spec 500 (data e)),
        (Z.leb_spec (data e) 2000); cbn [andb]; try lia;
        try exact Em; try reflexivity.
      rewrite Em. exact Em.
  - unfold OnPotChanged. rewrite Em. exact Em.
Qed.

Lemma handle_event_not_splash e u :
  mode_ u <> UI_MODE_SPLASH -> mode_ (handle_event' e u) <> UI_MODE_SPLASH.
Proof.
  intros Em. unfold handle_event.
  destruct (handler_of e).
  - exact Em.
  - unfold OnSwitchReleased.
    destruct (Nat.eqb _ _); [|exact Em].
    destruct (_ <? _); [exact Em|].
    destruct (_ <? _); [discriminate|].
    destruct (mode_ u) eqn:E; [congruence | discriminate |].
    cbn [set_lfo set_feat_mode mode_]. congruence.
  - unfold OnPotChanged. destruct (mode_ u) eqn:E;
      [congruence | cbn [set_pot_fine_value mode_]; congruence |].
    destruct (_ <? _); cbn [set_catchup_state set_pot_coarse_value mode_];
      congruence.
Qed.

Lemma drain_not_splash q : forall u,
  mode_ u <> UI_MODE_SPLASH -> mode_ (drain' q u) <> UI_MODE_SPLASH.
Proof.
  induction q as [|e q IH]; intros u Em; cbn [drain].
  - exact Em.
  - apply IH, handle_event_not_splash. exact Em.
Qed.

Lemma ui_step_not_splash u u' :
  ui_step' u u' -> mode_ u <> UI_MODE_SPLASH -> mode_ u' <> UI_MODE_SPLASH.
Proof.
  intros Hstep Em. destruct Hstep.
  - rewrite Poll_mode. destruct (mode_ u); [contradiction | discriminate..].
  - exact Em.
  - apply drain_not_splash. exact Em.
  - apply handle_event_not_splash. exact Em.
Qed.

(** The exits of SPLASH as the code has them.  A poll leaves for NORMAL
    exactly when the animation counter reaches a multiple of 64 past
    8 * 64, and stays in SPLASH otherwise; the one event that changes the
    mode in SPLASH is the long press of SELECT, the defect stated below;
    once SPLASH is left, no sequence of polls, flushes and handled events
    enters it again. *)
Theorem splash_exits :
  (forall inp u,
      mode_ u = UI_MODE_SPLASH ->
      let c := to_int32 (animation_counter_ u + 1) in
      mode_ (Poll' inp u)
      = if (Z.rem c 64 =? 0) && (8 <? Z.quot c 64)
        then UI_MODE_NORMAL else UI_MODE_SPLASH)
  /\ (forall e u,
      mode_ u = UI_MODE_SPLASH ->
      mode_ (handle_event' e u)
      = if enters_zoom' e then UI_MODE_ZOOM else UI_MODE_SPLASH)
  /\ (forall u u',
      ui_steps' u u' ->
      mode_ u <> UI_MODE_SPLASH -> mode_ u' <> UI_MODE_SPLASH).
Proof.
  split; [|split].
  - intros inp u Em. rewrite Poll_mode, Em. reflexivity.
  - exact handle_event_splash.
  - intros u u' Hsteps. induction Hsteps as [u|u1 u2 u3 H12 _ IH].
    + intros Em. exact Em.
    + intros Em. apply IH. exact (ui_step_not_splash u1 u2 H12 Em).
Qed.

(** C2, a defect of the code.  Handled in SPLASH, a SELECT event with a
    data past the long-press threshold and not past the very-long-press
    threshold puts the panel in ZOOM: the long-press branch of
    [OnSwitchReleased] writes [mode_] without looking at it.  The sibling
    paths have the guard that the claim asks for: in SPLASH the
    short-release branch of the same function ([case UI_MODE_SPLASH:
    break]), the very long press, the press and the releases of the other
    switches, and [OnPotChanged] all leave the panel as it is. *)
Theorem splash_long_press_enters_zoom (e : Event) (u : Ui) :
  mode_ u = UI_MODE_SPLASH ->
  control_type e = CONTROL_SWITCH -> control_id e = SWITCH_SELECT ->
  kLongPressDuration < data e <= kVeryLongPressDuration ->
  handle_event' e u = set_mode UI_MODE_ZOOM u
  /\ mode_ (handle_event' e u) = UI_MODE_ZOOM
  /\ (forall e',
        control_type e' = CONTROL_SWITCH ->
        control_id e' <> SWITCH_SELECT
        \/ data e' <= kLongPressDuration
        \/ kVeryLongPressDuration < data e' ->
        handle_event' e' u = u)
  /\ (forall e', control_type e' = CONTROL_POT -> handle_event' e' u = u).
Proof.
  unfold kLongPressDuration, kVeryLongPressDuration.
  intros Em Ht Hid Hd.
  assert (E : handle_event' e u = set_mode UI_MODE_ZOOM u).
  { unfold handle_event, handler_of. rewrite Ht.
    destruct (Z.eqb_spec (data e) 0); [lia|].
    unfold OnSwitchReleased, kLongPressDuration, kVeryLongPressDuration.
    rewrite Hid, Nat.eqb_refl.
    destruct (Z.ltb_spec 2000 (data e)); [lia|].
    destruct (Z.ltb_spec 500 (data e)); [reflexivity | lia]. }
  split; [exact E|]. split; [rewrite E; reflexivity|]. split.
  - intros e' Ht' Hguard. unfold handle_event, handler_of. rewrite Ht'.
    destruct (Z.eqb_spec (data e') 0); [reflexivity|].
    unfold OnSwitchReleased, kLongPressDuration, kVeryLongPressDuration.
    destruct (Nat.eqb_spec (control_id e') SWITCH_SELECT) as [Hs|Hs];
      [|reflexivity].
    destruct (Z.ltb_spec 2000 (data e')); [reflexivity|].
    destruct (Z.ltb_spec 500 (data e')).
    + destruct Hguard as [Hg|[Hg|Hg]]; [contradiction | lia | lia].
    + rewrite Em. reflexivity.
  - intros e' Ht'. unfold handle_event, handler_of, OnPotChanged.
    rewrite Ht', Em. reflexivity.
Qed.

End PanelProperties.

Lemma init_lfos_lookup (l : list Lfo) (i : nat) :
  (i < 4)%nat -> init_lfos l !! i = Lfo_Init <$> l !! i.
Proof.
  intros Hi. unfold init_lfos. cbn [seq fold_left].
  destruct i as [|[|[|[|i]]]]; [| | | |lia];
    repeat first [ rewrite list_lookup_alter_eq
                 | rewrite list_lookup_alter_ne by lia ];
    reflexivity.
Qed.

Lemma init_lfos_length (l : list Lfo) : length (init_lfos l) = length l.
Proof.
  unfold init_lfos. cbn [seq fold_left]. rewrite !length_alter. reflexivity.
Qed.

(** ** Short releases of SELECT *)

Section SelectReleases.

Variable SWITCH_SELECT : nat.
Variable FEAT_MODE_LAST : Z.

Local Abbreviation OnSwitchReleased' :=
  (OnSwitchReleased SWITCH_SELECT FEAT_MODE_LAST).
Local Abbreviation handle_event' := (handle_event SWITCH_SELECT FEAT_MODE_LAST).
Local Abbreviation handle_events' := (handle_events SWITCH_SELECT FEAT_MODE_LAST).

Lemma OnSwitchReleased_short e u :
  control_id e = SWITCH_SELECT -> data e <= kLongPressDuration ->
  OnSwitchReleased' e u
  = match mode_ u with
    | UI_MODE_SPLASH => u
    | UI_MODE_ZOOM => set_mode UI_MODE_NORMAL (detect_moved_pots u)
    | UI_MODE_NORMAL =>
        set_lfo (init_lfos (lfo_ u))
          (set_feat_mode (Z.rem (feat_mode_ u + 1) FEAT_MODE_LAST) u)
    end.
Proof.
  unfold kLongPressDuration. intros Hid Hd. unfold OnSwitchReleased.
  rewrite Hid, Nat.eqb_refl. unfold kVeryLongPressDuration, kLongPressDuration.
  destruct (Z.ltb_spec 2000 (data e)); [lia|].
  destruct (Z.ltb_spec 500 (data e)); [lia|]. reflexivity.
Qed.

(** C8.  In NORMAL, the release handler on a SELECT event whose data is at
    most the long-press threshold: the feature mode becomes
    [(feat_mode_ + 1) % FEAT_MODE_LAST] (the next one, back to 0 after the
    last), each of the first four oscillators is the result of [Init] (phase,
    divided phase and initial phase 0, increment [UINT32_MAX >> 8], divider
    1, divider count 0, level [UINT16_MAX]), and the mode is still NORMAL.
    [DoEvents] reaches this handler for such an event when its data is not
    0. *)
Theorem select_short_release_in_normal (e : Event) (u : Ui) :
  mode_ u = UI_MODE_NORMAL ->
  control_id e = SWITCH_SELECT ->
  data e <= kLongPressDuration ->
  let u' := OnSwitchReleased' e u in
  mode_ u' = UI_MODE_NORMAL
  /\ feat_mode_ u' = Z.rem (feat_mode_ u + 1) FEAT_MODE_LAST
  /\ (0 <= feat_mode_ u < FEAT_MODE_LAST ->
      feat_mode_ u'
      = if feat_mode_ u + 1 =? FEAT_MODE_LAST then 0 else feat_mode_ u + 1)
  /\ length (lfo_ u') = length (lfo_ u)
  /\ (forall i l,
        (i < 4)%nat -> lfo_ u !! i = Some l ->
        lfo_ u' !! i
        = Some {| phase_ := 0;
                  divided_phase_ := 0;
                  initial_phase_ := 0;
                  phase_increment_ := Z.shiftr UINT32_MAX 8;
                  divider_ := 1;
                  divider_count_ := 0;
                  level_ := UINT16_MAX;
                  pitch_ := pitch_ l;
                  divided_pitch_ := divided_pitch_ l |})
  /\ (control_type e = CONTROL_SWITCH -> data e <> 0 ->
      handle_event' e u = u').
Proof.
  intros Em Hid Hd u'. unfold u'.
  rewrite OnSwitchReleased_short by assumption. rewrite Em.
  cbn [set_lfo set_feat_mode mode_ feat_mode_ lfo_].
  split; [exact Em|]. split; [reflexivity|]. split; [|split; [|split]].
  - intros Hf. rewrite Z.rem_mod_nonneg by lia.
    destruct (Z.eqb_spec (feat_mode_ u + 1) FEAT_MODE_LAST) as [E|E].
    + rewrite E. apply Z.mod_same. lia.
    + apply Z.mod_small. lia.
  - apply init_lfos_length.
  - intros i l Hi Hl. rewrite init_lfos_lookup by assumption.
    rewrite Hl. reflexivity.
  - intros Ht H0. unfold handle_event, handler_of. rewrite Ht.
    destruct (Z.eqb_spec (data e) 0); [contradiction|].
    rewrite OnSwitchReleased_short by assumption. rewrite Em. reflexivity.
Qed.

(** *** Catch-up *)

Lemma detect_moved_fold (js : list nat) : forall u,
  let u' :=
    fold_left
      (fun (u : Ui) (i : nat) =>
         if kCatchupThreshold
            <? Z.abs (pot_value_ u !!! i - pot_coarse_value_ u !!! i)
         then set_catchup_state i true u
         else u) js u in
  pot_value_ u' = pot_value_ u
  /\ pot_coarse_value_ u' = pot_coarse_value_ u
  /\ length (catchup_state_ u') = length (catchup_state_ u)
  /\ forall i,
      (catchup_state_ u !! i = Some true ->
       catchup_state_ u' !! i = Some true)
      /\ (In i js -> (i < length (catchup_state_ u))%nat ->
          kCatchupThreshold
          < Z.abs (pot_value_ u !!! i - pot_coarse_value_ u !!! i) ->
          catchup_state_ u' !! i = Some true).
Proof.
  induction js as [|j js IH]; intros u; cbn [fold_left].
  - repeat split; try reflexivity; [tauto | intros []].
  - set (u1 := if _ <? _ then set_catchup_state j true u else u).
    assert (H1 : pot_value_ u1 = pot_value_ u
                 /\ pot_coarse_value_ u1 = pot_coarse_value_ u
                 /\ length (catchup_state_ u1) = length (catchup_state_ u)).
    { unfold u1. destruct (_ <? _); cbn [set_catchup_state pot_value_
        pot_coarse_value_ catchup_state_]; rewrite ?length_insert; auto. }
    destruct H1 as (Ev & Ec & El).
    assert (Hkeep : forall i, catchup_state_ u !! i = Some true ->
                              catchup_state_ u1 !! i = Some true).
    { intros i Hi. unfold u1. destruct (_ <? _); [|exact Hi].
      cbn [set_catchup_state catchup_state_].
      destruct (Nat.eq_dec j i) as [->|Hne].
      - apply list_lookup_insert_eq. apply lookup_lt_is_Some. eauto.
      - rewrite list_lookup_insert_ne by assumption. exact Hi. }
    destruct (IH u1) as (Ev' & Ec' & El' & Hi').
    rewrite Ev', Ec', El'.
    split; [exact Ev|]. split; [exact Ec|]. split; [exact El|].
    intros i. split.
    + intros Hi. apply (proj1 (Hi' i)), Hkeep, Hi.
    + intros [Hji|Hin] Hlen Hmoved.
      * subst j. apply (proj1 (Hi' i)). unfold u1.
        destruct (Z.ltb_spec kCatchupThreshold
                    (Z.abs (pot_value_ u !!! i - pot_coarse_value_ u !!! i)));
          [|lia].
        cbn [set_catchup_state catchup_state_].
        apply list_lookup_insert_eq. exact Hlen.
      * apply (proj2 (Hi' i));
          [exact Hin | lia | rewrite Ev, Ec; exact Hmoved].
Qed.

(** Pot events that are not within the threshold of pot [i] leave its
    committed value and its pending flag as they are. *)
Lemma handle_events_hold (i : nat) (c : Z) (es : list Event) : forall u,
  mode_ u = UI_MODE_NORMAL ->
  pot_coarse_value_ u !! i = Some c ->
  Forall (fun e => control_type e = CONTROL_POT
                   /\ (control_id e = i -> ~ within_catchup (data e) c)) es ->
  let u' := handle_events' es u in
  mode_ u' = UI_MODE_NORMAL
  /\ pot_coarse_value_ u' !! i = Some c
  /\ (catchup_state_ u !! i = Some true ->
      catchup_state_ u' !! i = Some true).
Proof.
  induction es as [|e es IH]; intros u Em Hc Hes;
    cbn [handle_events fold_left].
  - auto.
  - apply Forall_cons in Hes. destruct Hes as [[Ht Hout] Hes].
    change (fold_left _ es ?x) with (handle_events' es x).
    assert (H1 : let u1 := handle_event' e u in
                 mode_ u1 = UI_MODE_NORMAL
                 /\ pot_coarse_value_ u1 !! i = Some c
                 /\ (catchup_state_ u !! i = Some true ->
                     catchup_state_ u1 !! i = Some true)).
    { unfold handle_event, handler_of. rewrite Ht.
      unfold OnPotChanged. rewrite Em.
      destruct (Z.ltb_spec
                  (Z.abs (data e - pot_coarse_value_ u !!! control_id e))
                  kCatchupThreshold) as [Hin|_]; [|auto].
      cbn [set_catchup_state set_pot_coarse_value mode_ pot_coarse_value_
           catchup_state_].
      destruct (Nat.eq_dec (control_id e) i) as [Hid|Hid].
      - exfalso. apply (Hout Hid). unfold within_catchup.
        rewrite Hid in Hin.
        rewrite (list_lookup_total_correct _ _ _ Hc) in Hin. exact Hin.
      - rewrite !list_lookup_insert_ne by assumption. auto. }
    destruct H1 as (Em1 & Hc1 & Hk1).
    destruct (IH (handle_event' e u) Em1 Hc1 Hes) as (Em2 & Hc2 & Hk2).
    auto.
Qed.

(** C4.  For every pot [i]: when a short SELECT release takes the panel
    from ZOOM to NORMAL and the last reported value of the pot is further
    than the catch-up threshold from its coarse value, the catch-up flag of
    the pot is set (state [u1]); pot motion events that are not, for pot
    [i], within the threshold of the coarse value then leave the coarse
    value and the flag as they are (state [u2]); the motion event of pot [i]
    that is within the threshold sets the coarse value to its value and
    clears the flag (state [u3]). *)
Theorem catchup_protocol (u : Ui) (e_select : Event) (es : list Event)
    (i : nat) (v : Z) :
  pots_ok u -> (i < 4)%nat ->
  mode_ u = UI_MODE_ZOOM ->
  control_id e_select = SWITCH_SELECT ->
  data e_select <= kLongPressDuration ->
  kCatchupThreshold
  < Z.abs (pot_value_ u !!! i - pot_coarse_value_ u !!! i) ->
  Forall (fun e => control_type e = CONTROL_POT
                   /\ (control_id e = i ->
                       ~ within_catchup (data e) (pot_coarse_value_ u !!! i)))
         es ->
  within_catchup v (pot_coarse_value_ u !!! i) ->
  0 <= v <= UINT16_MAX ->
  let u1 := OnSwitchReleased' e_select u in
  let u2 := handle_events' es u1 in
  let u3 := handle_event' (mkEvent CONTROL_POT i v) u2 in
  (mode_ u1 = UI_MODE_NORMAL
   /\ catchup_state_ u1 !! i = Some true
   /\ pot_coarse_value_ u1 = pot_coarse_value_ u)
  /\ (mode_ u2 = UI_MODE_NORMAL
      /\ catchup_state_ u2 !! i = Some true
      /\ pot_coarse_value_ u2 !! i = pot_coarse_value_ u !! i)
  /\ (mode_ u3 = UI_MODE_NORMAL
      /\ catchup_state_ u3 !! i = Some false
      /\ pot_coarse_value_ u3 !! i = Some v).
Proof.
  intros Hok Hi Em Hid Hd Hmoved Hes Hv Hv16 u1 u2 u3.
  destruct Hok as [_ _ Hlc _ Hlk].
  assert (Hc : pot_coarse_value_ u !! i
               = Some (pot_coarse_value_ u !!! i)).
  { apply list_lookup_lookup_total_lt. lia. }
  destruct (detect_moved_fold (seq 0 4) u) as (_ & Ec & El & Hset).
  fold (detect_moved_pots u) in Ec, El, Hset.
  assert (H1 : mode_ u1 = UI_MODE_NORMAL
               /\ catchup_state_ u1 !! i = Some true
               /\ pot_coarse_value_ u1 = pot_coarse_value_ u
               /\ length (catchup_state_ u1) = 4%nat).
  { unfold u1. rewrite OnSwitchReleased_short by assumption. rewrite Em.
    cbn [set_mode mode_ catchup_state_ pot_coarse_value_].
    split; [reflexivity|]. split; [|split; [exact Ec | lia]].
    apply (proj2 (Hset i)); [|lia|exact Hmoved].
    apply in_seq. lia. }
  destruct H1 as (Em1 & Hk1 & Ec1 & El1).
  destruct (handle_events_hold i (pot_coarse_value_ u !!! i) es u1 Em1)
    as (Em2 & Hc2 & Hk2); [rewrite Ec1; exact Hc | exact Hes |].
  fold u2 in Em2, Hc2, Hk2.
  split; [auto|]. split; [rewrite Hc; auto|].
  unfold u3, handle_event, handler_of. cbn [control_type].
  unfold OnPotChanged. rewrite Em2. cbn [control_id data].
  rewrite (list_lookup_total_correct _ _ _ Hc2).
  destruct (Z.ltb_spec (Z.abs (v - pot_coarse_value_ u !!! i))
              kCatchupThreshold) as [_|Hge];
    [|unfold within_catchup in Hv; lia].
  cbn [set_catchup_state set_pot_coarse_value mode_ pot_coarse_value_
       catchup_state_].
  rewrite u16_small by assumption.
  split; [exact Em2|]. split.
  - apply list_lookup_insert_eq. apply lookup_lt_is_Some.
    exists true. apply Hk2, Hk1.
  - apply list_lookup_insert_eq. apply lookup_lt_is_Some. eauto.
Qed.

End SelectReleases.

Lemma pot_moved_abs inp u i :
  pot_moved inp u i
  = (kPotMoveThreshold <=? Z.abs (smoothed inp u i - pot_value_ u !!! i)).
Proof.
  unfold pot_moved, kPotMoveThreshold. cbn [Z.shiftl Z.sub Z.opp Z.add Z.pos_sub].
  set (v := smoothed inp u i). set (c := pot_value_ u !!! i).
  destruct (Z.leb_spec (c + Z.shiftl 1 6) v), (Z.leb_spec v (c - Z.shiftl 1 6)),
    (Z.leb_spec (Z.shiftl 1 6) (Z.abs (v - c)));
    cbn in *; try reflexivity; lia.
Qed.

Lemma smoothed_range inp u i :
  0 <= pot_filtered_value_ u !!! i <= UINT16_MAX ->
  0 <= pot inp i <= UINT16_MAX ->
  0 <= smoothed inp u i <= UINT16_MAX.
Proof.
  unfold smoothed, UINT16_MAX. intros Hf Ha.
  rewrite Z.shiftr_div_pow2 by lia. change (2 ^ 5) with 32.
  split.
  - apply Z.div_pos; lia.
  - apply Z.div_le_upper_bound; lia.
Qed.

Lemma flat_map_ext_In {A B : Type} (f g : A -> list B) (l : list A) :
  (forall a, In a l -> f a = g a) -> flat_map f l = flat_map g l.
Proof.
  induction l as [|a l IH]; intros H; cbn [flat_map]; [reflexivity|].
  rewrite (H a) by (left; reflexivity).
  rewrite IH by (intros b Hb; apply H; right; exact Hb). reflexivity.
Qed.

Lemma poll_pot_unfold inp u j :
  poll_pot inp u j
  = let value := smoothed inp u j in
    if pot_moved inp u j
    then set_pot_value j (u16 value)
           (AddEvent CONTROL_POT j value
              (set_pot_filtered_value j (u16 value) u))
    else set_pot_filtered_value j (u16 value) u.
Proof. reflexivity. Qed.

Lemma poll_pot_queue inp u j :
  queue_ (poll_pot inp u j) = queue_ u ++ pot_events inp u j.
Proof.
  rewrite poll_pot_unfold. unfold pot_events. cbn zeta.
  destruct (pot_moved inp u j);
    cbn [set_pot_value set_pot_filtered_value AddEvent set_queue queue_].
  - reflexivity.
  - rewrite app_nil_r. reflexivity.
Qed.

Lemma poll_pot_other inp u j k :
  j <> k ->
  pot_value_ (poll_pot inp u j) !!! k = pot_value_ u !!! k
  /\ pot_filtered_value_ (poll_pot inp u j) !!! k
     = pot_filtered_value_ u !!! k.
Proof.
  intros Hne. rewrite poll_pot_unfold. cbn zeta.
  destruct (pot_moved inp u j);
    cbn [set_pot_value set_pot_filtered_value AddEvent set_queue pot_value_
         pot_filtered_value_];
    rewrite ?list_lookup_total_insert_ne by assumption; auto.
Qed.

Lemma poll_pot_same inp u j :
  (j < length (pot_value_ u))%nat ->
  (j < length (pot_filtered_value_ u))%nat ->
  pot_value_ (poll_pot inp u j) !!! j
  = (if pot_moved inp u j then u16 (smoothed inp u j) else pot_value_ u !!! j)
  /\ pot_filtered_value_ (poll_pot inp u j) !!! j = u16 (smoothed inp u j).
Proof.
  intros Hv Hf. rewrite poll_pot_unfold. cbn zeta.
  destruct (pot_moved inp u j);
    cbn [set_pot_value set_pot_filtered_value AddEvent set_queue pot_value_
         pot_filtered_value_];
    rewrite ?list_lookup_total_insert_eq by assumption; auto.
Qed.

Lemma poll_pot_length inp u j :
  length (pot_value_ (poll_pot inp u j)) = length (pot_value_ u)
  /\ length (pot_filtered_value_ (poll_pot inp u j))
     = length (pot_filtered_value_ u).
Proof.
  rewrite poll_pot_unfold. cbn zeta.
  destruct (pot_moved inp u j);
    cbn [set_pot_value set_pot_filtered_value AddEvent set_queue pot_value_
         pot_filtered_value_];
    rewrite ?length_insert; auto.
Qed.

(** The pot loop over distinct pots [js]: each pot's events, in order, and
    every pot judged on the state before the loop. *)
Lemma poll_pots_fold inp (js : list nat) :
  NoDup js -> forall u,
  let u' := fold_left (poll_pot inp) js u in
  queue_ u' = queue_ u ++ flat_map (pot_events inp u) js
  /\ length (pot_value_ u') = length (pot_value_ u)
  /\ length (pot_filtered_value_ u') = length (pot_filtered_value_ u)
  /\ forall k,
      (~ In k js ->
       pot_value_ u' !!! k = pot_value_ u !!! k
       /\ pot_filtered_value_ u' !!! k = pot_filtered_value_ u !!! k)
      /\ (In k js ->
          (k < length (pot_value_ u))%nat ->
          (k < length (pot_filtered_value_ u))%nat ->
          pot_value_ u' !!! k
          = (if pot_moved inp u k then u16 (smoothed inp u k)
             else pot_value_ u !!! k)
          /\ pot_filtered_value_ u' !!! k = u16 (smoothed inp u k)).
Proof.
  induction 1 as [|j js Hj Hnd IH]; intros u; cbn [fold_left flat_map].
  - rewrite app_nil_r. repeat split; try reflexivity; destruct H.
  - rewrite list_elem_of_In in Hj.
    destruct (IH (poll_pot inp u j)) as (Eq & Lv & Lf & Hk).
    destruct (poll_pot_length inp u j) as [Lv1 Lf1].
    assert (Hsame : forall k, In k js ->
              pot_events inp (poll_pot inp u j) k = pot_events inp u k
              /\ pot_moved inp (poll_pot inp u j) k = pot_moved inp u k
              /\ smoothed inp (poll_pot inp u j) k = smoothed inp u k).
    { intros k Hin. assert (Hne : j <> k) by (intros ->; contradiction).
      destruct (poll_pot_other inp u j k Hne) as [Ev Ef].
      unfold pot_events, pot_moved, smoothed. rewrite Ev, Ef. auto. }
    split; [|split; [lia|split; [lia|]]].
    + rewrite Eq, poll_pot_queue, <- app_assoc. f_equal. f_equal.
      apply flat_map_ext_In. intros k Hin. apply (Hsame k Hin).
    + intros k. split.
      * intros Hnin. assert (Hne : j <> k) by (intros ->; apply Hnin; left; reflexivity).
        destruct (proj1 (Hk k)) as [Ev Ef]; [intros Hin; apply Hnin; right; exact Hin|].
        destruct (poll_pot_other inp u j k Hne) as [Ev1 Ef1].
        rewrite Ev, Ef. auto.
      * intros [Hjk|Hin] Hlv Hlf.
        -- subst k. destruct (proj1 (Hk j) Hj) as [Ev Ef].
           rewrite Ev, Ef. apply poll_pot_same; assumption.
        -- destruct (proj2 (Hk k) Hin) as [Ev Ef]; [lia..|].
           destruct (Hsame k Hin) as (_ & Em & Es).
           assert (Hne : j <> k) by (intros ->; contradiction).
           destruct (poll_pot_other inp u j k Hne) as [Ev1 _].
           rewrite Ev, Ef, Em, Es, Ev1. auto.
Qed.

(** The switch loop adds its events and leaves the pots. *)
Lemma AddEvents_frame t i ds : forall u,
  let u' := fold_left (fun u d => AddEvent t i d u) ds u in
  queue_ u' = queue_ u ++ map (mkEvent t i) ds
  /\ pot_value_ u' = pot_value_ u
  /\ pot_filtered_value_ u' = pot_filtered_value_ u.
Proof.
  induction ds as [|d ds IH]; intros u; cbn [fold_left map].
  - rewrite app_nil_r. auto.
  - destruct (IH (AddEvent t i d u)) as (Eq & Ev & Ef).
    rewrite Eq, Ev, Ef. cbn [AddEvent set_queue queue_ pot_value_
      pot_filtered_value_]. rewrite <- app_assoc. auto.
Qed.

Lemma poll_switches_frame inp (js : list nat) : forall u,
  let u' := fold_left (poll_switch inp) js u in
  (exists evs,
      Forall (fun e => control_type e = CONTROL_SWITCH) evs
      /\ queue_ u' = queue_ u ++ evs)
  /\ pot_value_ u' = pot_value_ u
  /\ pot_filtered_value_ u' = pot_filtered_value_ u.
Proof.
  induction js as [|j js IH]; intros u; cbn [fold_left].
  - split; [|auto]. exists []. rewrite app_nil_r. auto.
  - destruct (IH (poll_switch inp u j)) as ((evs & Hsw & Eq) & Ev & Ef).
    assert (H1 : exists ds,
               queue_ (poll_switch inp u j)
               = queue_ u ++ map (mkEvent CONTROL_SWITCH j) ds
               /\ pot_value_ (poll_switch inp u j) = pot_value_ u
               /\ pot_filtered_value_ (poll_switch inp u j)
                  = pot_filtered_value_ u).
    { unfold poll_switch. destruct (switch_poll _ _) as [ds s].
      exists ds. cbn [set_switch queue_ pot_value_ pot_filtered_value_].
      apply AddEvents_frame. }
    destruct H1 as (ds & Eq1 & Ev1 & Ef1).
    rewrite Eq, Ev, Ef, Eq1, Ev1, Ef1. split; [|auto].
    exists (map (mkEvent CONTROL_SWITCH j) ds ++ evs).
    rewrite <- app_assoc. split; [|reflexivity].
    apply Forall_app. split; [|exact Hsw].
    apply Forall_forall. intros e He. apply list_elem_of_In in He.
    apply in_map_iff in He.
    destruct He as (d & <- & _). reflexivity.
Qed.

Lemma paint_inv (P : Ui -> Prop) kNumLeds u :
  (forall i b a, P a -> P (set_led i b a)) ->
  (forall m a, P a -> P (set_mode m a)) ->
  (forall c a, P a -> P (set_animation_counter c a)) ->
  P u -> P (paint kNumLeds u).
Proof.
  intros Hled Hmode Hcount Hu. unfold paint. cbn zeta.
  pose proof (Hcount (to_int32 (animation_counter_ u + 1)) u Hu) as H0.
  destruct (mode_ _).
  - destruct (_ =? 0); [|exact H0].
    destruct (8 <? _); [apply Hmode|];
      (apply fold_left_inv; [|exact H0]); intros a b Ha; apply Hled, Ha.
  - apply Hled. apply fold_left_inv; [|exact H0].
    intros a b Ha. apply Hled, Ha.
  - apply fold_left_inv; [|exact H0].
    intros a b Ha. destruct (_ : bool); apply Hled, Ha.
Qed.

Lemma paint_frame kNumLeds u :
  queue_ (paint kNumLeds u) = queue_ u
  /\ pot_value_ (paint kNumLeds u) = pot_value_ u
  /\ pot_filtered_value_ (paint kNumLeds u) = pot_filtered_value_ u.
Proof.
  apply (paint_inv
           (fun u' => queue_ u' = queue_ u /\ pot_value_ u' = pot_value_ u
                      /\ pot_filtered_value_ u' = pot_filtered_value_ u));
    auto.
Qed.

(** C7.  In a poll, for every pot [i]: with [value] the newly smoothed
    reading and [current_value] the last reported one, the poll adds to the
    queue the events of the switches and then, pot by pot, one motion event
    for each pot that moved; pot [i] has its event, carrying [value], if and
    only if [|value - current_value| >= kPotMoveThreshold]; [pot_value_[i]]
    becomes [value] in that case and keeps [current_value] otherwise. *)
Theorem pot_motion_events (kNumSwitches kNumLeds : nat)
    (inp : PollInput) (u : Ui) (i : nat) :
  pots_ok u -> (i < 4)%nat ->
  0 <= pot_filtered_value_ u !!! i <= UINT16_MAX ->
  0 <= pot inp i <= UINT16_MAX ->
  let value := smoothed inp u i in
  let current_value := pot_value_ u !!! i in
  let moved := kPotMoveThreshold <=? Z.abs (value - current_value) in
  let u' := Poll kNumSwitches kNumLeds inp u in
  (exists switch_events,
      Forall (fun e => control_type e = CONTROL_SWITCH) switch_events
      /\ queue_ u'
         = queue_ u ++ switch_events ++ flat_map (pot_events inp u) (seq 0 4))
  /\ pot_events inp u i
     = (if moved then [mkEvent CONTROL_POT i value] else [])
  /\ pot_value_ u' !!! i = (if moved then value else current_value)
  /\ pot_filtered_value_ u' !!! i = value.
Proof.
  intros [Lv Lf _ _ _] Hi Hf Ha value current_value moved u'.
  unfold u', Poll.
  set (u1 := fold_left (poll_switch inp) (seq 0 kNumSwitches) u).
  set (u2 := fold_left (poll_pot inp) (seq 0 4) u1).
  destruct (poll_switches_frame inp (seq 0 kNumSwitches) u)
    as ((evs & Hsw & Eq1) & Ev1 & Ef1). fold u1 in Eq1, Ev1, Ef1.
  destruct (poll_pots_fold inp (seq 0 4) (NoDup_seq 0 4) u1)
    as (Eq2 & _ & _ & Hk). fold u2 in Eq2, Hk.
  destruct (paint_frame kNumLeds u2) as (Eq3 & Ev3 & Ef3).
  assert (Hsame : forall k,
            pot_events inp u1 k = pot_events inp u k
            /\ pot_moved inp u1 k = pot_moved inp u k
            /\ smoothed inp u1 k = smoothed inp u k).
  { intros k. unfold pot_events, pot_moved, smoothed. rewrite Ev1, Ef1. auto. }
  destruct (proj2 (Hk i)) as [Ev2 Ef2];
    [apply in_seq; lia | rewrite Ev1; lia | rewrite Ef1; lia |].
  destruct (Hsame i) as (_ & Em & Es).
  pose proof (smoothed_range inp u i Hf Ha) as Hrange.
  split; [|split; [|split]].
  - exists evs. split; [exact Hsw|].
    rewrite Eq3, Eq2, Eq1, <- app_assoc. f_equal. f_equal.
    apply flat_map_ext. intros k. apply (Hsame k).
  - unfold pot_events. rewrite pot_moved_abs. reflexivity.
  - rewrite Ev3, Ev2, Em, Es, Ev1, pot_moved_abs.
    fold value current_value moved. destruct moved; [|reflexivity].
    apply u16_small. exact Hrange.
  - rewrite Ef3, Ef2, Es. apply u16_small. exact Hrange.
Qed.

(** ** The properties on concrete runs *)

(** A hold of 300 ms; a hold of 1000 ms seen past 500 ms at 600 ms; a hold
    seen past 2000 ms at 2100 ms and released by the next poll. *)
Lemma gesture_events_witness :
  fst (switch_run (gesture 1000 [1100; 1200] 1300) (mkSwitchState 0 false))
  = [0; 301]
  /\ fst (switch_run (gesture 1000 ([1400] ++ 1600 :: [1900]) 2000)
            (mkSwitchState 0 false))
     = [0; 600]
  /\ fst (switch_run (gesture 1000 ([1400] ++ 1600 :: [1900] ++ [3100]) 3200)
            (mkSwitchState 0 false))
     = [0; 600; 2100].
Proof.
  split; [|split].
  - apply (gesture_events 1000 1300 (mkSwitchState 0 false)); try lia.
    + unfold kLongPressDuration. lia.
    + repeat (constructor; [lia|]). constructor.
  - apply (gesture_events 1000 2000 (mkSwitchState 0 false)); try lia;
      unfold kLongPressDuration, kVeryLongPressDuration;
      try lia; repeat (constructor; [lia|]); constructor.
  - apply (gesture_events 1000 3200 (mkSwitchState 0 false)); try lia;
      unfold kLongPressDuration, kVeryLongPressDuration;
      try lia; repeat (constructor; [lia|]); constructor.
Defined.

(** C1 as stated fails: a switch held 1000 ms and polled every millisecond
    gives the press and the long press, and no release event after them. *)
Lemma long_hold_has_no_release_event :
  let events :=
    fst (switch_run (gesture 1000 (every_ms 1000 1000) 2000)
           (mkSwitchState 0 false)) in
  events = [0; 501]
  /\ ~ (exists d_long d_release, events = [0; d_long; d_release]).
Proof.
  vm_compute. split; [reflexivity|].
  intros (d_long & d_release & H). discriminate H.
Qed.

(** A switch still held after its very long press: the held block finds
    [press_time_] at 0 and takes the clock itself for the time held, so
    each later poll adds one more event. *)
Example held_after_very_long_press :
  fst (switch_run (gesture 1000 (every_ms 1000 2004) 3004)
         (mkSwitchState 0 false))
  = [0; 501; 2001; 3002; 3003].
Proof. vm_compute. reflexivity. Qed.

(** The input of the defect of C2 is one the panel receives: SELECT held
    from 1 ms to 502 ms after [Init]; the panel is still in SPLASH, the
    queue holds the press and the long press, and [DoEvents] takes the
    panel to ZOOM. *)
Lemma splash_left_by_select_long_press :
  let u := run_polls select_hold_polls splash_panel in
  mode_ u = UI_MODE_SPLASH
  /\ queue_ u = [mkEvent CONTROL_SWITCH 3 0; mkEvent CONTROL_SWITCH 3 501]
  /\ mode_ (sample_DoEvents u) = UI_MODE_ZOOM.
Proof. vm_compute. repeat split; reflexivity. Qed.

Lemma splash_long_press_enters_zoom_witness :
  mode_ (handle_event 3 4 (mkEvent CONTROL_SWITCH 3 501)
           (run_polls select_hold_polls splash_panel))
  = UI_MODE_ZOOM
  /\ handle_event 3 4 (mkEvent CONTROL_SWITCH 3 301)
       (run_polls select_hold_polls splash_panel)
     = run_polls select_hold_polls splash_panel.
Proof.
  destruct (splash_long_press_enters_zoom 3 4 (mkEvent CONTROL_SWITCH 3 501)
              (run_polls select_hold_polls splash_panel)
              ltac:(vm_compute; reflexivity) eq_refl eq_refl
              ltac:(vm_compute; split; [reflexivity | discriminate]))
    as (_ & Hz & Hshort & _).
  split; [exact Hz|].
  apply Hshort; [reflexivity|]. right. left. vm_compute. discriminate.
Defined.

(** The scenario of the specification: committed at 100, moved to 5000 in
    zoom, back to normal, small motions near 5000, then a report at 150. *)
Lemma catchup_protocol_witness :
  let u1 :=
    OnSwitchReleased 3 4 (mkEvent CONTROL_SWITCH 3 301) zoomed_panel in
  let u2 :=
    handle_events 3 4
      [mkEvent CONTROL_POT 0 5010; mkEvent CONTROL_POT 1 130;
       mkEvent CONTROL_POT 0 4990] u1 in
  let u3 := handle_event 3 4 (mkEvent CONTROL_POT 0 150) u2 in
  catchup_state_ u1 !! 0%nat = Some true
  /\ pot_coarse_value_ u2 !! 0%nat = Some 100
  /\ catchup_state_ u3 !! 0%nat = Some false
  /\ pot_coarse_value_ u3 !! 0%nat = Some 150.
Proof.
  assert (Hes : Forall
            (fun e => control_type e = CONTROL_POT
                      /\ (control_id e = 0%nat ->
                          ~ within_catchup (data e)
                              (pot_coarse_value_ zoomed_panel !!! 0%nat)))
            [mkEvent CONTROL_POT 0 5010; mkEvent CONTROL_POT 1 130;
             mkEvent CONTROL_POT 0 4990]).
  { repeat (constructor;
            [split; [reflexivity|];
             intros Hid; try discriminate Hid;
             vm_compute; intros H; discriminate H|]).
    constructor. }
  destruct (catchup_protocol 3 4 zoomed_panel (mkEvent CONTROL_SWITCH 3 301)
              _ 0%nat 150
              ltac:(constructor; reflexivity) ltac:(lia) eq_refl eq_refl
              ltac:(vm_compute; discriminate) ltac:(vm_compute; reflexivity)
              Hes ltac:(vm_compute; reflexivity)
              ltac:(unfold UINT16_MAX; lia))
    as ((_ & Hk1 & _) & (_ & _ & Hc2) & (_ & Hk3 & Hc3)).
  intros u1 u2 u3. repeat split; assumption.
Defined.

(** Pot 0 reported at 100, the converter now at 9000: the filter gives 378,
    past the threshold. *)
Lemma pot_motion_events_witness :
  let inp :=
    {| milliseconds := 0; just_pressed := fun _ => false;
       pressed := fun _ => false; released := fun _ => false;
       pot := fun _ => 9000 |} in
  pot_events inp splash_panel 0 = [mkEvent CONTROL_POT 0 378]
  /\ pot_value_ (sample_Poll inp splash_panel) !!! 0%nat = 378.
Proof.
  intros inp.
  destruct (pot_motion_events 4 4 inp splash_panel 0
              ltac:(constructor; reflexivity) ltac:(lia)
              ltac:(vm_compute; split; discriminate)
              ltac:(vm_compute; split; discriminate))
    as (_ & He & Hv & _).
  split; [exact He | exact Hv].
Defined.

Lemma select_short_release_in_normal_witness :
  let u := set_mode UI_MODE_NORMAL splash_panel in
  let u' := OnSwitchReleased 3 4 (mkEvent CONTROL_SWITCH 3 301) u in
  mode_ u' = UI_MODE_NORMAL
  /\ feat_mode_ u' = 1
  /\ lfo_ u' !! 2%nat = Some (slow_lfo 0).
Proof.
  intros u u'.
  destruct (select_short_release_in_normal 3 4
              (mkEvent CONTROL_SWITCH 3 301) u eq_refl eq_refl
              ltac:(vm_compute; discriminate))
    as (Hm & Hf & _ & _ & Hl & _).
  split; [exact Hm|]. split; [exact Hf|].
  exact (Hl 2%nat (slow_lfo 0) ltac:(lia) eq_refl).
Defined.

Lemma switch_events_without_effect_witness :
  OnSwitchReleased 3 4 (mkEvent CONTROL_SWITCH 0 301) splash_panel
  = splash_panel
  /\ sample_handle_event (mkEvent CONTROL_SWITCH 3 0) splash_panel
     = splash_panel.
Proof.
  destruct (switch_events_without_effect 3 4
              (mkEvent CONTROL_SWITCH 0 301) splash_panel) as (_ & Hr & _).
  destruct (switch_events_without_effect 3 4
              (mkEvent CONTROL_SWITCH 3 0) splash_panel) as (_ & _ & Hh).
  split.
  - apply Hr. cbn. lia.
  - apply Hh; [reflexivity | left; reflexivity].
Defined.

(** * Further properties

    Properties of the code beyond the claims of the specification. *)

(** ** [Lfo::Init] and [Lfo::Step]: the phase *)

(** [Step] writes the phase, the divided phase and the count only. *)
Lemma Lfo_Steps_frame n : forall l,
  phase_increment_ (Lfo_Steps n l) = phase_increment_ l
  /\ divider_ (Lfo_Steps n l) = divider_ l
  /\ initial_phase_ (Lfo_Steps n l) = initial_phase_ l
  /\ level_ (Lfo_Steps n l) = level_ l
  /\ pitch_ (Lfo_Steps n l) = pitch_ l
  /\ divided_pitch_ (Lfo_Steps n l) = divided_pitch_ l.
Proof.
  induction n as [|n IH]; intros l; cbn [Lfo_Steps].
  - repeat split.
  - destruct (IH (Lfo_Step l)) as (H1 & H2 & H3 & H4 & H5 & H6).
    rewrite H1, H2, H3, H4, H5, H6. repeat split.
Qed.

(** X1. Any number of calls of [Lfo::Step] on an oscillator with 32-bit
    phase and increment and a divider of at least 1 leaves the phase at
    (phase + n * increment) modulo 2^32, and changes none of the increment,
    the divider, the initial phase, the level and the two pitches. *)
Theorem phase_accumulates (l : Lfo) (n : nat) :
  0 <= phase_ l <= UINT32_MAX ->
  0 <= phase_increment_ l <= UINT32_MAX ->
  1 <= divider_ l ->
  let l' := Lfo_Steps n l in
  phase_ l' = (phase_ l + Z.of_nat n * phase_increment_ l) mod 4294967296
  /\ phase_increment_ l' = phase_increment_ l
  /\ divider_ l' = divider_ l
  /\ initial_phase_ l' = initial_phase_ l
  /\ level_ l' = level_ l
  /\ pitch_ l' = pitch_ l
  /\ divided_pitch_ l' = divided_pitch_ l.
Proof.
  intros HP HI _ l'. split.
  - apply (base_wraps_closed n l HP HI).
  - apply Lfo_Steps_frame.
Qed.

Lemma phase_accumulates_witness :
  phase_ (Lfo_Steps 300 (slow_lfo 0)) = (300 * 16777215) mod 4294967296.
Proof.
  apply (phase_accumulates (slow_lfo 0) 300);
    vm_compute; first [split; discriminate | discriminate].
Defined.

Lemma Lfo_Init_ok l : lfo_ok (Lfo_Init l).
Proof.
  constructor; vm_compute; repeat split; first [reflexivity | discriminate].
Qed.

(** X2. After [Lfo::Init], for any number of calls of [Lfo::Step]: the
    phase is n * (UINT32_MAX >> 8) modulo 2^32, the divided phase is the
    phase itself, the count of wraps stays 0, the divider 1 and the level
    UINT16_MAX; [Init] and [Step] leave the two pitches as they were. *)
Theorem steps_after_Init (l : Lfo) (n : nat) :
  let l' := Lfo_Steps n (Lfo_Init l) in
  phase_ l' = (Z.of_nat n * 16777215) mod 4294967296
  /\ divided_phase_ l' = phase_ l'
  /\ divider_count_ l' = 0
  /\ divider_ l' = 1
  /\ level_ l' = UINT16_MAX
  /\ pitch_ l' = pitch_ l
  /\ divided_pitch_ l' = divided_pitch_ l.
Proof.
  intros l'.
  pose proof (Lfo_Init_ok l) as Hok.
  destruct (Lfo_Steps_ok n _ Hok) as [Hok' HD]. fold l' in Hok', HD.
  destruct (wraps_count n _ Hok) as [Hc _]. fold l' in Hc.
  destruct (base_wraps_closed n _ (ok_phase _ Hok) (ok_increment _ Hok))
    as [_ Hp]. fold l' in Hp.
  destruct (Lfo_Steps_frame n (Lfo_Init l)) as (_ & _ & _ & Hl & Hpi & Hdp).
  fold l' in Hl, Hpi, Hdp.
  cbn [Lfo_Init divider_ divider_count_ phase_ phase_increment_ level_
       pitch_ divided_pitch_] in HD, Hc, Hp, Hl, Hpi, Hdp.
  assert (Hc0 : divider_count_ l' = 0) by (rewrite Hc; apply Z.mod_1_r).
  split; [exact Hp|]. split.
  { rewrite (ok_divided _ Hok'). unfold divided_formula.
    rewrite HD, Hc0, Z.div_1_r. lia. }
  split; [exact Hc0|]. split; [exact HD|]. auto.
Qed.

Lemma steps_after_Init_witness :
  divided_phase_ (Lfo_Steps 300 (Lfo_Init (slow_lfo 7)))
  = phase_ (Lfo_Steps 300 (Lfo_Init (slow_lfo 7)))
  /\ divider_count_ (Lfo_Steps 300 (Lfo_Init (slow_lfo 7))) = 0.
Proof.
  destruct (steps_after_Init (slow_lfo 7) 300) as (_ & Hd & Hc & _).
  split; [exact Hd | exact Hc].
Defined.

(** ** [Lfo::ComputePhaseIncrement]: the pitch curve *)

Lemma land_15 p : Z.land p 15 = p mod 16.
Proof. change 15 with (Z.ones 4). rewrite Z.land_ones by lia. reflexivity. Qed.

Lemma shifted_plain x n :
  0 <= x -> (0 <= n -> x * 2 ^ n <= UINT32_MAX) ->
  shifted x n = if 0 <=? n then x * 2 ^ n else x / 2 ^ (- n).
Proof.
  intros Hx Hn. unfold shifted.
  destruct (Z.leb_spec 0 n) as [H|H].
  - rewrite Z.shiftl_mul_pow2 by lia. apply u32_small.
    split; [|auto]. apply Z.mul_nonneg_nonneg; [lia|].
    apply Z.pow_nonneg. lia.
  - apply Z.shiftr_div_pow2. lia.
Qed.

(** In the count of octaves, for a fixed increment of the table. *)
Lemma shifted_mono_shift x n n' :
  0 <= x -> n <= n' -> (0 <= n' -> x * 2 ^ n' <= UINT32_MAX) ->
  shifted x n <= shifted x n'.
Proof.
  intros Hx Hnn Hov.
  assert (Hov' : 0 <= n -> x * 2 ^ n <= UINT32_MAX).
  { intros Hn. etransitivity; [|apply Hov; lia].
    apply Z.mul_le_mono_nonneg_l; [lia|].
    apply Z.pow_le_mono_r; lia. }
  rewrite !shifted_plain by assumption.
  destruct (Z.leb_spec 0 n) as [H|H], (Z.leb_spec 0 n') as [H'|H']; try lia.
  - apply Z.mul_le_mono_nonneg_l; [lia|]. apply Z.pow_le_mono_r; lia.
  - transitivity x.
    + apply Z.div_le_upper_bound; [apply Z.pow_pos_nonneg; lia|].
      assert (0 < 2 ^ (- n)) by (apply Z.pow_pos_nonneg; lia). nia.
    + assert (0 < 2 ^ n') by (apply Z.pow_pos_nonneg; lia). nia.
  - apply Z.div_le_compat_l; [lia|]. split.
    + apply Z.pow_pos_nonneg; lia.
    + apply Z.pow_le_mono_r; lia.
Qed.

(** In the increment of the table, for a fixed count of octaves. *)
Lemma shifted_mono_increment x y n :
  0 <= x <= y -> (0 <= n -> y * 2 ^ n <= UINT32_MAX) ->
  shifted x n <= shifted y n.
Proof.
  intros Hxy Hov.
  assert (Hov' : 0 <= n -> x * 2 ^ n <= UINT32_MAX).
  { intros Hn. etransitivity; [|apply Hov; lia].
    apply Z.mul_le_mono_nonneg_r; [apply Z.pow_nonneg|]; lia. }
  rewrite !shifted_plain by (assumption || lia).
  destruct (Z.leb_spec 0 n) as [H|H].
  - apply Z.mul_le_mono_nonneg_r; [apply Z.pow_nonneg|]; lia.
  - apply Z.div_le_mono; [apply Z.pow_pos_nonneg|]; lia.
Qed.

(** Twice the increment is one octave more. *)
Lemma shifted_double x n :
  0 <= x -> (0 <= n + 1 -> x * 2 ^ (n + 1) <= UINT32_MAX) ->
  shifted (2 * x) n = shifted x (n + 1).
Proof.
  intros Hx Hov.
  rewrite (shifted_plain x (n + 1)) by assumption.
  rewrite shifted_plain; [|lia|].
  - destruct (Z.leb_spec 0 n) as [H|H], (Z.leb_spec 0 (n + 1)) as [H'|H'];
      try lia.
    + rewrite Z.pow_add_r by lia. rewrite Z.pow_1_r. ring.
    + assert (n = -1) by lia. subst n.
      change (2 ^ (- -1)) with 2. change (2 ^ (-1 + 1)) with 1.
      rewrite Z.mul_1_r, Z.mul_comm. apply Z.div_mul. lia.
    + replace (- n) with (1 + - (n + 1)) by lia.
      rewrite Z.pow_add_r by lia. rewrite Z.pow_1_r.
      rewrite Z.div_mul_cancel_l; [reflexivity| |lia].
      apply Z.pow_nonzero; lia.
  - intros Hn. rewrite Z.pow_add_r in Hov by lia. rewrite Z.pow_1_r in Hov.
    specialize (Hov ltac:(lia)). lia.
Qed.

Lemma interpolate_between a b f :
  0 <= a <= b -> b <= UINT32_MAX -> (b - a) * 15 <= UINT32_MAX ->
  0 <= f < 16 ->
  u32 (u32 a + Z.shiftr (u32 (u32 (u32 b - u32 a) * f)) 4)
  = a + (b - a) * f / 16
  /\ a <= a + (b - a) * f / 16 <= b.
Proof.
  intros Hab Hb Hd Hf.
  rewrite (u32_small a), (u32_small b) by lia.
  rewrite (u32_small (b - a)) by lia.
  assert (Hprod : 0 <= (b - a) * f <= (b - a) * 15).
  { split; [apply Z.mul_nonneg_nonneg | apply Z.mul_le_mono_nonneg_l]; lia. }
  rewrite (u32_small (_ * _)) by lia.
  rewrite Z.shiftr_div_pow2 by lia. change (2 ^ 4) with 16.
  assert (Hq : 0 <= (b - a) * f / 16 <= b - a).
  { split; [apply Z.div_pos; lia|].
    apply Z.div_le_upper_bound; lia. }
  rewrite u32_small by lia. split; [reflexivity | lia].
Qed.

Section PitchCurve.

Variable kOctave : Z.
Variable lut_increments : Z -> Z.
Hypothesis kOctave_range : 0 < kOctave <= INT16_MAX.

Local Abbreviation lookup := (lookup_increment lut_increments).
Local Abbreviation CPI := (ComputePhaseIncrement kOctave lut_increments).

(** X3. For every int16 pitch [ComputePhaseIncrement] returns: it stores
    the pitch, changes no other field, and the two loops leave the pitch
    modulo kOctave, in [0, kOctave), and the count pitch / kOctave rounded
    down; the result is the increment read at the first shifted by the
    second (left for a count of 0 or more, right below). *)
Theorem ComputePhaseIncrement_closed_form (fuel : nat) (l : Lfo) (pitch : Z) :
  INT16_MIN <= pitch <= INT16_MAX ->
  (Z.to_nat 32768 <= fuel)%nat ->
  CPI fuel l pitch
  = Some ({| phase_ := phase_ l;
             divided_phase_ := divided_phase_ l;
             initial_phase_ := initial_phase_ l;
             phase_increment_ := phase_increment_ l;
             divider_ := divider_ l;
             divider_count_ := divider_count_ l;
             level_ := level_ l;
             pitch_ := pitch;
             divided_pitch_ := divided_pitch_ l |},
          shifted (lookup (pitch mod kOctave)) (pitch / kOctave))
  /\ 0 <= pitch mod kOctave < kOctave.
Proof.
  intros Hp Hf. unfold ComputePhaseIncrement, INT16_MIN, INT16_MAX in *.
  assert (Hm : 0 <= pitch mod kOctave < kOctave)
    by (apply Z.mod_pos_bound; lia).
  split; [|exact Hm].
  destruct (Z.lt_ge_cases pitch 0) as [Hneg|Hpos].
  - assert (Hq : -32768 <= pitch / kOctave).
    { apply Z.div_le_lower_bound; nia. }
    rewrite (octaves_up_spec kOctave kOctave_range fuel pitch 0)
      by (unfold INT16_MIN, INT16_MAX; lia).
    rewrite octaves_down_done by lia. reflexivity.
  - rewrite octaves_up_done by assumption.
    assert (Hq : 0 <= pitch / kOctave <= pitch).
    { split; [apply Z.div_pos; lia|].
      apply Z.div_le_upper_bound; nia. }
    rewrite (octaves_down_spec kOctave kOctave_range fuel pitch 0)
      by (unfold INT16_MIN, INT16_MAX; lia).
    reflexivity.
Qed.

Lemma lookup_increment_segment (pitch : Z) :
  let a := lut_increments (Z.shiftr pitch 4) in
  let b := lut_increments (Z.shiftr pitch 4 + 1) in
  0 <= a <= b -> b <= UINT32_MAX -> (b - a) * 15 <= UINT32_MAX ->
  lookup pitch = a + (b - a) * (pitch mod 16) / 16
  /\ a <= lookup pitch <= b
  /\ (pitch mod 16 = 0 -> lookup pitch = a).
Proof.
  intros a b Hab Hb Hd. unfold lookup_increment. fold a b. clearbody a b.
  rewrite land_15.
  pose proof (Z.mod_pos_bound pitch 16 ltac:(lia)) as Hf.
  destruct (interpolate_between a b (pitch mod 16) Hab Hb Hd Hf) as [E Hr].
  rewrite E. split; [reflexivity|]. split; [exact Hr|].
  intros H0. rewrite H0, Z.mul_0_r, Z.div_0_l by lia. lia.
Qed.

(** X4. The increment read from the table at [pitch] interpolates the
    entries [a] at [pitch >> 4] and [b] one further: when 0 <= a <= b fit
    32 bits and 15 * (b - a) does too, it is a + (b - a) * (pitch mod 16) /
    16 rounded down, lies between [a] and [b], and is [a] itself when the
    low four bits of the pitch are 0. *)
Theorem lookup_increment_between (pitch : Z) :
  let a := lut_increments (Z.shiftr pitch 4) in
  let b := lut_increments (Z.shiftr pitch 4 + 1) in
  0 <= a <= b -> b <= UINT32_MAX -> (b - a) * 15 <= UINT32_MAX ->
  lookup pitch = a + (b - a) * (pitch mod 16) / 16
  /\ a <= lookup pitch <= b
  /\ (pitch mod 16 = 0 -> lookup pitch = a).
Proof.
  intros a b Hab Hb Hd.
  destruct (lookup_increment_segment pitch Hab Hb Hd) as (E & B & E0).
  split; [exact E|]. split; [exact B | exact E0].
Qed.

Section Table.

Variable m : Z.
Hypothesis table : table_ok kOctave lut_increments m.

Lemma table_chain (k : nat) : forall i,
  0 <= i -> i + Z.of_nat k <= m ->
  lut_increments i <= lut_increments (i + Z.of_nat k).
Proof.
  destruct table as (_ & Hseg & _).
  induction k as [|k IH]; intros i Hi Hk.
  - rewrite Z.add_0_r. lia.
  - transitivity (lut_increments (i + 1)).
    + apply (Hseg i). lia.
    + replace (i + Z.of_nat (S k)) with (i + 1 + Z.of_nat k) by lia.
      apply IH; lia.
Qed.

Lemma table_mono i j :
  0 <= i <= j -> j <= m -> lut_increments i <= lut_increments j.
Proof.
  intros Hij Hj. replace j with (i + Z.of_nat (Z.to_nat (j - i))) by lia.
  apply table_chain; lia.
Qed.

Lemma table_nonneg : 0 <= lut_increments 0.
Proof.
  destruct table as (HK & Hseg & _).
  apply (Hseg 0). unfold INT16_MAX in *. lia.
Qed.

Lemma table_top : lut_increments m <= UINT32_MAX.
Proof.
  destruct table as (HK & Hseg & _).
  replace m with (m - 1 + 1) by lia. apply (Hseg (m - 1)). lia.
Qed.

(** Inside the octave the interpolated increment does not decrease. *)
Lemma lookup_mono x y :
  0 <= x <= y -> y < kOctave ->
  lookup x <= lookup y
  /\ lut_increments 0 <= lookup x /\ lookup y <= lut_increments m.
Proof.
  intros Hxy Hy. pose proof table as (HK & Hseg & _).
  assert (Hsx : 0 <= x / 16 < m).
  { split; [apply Z.div_pos; lia|]. apply Z.div_lt_upper_bound; lia. }
  assert (Hsy : 0 <= y / 16 < m).
  { split; [apply Z.div_pos; lia|]. apply Z.div_lt_upper_bound; lia. }
  assert (Hle : x / 16 <= y / 16) by (apply Z.div_le_mono; lia).
  destruct (Hseg _ Hsx) as (Hx1 & Hx2 & Hx3).
  destruct (Hseg _ Hsy) as (Hy1 & Hy2 & Hy3).
  destruct (lookup_increment_segment x) as (Ex & Bx & _);
    rewrite ?Z.shiftr_div_pow2 by lia; change (2 ^ 4) with 16;
    try assumption.
  destruct (lookup_increment_segment y) as (Ey & By & _);
    rewrite ?Z.shiftr_div_pow2 by lia; change (2 ^ 4) with 16;
    try assumption.
  rewrite !Z.shiftr_div_pow2 in Ex, Bx, Ey, By by lia.
  change (2 ^ 4) with 16 in Ex, Bx, Ey, By.
  pose proof (table_mono 0 (x / 16) ltac:(lia) ltac:(lia)) as H0x.
  pose proof (table_mono (y / 16 + 1) m ltac:(lia) ltac:(lia)) as Hym.
  split; [|lia].
  destruct (Z.eq_dec (x / 16) (y / 16)) as [E|E].
  - rewrite Ex, Ey, E.
    assert (Hf : x mod 16 <= y mod 16).
    { pose proof (Z.div_mod x 16 ltac:(lia)).
      pose proof (Z.div_mod y 16 ltac:(lia)). lia. }
    rewrite E in Hx1.
    assert ((lut_increments (y / 16 + 1) - lut_increments (y / 16))
              * (x mod 16) / 16
            <= (lut_increments (y / 16 + 1) - lut_increments (y / 16))
               * (y mod 16) / 16).
    { apply Z.div_le_mono; [lia|].
      apply Z.mul_le_mono_nonneg_l; lia. }
    lia.
  - pose proof (table_mono (x / 16 + 1) (y / 16) ltac:(lia) ltac:(lia)).
    lia.
Qed.

(** X5. Over a table that does not decrease, whose steps do not overflow
    the interpolation and whose last entry is at most twice the first, a
    higher pitch never gives a smaller phase increment, as long as the left
    shift of the higher pitch does not overflow 32 bits. *)
Theorem ComputePhaseIncrement_monotone (fuel : nat) (l : Lfo) (p q : Z) :
  INT16_MIN <= p <= q -> q <= INT16_MAX ->
  (0 <= q / kOctave ->
   lut_increments m * 2 ^ (q / kOctave) <= UINT32_MAX) ->
  (Z.to_nat 32768 <= fuel)%nat ->
  exists l1 r1 l2 r2,
    CPI fuel l p = Some (l1, r1)
    /\ CPI fuel l q = Some (l2, r2)
    /\ r1 <= r2.
Proof.
  intros Hpq Hq Hov Hf.
  destruct (ComputePhaseIncrement_spec kOctave lut_increments kOctave_range
              fuel l p) as (l1 & E1 & _); [lia | assumption |].
  destruct (ComputePhaseIncrement_spec kOctave lut_increments kOctave_range
              fuel l q) as (l2 & E2 & _);
    [unfold INT16_MIN in *; lia | assumption |].
  eexists _, _, _, _. split; [exact E1|]. split; [exact E2|].
  pose proof (Z.mod_pos_bound p kOctave ltac:(lia)) as Hmp.
  pose proof (Z.mod_pos_bound q kOctave ltac:(lia)) as Hmq.
  assert (Hn : p / kOctave <= q / kOctave) by (apply Z.div_le_mono; lia).
  pose proof table_nonneg as H0. pose proof table_top as Htop.
  pose proof table as (_ & _ & Hdouble).
  destruct (lookup_mono (p mod kOctave) (p mod kOctave) ltac:(lia) ltac:(lia))
    as (_ & Hp0 & Hpm).
  destruct (lookup_mono (q mod kOctave) (q mod kOctave) ltac:(lia) ltac:(lia))
    as (_ & Hq0 & Hqm).
  assert (Hovx : forall x n, 0 <= x <= lut_increments m ->
             n <= q / kOctave -> 0 <= n -> x * 2 ^ n <= UINT32_MAX).
  { intros x n Hx Hnq Hn0. etransitivity; [|apply Hov; lia].
    transitivity (lut_increments m * 2 ^ n).
    - apply Z.mul_le_mono_nonneg_r; [apply Z.pow_nonneg|]; lia.
    - apply Z.mul_le_mono_nonneg_l; [lia|]. apply Z.pow_le_mono_r; lia. }
  destruct (Z.eq_dec (p / kOctave) (q / kOctave)) as [E|E].
  - rewrite E. apply shifted_mono_increment.
    + split; [lia|].
      apply lookup_mono; [|lia].
      pose proof (Z.div_mod p kOctave ltac:(lia)).
      pose proof (Z.div_mod q kOctave ltac:(lia)). nia.
    + apply Hovx; lia.
  - transitivity (shifted (lut_increments m) (p / kOctave)).
    { apply shifted_mono_increment; [lia|]. apply Hovx; lia. }
    transitivity (shifted (2 * lut_increments 0) (p / kOctave)).
    { apply shifted_mono_increment; [lia|]. intros Hn0.
      replace (2 * lut_increments 0 * 2 ^ (p / kOctave))
        with (lut_increments 0 * 2 ^ (p / kOctave + 1))
        by (rewrite Z.pow_add_r by lia; ring).
      apply Hovx; lia. }
    rewrite shifted_double; [|lia|intros; apply Hovx; lia].
    transitivity (shifted (lut_increments 0) (q / kOctave)).
    { apply shifted_mono_shift; [lia | lia |]. apply Hovx; lia. }
    apply shifted_mono_increment; [lia|]. apply Hovx; lia.
Qed.

End Table.

End PitchCurve.

Lemma ComputePhaseIncrement_closed_form_witness :
  snd <$> ComputePhaseIncrement 1536 (fun i => 1000 + 7 * i)
            (Z.to_nat 32768) (slow_lfo 0) (-5)
  = Some (shifted (lookup_increment (fun i => 1000 + 7 * i) (-5 mod 1536))
            (-5 / 1536)).
Proof.
  rewrite (proj1 (ComputePhaseIncrement_closed_form 1536
                    (fun i => 1000 + 7 * i)
                    ltac:(unfold INT16_MAX; lia) (Z.to_nat 32768)
                    (slow_lfo 0) (-5)
                    ltac:(unfold INT16_MIN, INT16_MAX; lia) ltac:(lia))).
  reflexivity.
Defined.

Lemma lookup_increment_between_witness :
  lookup_increment (fun i => 1000 + 7 * i) 1531 = 1669
  /\ 1665 <= lookup_increment (fun i => 1000 + 7 * i) 1531 <= 1672.
Proof.
  destruct (lookup_increment_between (fun i => 1000 + 7 * i) 1531
              ltac:(vm_compute; split; discriminate)
              ltac:(vm_compute; discriminate)
              ltac:(vm_compute; discriminate)) as (E & B & _).
  split; [exact E | exact B].
Defined.

Lemma ComputePhaseIncrement_monotone_witness :
  exists l1 r1 l2 r2,
    ComputePhaseIncrement 1536 (fun i => 1000 + 7 * i) (Z.to_nat 32768)
      (slow_lfo 0) (-5) = Some (l1, r1)
    /\ ComputePhaseIncrement 1536 (fun i => 1000 + 7 * i) (Z.to_nat 32768)
         (slow_lfo 0) 1531 = Some (l2, r2)
    /\ r1 <= r2.
Proof.
  apply (ComputePhaseIncrement_monotone 1536 (fun i => 1000 + 7 * i)
           ltac:(unfold INT16_MAX; lia) 96).
  - split; [reflexivity|]. split; [|vm_compute; discriminate].
    intros i Hi. unfold UINT32_MAX. lia.
  - unfold INT16_MIN. lia.
  - unfold INT16_MAX. lia.
  - intros _. vm_compute. discriminate.
  - lia.
Defined.

(** ** The waveforms below the first threshold *)

(** Narrowing a 32-bit value to 16 bits forgets the 32-bit wrap. *)
Lemma to_int16_u32 x : to_int16 (u32 x) = to_int16 x.
Proof.
  unfold to_int16, u32. f_equal.
  rewrite <- (Z.add_mod_idemp_l (x mod 4294967296)) by lia.
  rewrite (Z.mod_mod_divide x 4294967296 65536)
    by (exists 65536; reflexivity).
  rewrite Z.add_mod_idemp_l by lia. reflexivity.
Qed.

(** The product with the level, shifted: towards 0 from the sample. *)
Lemma scale_between x level :
  INT16_MIN <= x <= INT16_MAX -> 0 <= level <= UINT16_MAX ->
  to_int16 (Z.shiftr (x * level) 16) = x * level / 65536
  /\ (0 <= x -> 0 <= x * level / 65536 <= x)
  /\ (x <= 0 -> x <= x * level / 65536 <= 0).
Proof.
  unfold INT16_MIN, INT16_MAX, UINT16_MAX. intros Hx Hl.
  rewrite Z.shiftr_div_pow2 by lia. change (2 ^ 16) with 65536.
  assert (Hpos : 0 <= x -> 0 <= x * level / 65536 <= x).
  { intros H. split; [apply Z.div_pos; nia|].
    apply Z.div_le_upper_bound; nia. }
  assert (Hneg : x <= 0 -> x <= x * level / 65536 <= 0).
  { intros H. split.
    - apply Z.div_le_lower_bound; nia.
    - apply Z.div_le_upper_bound; nia. }
  split; [|split; assumption].
  apply to_int16_small. unfold INT16_MIN, INT16_MAX.
  destruct (Z.le_ge_cases 0 x) as [H|H]; [specialize (Hpos H) | specialize (Hneg H)]; lia.
Qed.

Lemma triangle_code phase :
  0 <= phase <= UINT32_MAX ->
  (if phase <? Z.shiftl 1 31
   then to_int16 (u32 (-32768 + Z.shiftr phase 15))
   else to_int16 (u32 (32767 - Z.shiftr phase 15)))
  = triangle_wave phase
  /\ INT16_MIN <= triangle_wave phase <= INT16_MAX.
Proof.
  unfold UINT32_MAX, INT16_MIN, INT16_MAX, triangle_wave. intros Hp.
  change (Z.shiftl 1 31) with 2147483648.
  rewrite !to_int16_u32, Z.shiftr_div_pow2 by lia.
  change (2 ^ 15) with 32768.
  assert (Hs : 0 <= phase / 32768 <= 131071).
  { split; [apply Z.div_pos; lia|].
    apply Z.lt_succ_r. apply Z.div_lt_upper_bound; lia. }
  destruct (Z.ltb_spec phase 2147483648) as [H|H].
  - assert (phase / 32768 <= 65535).
    { apply Z.lt_succ_r. apply Z.div_lt_upper_bound; lia. }
    rewrite to_int16_small by (unfold INT16_MIN, INT16_MAX; lia). lia.
  - assert (65536 <= phase / 32768) by (apply Z.div_le_lower_bound; lia).
    unfold to_int16.
    replace (32767 - phase / 32768 + 32768)
      with (131071 - phase / 32768 + (-1) * 65536) by lia.
    rewrite Z.mod_add by lia. rewrite Z.mod_small by lia. lia.
Qed.

Lemma triangle_wave_mirror phase :
  0 <= phase <= UINT32_MAX ->
  triangle_wave (UINT32_MAX - phase) = triangle_wave phase.
Proof.
  unfold UINT32_MAX, triangle_wave. intros Hp.
  assert (E : (4294967295 - phase) / 32768 = 131071 - phase / 32768).
  { pose proof (Z.div_mod phase 32768 ltac:(lia)) as Hdm.
    pose proof (Z.mod_pos_bound phase 32768 ltac:(lia)) as Hmb.
    symmetry. apply (Z.div_unique _ _ _ (32767 - phase mod 32768)); lia. }
  rewrite E.
  destruct (Z.ltb_spec phase 2147483648), (Z.ltb_spec (4294967295 - phase) 2147483648);
    lia.
Qed.

Lemma ramp_code phase :
  0 <= phase <= UINT32_MAX ->
  to_int16 (u32 (-32678 + Z.shiftr phase 16)) = ramp_wave phase
  /\ INT16_MIN <= ramp_wave phase <= INT16_MAX.
Proof.
  unfold UINT32_MAX, INT16_MIN, INT16_MAX, ramp_wave. intros Hp.
  rewrite to_int16_u32, Z.shiftr_div_pow2 by lia.
  change (2 ^ 16) with 65536.
  assert (Hs : 0 <= phase / 65536 <= 65535).
  { split; [apply Z.div_pos; lia|].
    apply Z.lt_succ_r. apply Z.div_lt_upper_bound; lia. }
  destruct (Z.ltb_spec (phase / 65536) 65446) as [H|H].
  - rewrite to_int16_small by (unfold INT16_MIN, INT16_MAX; lia). lia.
  - unfold to_int16.
    replace (-32678 + phase / 65536 + 32768)
      with (phase / 65536 - 65446 + 1 * 65536) by lia.
    rewrite Z.mod_add by lia. rewrite Z.mod_small by lia. lia.
Qed.

Section SlowWaves.

Variables kPitch1Hz kPitch10Hz kPitch100Hz : Z.
Variable Wavetable : Type.
Variables wav_tri10 wav_tri100 wav_saw10 wav_saw100 : Wavetable.
Variable Interpolate1022 : Wavetable -> Z -> Z.
Variable Crossfade1022 : Wavetable -> Wavetable -> Z -> Z -> Z.

Local Abbreviation Triangle :=
  (ComputeSampleTriangle kPitch1Hz kPitch10Hz kPitch100Hz Wavetable
     wav_tri10 wav_tri100 Interpolate1022 Crossfade1022).
Local Abbreviation Ramp :=
  (ComputeSampleRamp kPitch1Hz kPitch10Hz kPitch100Hz Wavetable
     wav_saw10 wav_saw100 Interpolate1022 Crossfade1022).
Local Abbreviation Saw :=
  (ComputeSampleSaw kPitch1Hz kPitch10Hz kPitch100Hz Wavetable
     wav_saw10 wav_saw100 Interpolate1022 Crossfade1022).

Local Abbreviation slowest_band' :=
  (slowest_band kPitch1Hz kPitch10Hz kPitch100Hz).

Lemma Triangle_slow l :
  slowest_band' l ->
  Triangle l
  = to_int16
      (Z.shiftr
         ((if u32 (initial_phase_ l + divided_phase_ l) <? Z.shiftl 1 31
           then to_int16 (u32 (-32768 + Z.shiftr (u32 (initial_phase_ l + divided_phase_ l)) 15))
           else to_int16 (u32 (32767 - Z.shiftr (u32 (initial_phase_ l + divided_phase_ l)) 15)))
          * level_ l) 16).
Proof.
  intros (H1 & H10 & H100). unfold ComputeSampleTriangle.
  destruct (Z.ltb_spec kPitch100Hz (divided_pitch_ l)); [lia|].
  destruct (Z.ltb_spec kPitch10Hz (divided_pitch_ l)); [lia|].
  destruct (Z.ltb_spec kPitch1Hz (divided_pitch_ l)); [lia|].
  reflexivity.
Qed.

Lemma Ramp_slow l :
  slowest_band' l ->
  Ramp l
  = to_int16
      (Z.shiftr
         (to_int16 (u32 (-32678 + Z.shiftr (u32 (initial_phase_ l + divided_phase_ l)) 16))
          * level_ l) 16).
Proof.
  intros (H1 & H10 & H100). unfold ComputeSampleRamp.
  destruct (Z.ltb_spec kPitch100Hz (divided_pitch_ l)); [lia|].
  destruct (Z.ltb_spec kPitch10Hz (divided_pitch_ l)); [lia|].
  destruct (Z.ltb_spec kPitch1Hz (divided_pitch_ l)); [lia|].
  reflexivity.
Qed.

Lemma u32_range x : 0 <= u32 x <= UINT32_MAX.
Proof.
  unfold u32, UINT32_MAX.
  pose proof (Z.mod_pos_bound x 4294967296 ltac:(lia)). lia.
Qed.

(** X6. At or below the three pitch thresholds and with a 16-bit level,
    [ComputeSampleTriangle] is the triangle of the phase scaled by the
    level, [triangle_wave phase * level / 65536] rounded down: the triangle
    is the same at [phase] and at [UINT32_MAX - phase], stays in the int16
    range, and the level only scales it toward 0. *)
Theorem triangle_below_1Hz (l : Lfo) :
  slowest_band' l -> 0 <= level_ l <= UINT16_MAX ->
  let phase := u32 (initial_phase_ l + divided_phase_ l) in
  Triangle l = triangle_wave phase * level_ l / 65536
  /\ triangle_wave (UINT32_MAX - phase) = triangle_wave phase
  /\ INT16_MIN <= triangle_wave phase <= INT16_MAX
  /\ (0 <= triangle_wave phase -> 0 <= Triangle l <= triangle_wave phase)
  /\ (triangle_wave phase <= 0 -> triangle_wave phase <= Triangle l <= 0).
Proof.
  intros Hslow Hl phase.
  pose proof (u32_range (initial_phase_ l + divided_phase_ l)) as Hp.
  fold phase in Hp.
  destruct (triangle_code phase Hp) as [Ec Hr].
  destruct (scale_between _ _ Hr Hl) as (Es & Hpos & Hneg).
  assert (E : Triangle l = triangle_wave phase * level_ l / 65536).
  { rewrite Triangle_slow by assumption. fold phase. rewrite Ec. exact Es. }
  split; [exact E|]. split; [apply triangle_wave_mirror; exact Hp|].
  split; [exact Hr|]. rewrite E. split; assumption.
Qed.

(** X7. At or below the three pitch thresholds and with a 16-bit level,
    [ComputeSampleRamp] is [ramp_wave phase * level / 65536] rounded down.
    With the constant -32678 of the code the ramp is (phase >> 16) - 32678
    while phase >> 16 is below 65446; from there to the end of the turn the
    16-bit conversion wraps it to (phase >> 16) - 98214 and the sample is
    at most 0.  [ComputeSampleSaw] is the negated ramp whenever the ramp is
    not INT16_MIN. *)
Theorem ramp_below_1Hz (l : Lfo) :
  slowest_band' l -> 0 <= level_ l <= UINT16_MAX ->
  let phase := u32 (initial_phase_ l + divided_phase_ l) in
  Ramp l = ramp_wave phase * level_ l / 65536
  /\ (phase / 65536 < 65446 -> ramp_wave phase = phase / 65536 - 32678)
  /\ (65446 <= phase / 65536 ->
      ramp_wave phase = phase / 65536 - 98214 /\ Ramp l <= 0)
  /\ (Ramp l <> INT16_MIN -> Saw l = - Ramp l).
Proof.
  intros Hslow Hl phase.
  pose proof (u32_range (initial_phase_ l + divided_phase_ l)) as Hp.
  fold phase in Hp.
  destruct (ramp_code phase Hp) as [Ec Hr].
  destruct (scale_between _ _ Hr Hl) as (Es & Hpos & Hneg).
  assert (E : Ramp l = ramp_wave phase * level_ l / 65536).
  { rewrite Ramp_slow by assumption. fold phase. rewrite Ec. exact Es. }
  split; [exact E|]. split; [|split].
  - intros H. unfold ramp_wave.
    destruct (Z.ltb_spec (phase / 65536) 65446); [reflexivity | lia].
  - intros H.
    assert (Ew : ramp_wave phase = phase / 65536 - 98214).
    { unfold ramp_wave.
      destruct (Z.ltb_spec (phase / 65536) 65446); [lia | reflexivity]. }
    split; [exact Ew|]. rewrite E. apply Hneg.
    assert (phase / 65536 <= 65535).
    { unfold UINT32_MAX in Hp. apply Z.lt_succ_r.
      apply Z.div_lt_upper_bound; lia. }
    lia.
  - intros Hmin. unfold ComputeSampleSaw. apply to_int16_small.
    assert (INT16_MIN <= Ramp l <= INT16_MAX).
    { rewrite E. unfold INT16_MIN, INT16_MAX in *.
      destruct (Z.le_ge_cases 0 (ramp_wave phase)) as [H|H];
        [specialize (Hpos H) | specialize (Hneg H)]; lia. }
    unfold INT16_MIN, INT16_MAX in *. lia.
Qed.

End SlowWaves.

(** A quarter of a turn after [Init], at full level. *)
Lemma triangle_below_1Hz_witness :
  let l := Lfo_Steps 64 (slow_lfo (-1)) in
  ComputeSampleTriangle 0 0 0 unit tt tt (fun _ _ => 0) (fun _ _ _ _ => 0) l
  = triangle_wave (u32 (initial_phase_ l + divided_phase_ l)) * level_ l
    / 65536.
Proof.
  intros l.
  exact (proj1 (triangle_below_1Hz 0 0 0 unit tt tt (fun _ _ => 0)
                  (fun _ _ _ _ => 0) l
                  ltac:(vm_compute; repeat split; discriminate)
                  ltac:(vm_compute; split; discriminate))).
Defined.

(** The last step of the turn: the ramp has wrapped and the saw is its
    negation. *)
Lemma ramp_below_1Hz_witness :
  let l := Lfo_Steps 256 (slow_lfo (-1)) in
  ComputeSampleRamp 0 0 0 unit tt tt (fun _ _ => 0) (fun _ _ _ _ => 0) l
  = ramp_wave (u32 (initial_phase_ l + divided_phase_ l)) * level_ l / 65536
  /\ ComputeSampleRamp 0 0 0 unit tt tt (fun _ _ => 0) (fun _ _ _ _ => 0) l
     <= 0.
Proof.
  intros l.
  destruct (ramp_below_1Hz 0 0 0 unit tt tt (fun _ _ => 0)
              (fun _ _ _ _ => 0) l
              ltac:(vm_compute; repeat split; discriminate)
              ltac:(vm_compute; split; discriminate)) as (E & _ & H & _).
  split; [exact E|]. apply H. vm_compute. discriminate.
Defined.

(** ** The switches of [Ui::Poll]: the press time 0 *)



(** X9. A switch pressed at the clock reading 0 and released within the
    long-press threshold: the press event is the only one, the release
    adds none, the press time 0 standing for no press. *)
Theorem press_at_clock_0 (hs : list Z) (tr : Z) (s : SwitchState) :
  Forall (fun t => 0 <= t <= kLongPressDuration) hs ->
  switch_run (gesture 0 hs tr) s = ([0], mkSwitchState 0 false).
Proof.
  intros Hhs. unfold gesture. cbn [switch_run].
  rewrite switch_poll_press, switch_run_app, switch_run_held_short.
  - cbn [switch_run]. rewrite switch_poll_release_consumed. reflexivity.
  - eapply Forall_impl; [exact Hhs|]. cbn. intros t Ht. lia.
Qed.


Lemma press_at_clock_0_witness :
  switch_run (gesture 0 [1; 2; 3] 4) (mkSwitchState 0 false)
  = ([0], mkSwitchState 0 false).
Proof.
  apply press_at_clock_0.
  repeat (constructor; [unfold kLongPressDuration; lia|]). constructor.
Defined.

(** ** [Ui::Poll]: what it writes, the splash and the pot filter *)

(** A property that the writes of [Poll] keep is kept by [Poll]. *)
Lemma Poll_inv (P : Ui -> Prop) kNumSwitches kNumLeds inp u :
  (forall t i d a, P a -> P (AddEvent t i d a)) ->
  (forall i s a, P a -> P (set_switch i s a)) ->
  (forall i v a, P a -> P (set_pot_filtered_value i v a)) ->
  (forall i v a, P a -> P (set_pot_value i v a)) ->
  (forall i b a, P a -> P (set_led i b a)) ->
  (forall m a, P a -> P (set_mode m a)) ->
  (forall c a, P a -> P (set_animation_counter c a)) ->
  P u -> P (Poll kNumSwitches kNumLeds inp u).
Proof.
  intros Hadd Hsw Hfil Hval Hled Hmode Hcount Hu. unfold Poll.
  apply paint_inv; try assumption.
  apply fold_left_inv.
  { intros a i Ha. rewrite poll_pot_unfold. cbn zeta.
    destruct (pot_moved inp a i); auto. }
  apply fold_left_inv; [|exact Hu].
  intros a i Ha. unfold poll_switch.
  destruct (switch_poll _ _) as [ds s]. apply Hsw.
  apply fold_left_inv; [|exact Ha]. intros a' d Ha'. apply Hadd, Ha'.
Qed.

Lemma Poll_committed_frame kNumSwitches kNumLeds inp u :
  feat_mode_ (Poll kNumSwitches kNumLeds inp u) = feat_mode_ u
  /\ pot_coarse_value_ (Poll kNumSwitches kNumLeds inp u)
     = pot_coarse_value_ u
  /\ pot_fine_value_ (Poll kNumSwitches kNumLeds inp u)
     = pot_fine_value_ u
  /\ catchup_state_ (Poll kNumSwitches kNumLeds inp u)
     = catchup_state_ u
  /\ lfo_ (Poll kNumSwitches kNumLeds inp u) = lfo_ u.
Proof.
  apply (Poll_inv
           (fun a => feat_mode_ a = feat_mode_ u
                     /\ pot_coarse_value_ a = pot_coarse_value_ u
                     /\ pot_fine_value_ a = pot_fine_value_ u
                     /\ catchup_state_ a = catchup_state_ u
                     /\ lfo_ a = lfo_ u));
    try (intros; assumption). repeat split.
Qed.

(** X10. [Ui::Poll] never writes the feature mode, the coarse and fine pot
    values, the catch-up flags or the oscillators; it changes the mode only
    out of SPLASH; and, the queue taken as an unbounded list, it only adds
    events after those already queued. *)
Theorem Poll_leaves_committed_state (kNumSwitches kNumLeds : nat)
    (inp : PollInput) (u : Ui) :
  let u' := Poll kNumSwitches kNumLeds inp u in
  feat_mode_ u' = feat_mode_ u
  /\ pot_coarse_value_ u' = pot_coarse_value_ u
  /\ pot_fine_value_ u' = pot_fine_value_ u
  /\ catchup_state_ u' = catchup_state_ u
  /\ lfo_ u' = lfo_ u
  /\ (mode_ u <> UI_MODE_SPLASH -> mode_ u' = mode_ u)
  /\ exists evs, queue_ u' = queue_ u ++ evs.
Proof.
  intros u'. unfold u'.
  destruct (Poll_committed_frame kNumSwitches kNumLeds inp u)
    as (F1 & F2 & F3 & F4 & F5).
  repeat (split; [assumption|]). split.
  - intros Hm. rewrite Poll_mode. destruct (mode_ u); [contradiction|reflexivity..].
  - apply (Poll_inv (fun a => exists evs, queue_ a = queue_ u ++ evs));
      try (intros; assumption).
    + intros t i d a [evs E]. exists (evs ++ [mkEvent t i d]).
      cbn [AddEvent set_queue queue_]. rewrite E, app_assoc. reflexivity.
    + exists []. rewrite app_nil_r. reflexivity.
Qed.

(** What one poll does to the pots and to the queue. *)
Lemma Poll_pots kNumSwitches kNumLeds inp u :
  let u' := Poll kNumSwitches kNumLeds inp u in
  (exists evs,
      Forall (fun e => control_type e = CONTROL_SWITCH) evs
      /\ queue_ u' = queue_ u ++ evs ++ flat_map (pot_events inp u) (seq 0 4))
  /\ (length (pot_value_ u') = length (pot_value_ u)
      /\ length (pot_filtered_value_ u') = length (pot_filtered_value_ u))
  /\ forall i, (i < 4)%nat ->
       (i < length (pot_value_ u))%nat ->
       (i < length (pot_filtered_value_ u))%nat ->
       pot_value_ u' !!! i
       = (if pot_moved inp u i then u16 (smoothed inp u i)
          else pot_value_ u !!! i)
       /\ pot_filtered_value_ u' !!! i = u16 (smoothed inp u i).
Proof.
  intros u'. unfold u', Poll.
  set (u1 := fold_left (poll_switch inp) (seq 0 kNumSwitches) u).
  set (u2 := fold_left (poll_pot inp) (seq 0 4) u1).
  destruct (poll_switches_frame inp (seq 0 kNumSwitches) u)
    as ((evs & Hsw & Eq1) & Ev1 & Ef1). fold u1 in Eq1, Ev1, Ef1.
  destruct (poll_pots_fold inp (seq 0 4) (NoDup_seq 0 4) u1)
    as (Eq2 & Lv2 & Lf2 & Hk). fold u2 in Eq2, Lv2, Lf2, Hk.
  destruct (paint_frame kNumLeds u2) as (Eq3 & Ev3 & Ef3).
  assert (Hsame : forall k,
            pot_events inp u1 k = pot_events inp u k
            /\ pot_moved inp u1 k = pot_moved inp u k
            /\ smoothed inp u1 k = smoothed inp u k).
  { intros k. unfold pot_events, pot_moved, smoothed. rewrite Ev1, Ef1. auto. }
  split; [|split].
  - exists evs. split; [exact Hsw|].
    rewrite Eq3, Eq2, Eq1, <- app_assoc. f_equal. f_equal.
    apply flat_map_ext. intros k. apply (Hsame k).
  - rewrite Ev3, Ef3, Lv2, Lf2, Ev1, Ef1. auto.
  - intros i Hi Hlv Hlf.
    destruct (proj2 (Hk i)) as [Ev2 Ef2];
      [apply in_seq; lia | rewrite Ev1; lia | rewrite Ef1; lia |].
    destruct (Hsame i) as (_ & Em & Es).
    rewrite Ev3, Ef3, Ev2, Ef2, Em, Es, Ev1. auto.
Qed.

Lemma Poll_counter kNumSwitches kNumLeds inp u :
  animation_counter_ (Poll kNumSwitches kNumLeds inp u)
  = to_int32 (animation_counter_ u + 1).
Proof.
  unfold Poll.
  set (u1 := fold_left (poll_pot inp) _ _).
  assert (E : animation_counter_ u1 = animation_counter_ u).
  { unfold u1. apply (fold_left_inv (fun a => animation_counter_ a = animation_counter_ u)).
    { intros a i Ha. rewrite poll_pot_unfold. cbn zeta.
      destruct (pot_moved inp a i); exact Ha. }
    apply (fold_left_inv (fun a => animation_counter_ a = animation_counter_ u));
      [|reflexivity].
    intros a i Ha. unfold poll_switch. destruct (switch_poll _ _) as [ds s].
    cbn [set_switch animation_counter_].
    apply (fold_left_inv (fun a' => animation_counter_ a' = animation_counter_ u));
      [|exact Ha].
    intros a' d Ha'. exact Ha'. }
  rewrite <- E. generalize u1. clear. intros u.
  unfold paint. cbn zeta.
  set (c := to_int32 (animation_counter_ u + 1)).
  set (u0 := set_animation_counter c u).
  assert (H0 : animation_counter_ u0 = c) by reflexivity.
  assert (Hfold : forall (f : Ui -> nat -> Ui) l a,
             (forall a i, animation_counter_ (f a i) = animation_counter_ a) ->
             animation_counter_ a = c ->
             animation_counter_ (fold_left f l a) = c).
  { intros f l a Hf Ha.
    apply (fold_left_inv (fun a' => animation_counter_ a' = c)); [|exact Ha].
    intros a' i Ha'. rewrite Hf. exact Ha'. }
  destruct (mode_ u0).
  - destruct (_ =? 0); [|exact H0].
    destruct (8 <? _); cbn [set_mode animation_counter_];
      (apply Hfold; [reflexivity | exact H0]).
  - cbn [set_led animation_counter_]. apply Hfold; [reflexivity | exact H0].
  - apply Hfold; [|exact H0]. intros a i. destruct (_ : bool); reflexivity.
Qed.

Lemma Polls_normal kNumSwitches kNumLeds inps : forall u,
  mode_ u <> UI_MODE_SPLASH ->
  mode_ (Polls kNumSwitches kNumLeds u inps) = mode_ u.
Proof.
  induction inps as [|inp inps IH]; intros u Hm.
  - reflexivity.
  - cbn [Polls].
    assert (E : mode_ (Poll kNumSwitches kNumLeds inp u) = mode_ u).
    { rewrite Poll_mode. destruct (mode_ u); [contradiction|reflexivity..]. }
    rewrite IH by (rewrite E; exact Hm). exact E.
Qed.

Lemma splash_test c :
  0 <= c < 576 ->
  (Z.rem (c + 1) 64 =? 0) && (8 <? Z.quot (c + 1) 64) = (c + 1 =? 576).
Proof.
  intros Hc. rewrite Z.rem_mod_nonneg, Z.quot_div_nonneg by lia.
  pose proof (Z.div_mod (c + 1) 64 ltac:(lia)) as Hdm.
  pose proof (Z.mod_pos_bound (c + 1) 64 ltac:(lia)) as Hmb.
  destruct (Z.eqb_spec ((c + 1) mod 64) 0) as [E0|E0],
    (Z.ltb_spec 8 ((c + 1) / 64)) as [E8|E8],
    (Z.eqb_spec (c + 1) 576) as [E|E]; cbn [andb]; try reflexivity; lia.
Qed.

Lemma Polls_splash kNumSwitches kNumLeds inps : forall u,
  mode_ u = UI_MODE_SPLASH ->
  0 <= animation_counter_ u < 576 ->
  mode_ (Polls kNumSwitches kNumLeds u inps)
  = if animation_counter_ u + Z.of_nat (length inps) <? 576
    then UI_MODE_SPLASH else UI_MODE_NORMAL.
Proof.
  induction inps as [|inp inps IH]; intros u Hm Hc.
  - cbn [length]. rewrite Z.add_0_r.
    destruct (Z.ltb_spec (animation_counter_ u) 576); [exact Hm | lia].
  - cbn [Polls length].
    pose proof (Poll_counter kNumSwitches kNumLeds inp u) as Ec.
    rewrite to_int32_small in Ec by lia.
    pose proof (Poll_mode kNumSwitches kNumLeds inp u) as Em.
    rewrite Hm in Em. cbn zeta in Em.
    rewrite to_int32_small in Em by lia.
    rewrite splash_test in Em by exact Hc.
    destruct (Z.eqb_spec (animation_counter_ u + 1) 576) as [E|E].
    + rewrite Polls_normal by (rewrite Em; discriminate). rewrite Em.
      destruct (Z.ltb_spec (animation_counter_ u + Z.of_nat (S (length inps))) 576);
        [lia | reflexivity].
    + rewrite IH by (assumption || lia). rewrite Ec.
      replace (animation_counter_ u + 1 + Z.of_nat (length inps))
        with (animation_counter_ u + Z.of_nat (S (length inps))) by lia.
      reflexivity.
Qed.

(** X11. From SPLASH with the animation counter at 0, whatever the
    switches and pots do, polls alone leave the panel in SPLASH after each
    of the first 575 and have it in NORMAL after 576 or more. *)
Theorem splash_lasts_576_polls (kNumSwitches kNumLeds : nat)
    (inps : list PollInput) (u : Ui) :
  mode_ u = UI_MODE_SPLASH -> animation_counter_ u = 0 ->
  mode_ (Polls kNumSwitches kNumLeds u inps)
  = if (length inps <? 576)%nat then UI_MODE_SPLASH else UI_MODE_NORMAL.
Proof.
  intros Hm Hc. rewrite Polls_splash by (assumption || lia). rewrite Hc.
  destruct (Z.ltb_spec (0 + Z.of_nat (length inps)) 576),
    (Nat.ltb_spec (length inps) 576); (reflexivity || lia).
Qed.

(** X12. The pot filter of [Ui::Poll], value = (31 * filtered + reading)
    >> 5: with the reading at or above the filtered value the new value
    lies between the two and stays at the filtered value exactly when the
    reading is less than 32 above it; with the reading below, the new value
    is strictly below the filtered value and not below the reading. *)
Theorem smoothed_toward_reading (inp : PollInput) (u : Ui) (i : nat) :
  let f := pot_filtered_value_ u !!! i in
  let a := pot inp i in
  let value := smoothed inp u i in
  (f <= a -> f <= value <= a /\ (value = f <-> a - f < 32))
  /\ (a < f -> a <= value < f).
Proof.
  intros f a value. unfold value, smoothed. fold f a. clearbody f a.
  rewrite Z.shiftr_div_pow2 by lia. change (2 ^ 5) with 32.
  pose proof (Z.div_mod (31 * f + a) 32 ltac:(lia)) as Hdm.
  pose proof (Z.mod_pos_bound (31 * f + a) 32 ltac:(lia)) as Hmb.
  split; intros H; lia.
Qed.

Lemma Poll_leaves_committed_state_witness :
  let inp :=
    {| milliseconds := 0; just_pressed := fun _ => false;
       pressed := fun _ => false; released := fun _ => false;
       pot := fun _ => 9000 |} in
  pot_coarse_value_ (Poll 4 4 inp zoomed_panel)
  = pot_coarse_value_ zoomed_panel
  /\ mode_ (Poll 4 4 inp zoomed_panel) = UI_MODE_ZOOM.
Proof.
  intros inp.
  destruct (Poll_leaves_committed_state 4 4 inp zoomed_panel)
    as (_ & Hc & _ & _ & _ & Hm & _).
  split; [exact Hc|]. apply Hm. vm_compute. discriminate.
Defined.

Lemma splash_lasts_576_polls_witness :
  let inp :=
    {| milliseconds := 0; just_pressed := fun _ => false;
       pressed := fun _ => false; released := fun _ => false;
       pot := fun _ => 100 |} in
  mode_ (Polls 4 4 splash_panel (replicate 575 inp)) = UI_MODE_SPLASH
  /\ mode_ (Polls 4 4 splash_panel (replicate 576 inp)) = UI_MODE_NORMAL.
Proof.
  intros inp. split.
  - exact (splash_lasts_576_polls 4 4 (replicate 575 inp) splash_panel
             eq_refl eq_refl).
  - exact (splash_lasts_576_polls 4 4 (replicate 576 inp) splash_panel
             eq_refl eq_refl).
Defined.

(** Filtered at 100: a reading of 131 leaves it there, a reading of 99
    brings it below. *)
Lemma smoothed_toward_reading_witness :
  let up :=
    {| milliseconds := 0; just_pressed := fun _ => false;
       pressed := fun _ => false; released := fun _ => false;
       pot := fun _ => 131 |} in
  let down :=
    {| milliseconds := 0; just_pressed := fun _ => false;
       pressed := fun _ => false; released := fun _ => false;
       pot := fun _ => 99 |} in
  smoothed up splash_panel 0 = 100
  /\ 99 <= smoothed down splash_panel 0 < 100.
Proof.
  intros up down. split.
  - apply (proj2 (proj1 (smoothed_toward_reading up splash_panel 0)
                    ltac:(vm_compute; discriminate))).
    vm_compute. reflexivity.
  - exact (proj2 (smoothed_toward_reading down splash_panel 0)
             ltac:(vm_compute; reflexivity)).
Defined.

(** ** [Ui::Poll]: the leds *)

(** The two loops of [Poll] leave what the painting reads. *)
Lemma poll_loops_frame kNumSwitches inp u :
  let u2 :=
    fold_left (poll_pot inp) (seq 0 4)
      (fold_left (poll_switch inp) (seq 0 kNumSwitches) u) in
  mode_ u2 = mode_ u /\ feat_mode_ u2 = feat_mode_ u
  /\ catchup_state_ u2 = catchup_state_ u /\ leds_ u2 = leds_ u
  /\ animation_counter_ u2 = animation_counter_ u.
Proof.
  set (P := fun a : Ui =>
              mode_ a = mode_ u /\ feat_mode_ a = feat_mode_ u
              /\ catchup_state_ a = catchup_state_ u /\ leds_ a = leds_ u
              /\ animation_counter_ a = animation_counter_ u).
  change (P (fold_left (poll_pot inp) (seq 0 4)
               (fold_left (poll_switch inp) (seq 0 kNumSwitches) u))).
  apply fold_left_inv.
  { intros a i Ha. rewrite poll_pot_unfold. cbn zeta.
    destruct (pot_moved inp a i); exact Ha. }
  apply fold_left_inv; [|unfold P; auto].
  intros a i Ha. unfold poll_switch. destruct (switch_poll _ _) as [ds s].
  change (P (fold_left (fun u0 d => AddEvent CONTROL_SWITCH i d u0) ds a)).
  apply fold_left_inv; [|exact Ha]. intros a' d Ha'. exact Ha'.
Qed.

(** Leds written one by one, each with a value that depends on its index
    only. *)
Lemma leds_fold (g : nat -> bool) (step : Ui -> nat -> Ui) (I : Ui -> Prop)
    (js : list nat) :
  (forall a i, I a -> step a i = set_led i (g i) a) ->
  (forall a i b, I a -> I (set_led i b a)) ->
  forall u, I u ->
  let u' := fold_left step js u in
  I u'
  /\ length (leds_ u') = length (leds_ u)
  /\ forall i,
      (In i js -> (i < length (leds_ u))%nat -> leds_ u' !!! i = g i)
      /\ (~ In i js -> leds_ u' !!! i = leds_ u !!! i).
Proof.
  intros Hstep HI. induction js as [|j js IH]; intros u Hu; cbn [fold_left].
  - split; [exact Hu|]. split; [reflexivity|]. intros i. split; [intros []|auto].
  - rewrite (Hstep u j Hu).
    destruct (IH (set_led j (g j) u) (HI u j (g j) Hu)) as (HI' & Hl & Hi).
    cbn [set_led leds_] in Hl, Hi. rewrite length_insert in Hl, Hi.
    split; [exact HI'|]. split; [exact Hl|].
    intros i. destruct (Hi i) as [Hin Hout]. split.
    + intros Hij Hlen. destruct (in_dec Nat.eq_dec i js) as [H|H].
      * apply Hin; assumption.
      * destruct Hij as [->|Hij]; [|contradiction].
        rewrite (Hout H). apply list_lookup_total_insert_eq. exact Hlen.
    + intros Hnin. rewrite Hout by (intros H; apply Hnin; right; exact H).
      apply list_lookup_total_insert_ne. intros ->. apply Hnin. left. reflexivity.
Qed.

(** X13. The leds after one [Ui::Poll], with [c] the animation counter
    after its increment, for [kNumLeds] leds, a feature mode among them
    and a catch-up flag for each.  In SPLASH the leds change only when [c]
    is a multiple of 64, and then led (c / 64) modulo 4 alone is lit; in
    ZOOM only the led of the feature mode can be lit, and it is while bit
    7 of [c] is set; in NORMAL a pot out of catch-up shows the feature
    mode on its led, and a pot in catch-up flashes its led, lit while bits
    4, 5 and 6 of [c] are set, the led of the feature mode the other way
    round. *)
Theorem Poll_leds (kNumSwitches kNumLeds : nat) (inp : PollInput) (u : Ui)
    (i : nat) :
  length (leds_ u) = kNumLeds -> (i < kNumLeds)%nat ->
  0 <= feat_mode_ u < Z.of_nat kNumLeds ->
  (kNumLeds <= length (catchup_state_ u))%nat ->
  let c := to_int32 (animation_counter_ u + 1) in
  let flash :=
    negb (Z.land c 64 =? 0) && negb (Z.land c 32 =? 0)
    && negb (Z.land c 16 =? 0) in
  leds_ (Poll kNumSwitches kNumLeds inp u) !!! i
  = match mode_ u with
    | UI_MODE_SPLASH =>
        if Z.rem c 64 =? 0
        then Z.rem (Z.quot c 64) 4 =? Z.of_nat i
        else leds_ u !!! i
    | UI_MODE_ZOOM =>
        (Z.of_nat i =? feat_mode_ u) && negb (Z.land c 128 =? 0)
    | UI_MODE_NORMAL =>
        if (catchup_state_ u !!! i : bool)
        then (if Z.of_nat i =? feat_mode_ u then negb flash else flash)
        else Z.of_nat i =? feat_mode_ u
    end.
Proof.
  intros Hlen Hi [Hfeat _] _ c flash. unfold Poll.
  destruct (poll_loops_frame kNumSwitches inp u) as (Em & Ef & Ek & El & Ec).
  revert Em Ef Ek El Ec.
  generalize (fold_left (poll_pot inp) (seq 0 4)
                (fold_left (poll_switch inp) (seq 0 kNumSwitches) u)).
  intros v Em Ef Ek El Ec.
  unfold paint. cbn zeta. rewrite Ec. fold c. fold flash.
  set (v0 := set_animation_counter c v).
  assert (Hv0 : mode_ v0 = mode_ u /\ feat_mode_ v0 = feat_mode_ u
                /\ catchup_state_ v0 = catchup_state_ u
                /\ leds_ v0 = leds_ u) by (unfold v0; cbn; auto).
  destruct Hv0 as (Em0 & Ef0 & Ek0 & El0).
  assert (Hin : In i (seq 0 kNumLeds)) by (apply in_seq; lia).
  rewrite Em0. destruct (mode_ u).
  - destruct (Z.rem c 64 =? 0); [|rewrite El0; reflexivity].
    destruct (leds_fold (fun i => Z.rem (Z.quot c 64) 4 =? Z.of_nat i)
                (fun u i => set_led i (Z.rem (Z.quot c 64) 4 =? Z.of_nat i) u)
                (fun _ => True) (seq 0 kNumLeds)
                ltac:(reflexivity) ltac:(auto) v0 I) as (_ & _ & H).
    destruct (8 <? Z.quot c 64); cbn [set_mode leds_];
      apply (H i); [exact Hin | rewrite El0; lia | exact Hin | rewrite El0; lia].
  - destruct (leds_fold (fun _ => false)
                (fun u i => set_led i false u)
                (fun a => feat_mode_ a = feat_mode_ u) (seq 0 kNumLeds)
                ltac:(reflexivity) ltac:(auto) v0 Ef0) as (Hf & Hl & H).
    cbn zeta in Hf. rewrite Hf. cbn [set_led leds_].
    destruct (Z.eqb_spec (Z.of_nat i) (feat_mode_ u)) as [E|E]; cbn [andb].
    + replace (Z.to_nat (feat_mode_ u)) with i by lia.
      apply list_lookup_total_insert_eq. rewrite Hl, El0. lia.
    + rewrite list_lookup_total_insert_ne by lia.
      apply (H i); [exact Hin | rewrite El0; lia].
  - destruct (leds_fold
                (fun i => if (catchup_state_ u !!! i : bool)
                          then (if Z.of_nat i =? feat_mode_ u
                                then negb flash else flash)
                          else Z.of_nat i =? feat_mode_ u)
                (fun (u0 : Ui) (i : nat) =>
                   if (catchup_state_ u0 !!! i : bool)
                   then set_led i (if Z.of_nat i =? feat_mode_ u0
                                   then negb flash else flash) u0
                   else set_led i (Z.of_nat i =? feat_mode_ u0) u0)
                (fun a => feat_mode_ a = feat_mode_ u
                          /\ catchup_state_ a = catchup_state_ u)
                (seq 0 kNumLeds)) with (u := v0) as (_ & _ & H).
    + intros a j [Ha1 Ha2]. rewrite Ha1, Ha2.
      destruct (catchup_state_ u !!! j); reflexivity.
    + intros a j b Ha. exact Ha.
    + split; assumption.
    + apply (H i); [exact Hin | rewrite El0; lia].
Qed.

(** Back from zoom with pot 0 in catch-up, on the poll that takes the
    counter to 112: the led of the feature mode is off, the others are as
    the flags say. *)
Lemma Poll_leds_witness :
  let inp :=
    {| milliseconds := 0; just_pressed := fun _ => false;
       pressed := fun _ => false; released := fun _ => false;
       pot := fun _ => 5000 |} in
  let u :=
    set_animation_counter 111
      (OnSwitchReleased 3 4 (mkEvent CONTROL_SWITCH 3 301) zoomed_panel) in
  leds_ (Poll 4 4 inp u) !!! 0%nat = false
  /\ leds_ (Poll 4 4 inp u) !!! 1%nat = false.
Proof.
  intros inp u. split.
  - exact (Poll_leds 4 4 inp u 0 eq_refl ltac:(lia)
             ltac:(vm_compute; split; [discriminate | reflexivity])
             ltac:(vm_compute; lia)).
  - exact (Poll_leds 4 4 inp u 1 eq_refl ltac:(lia)
             ltac:(vm_compute; split; [discriminate | reflexivity])
             ltac:(vm_compute; lia)).
Defined.

(** ** [Ui::Poll] and [Ui::Init]: the events and the pots *)

(** The events of the switch loop: switch events of the switches polled. *)
Lemma poll_switches_events inp (js : list nat) : forall u,
  exists evs,
    queue_ (fold_left (poll_switch inp) js u) = queue_ u ++ evs
    /\ Forall (fun e => control_type e = CONTROL_SWITCH
                        /\ In (control_id e) js) evs.
Proof.
  induction js as [|j js IH]; intros u; cbn [fold_left].
  - exists []. rewrite app_nil_r. split; [reflexivity | constructor].
  - destruct (IH (poll_switch inp u j)) as (evs & Eq & Hsw).
    assert (H1 : exists ds,
               queue_ (poll_switch inp u j)
               = queue_ u ++ map (mkEvent CONTROL_SWITCH j) ds).
    { unfold poll_switch. destruct (switch_poll _ _) as [ds s].
      exists ds. cbn [set_switch queue_]. apply AddEvents_frame. }
    destruct H1 as (ds & Eq1).
    exists (map (mkEvent CONTROL_SWITCH j) ds ++ evs).
    rewrite Eq, Eq1, <- app_assoc. split; [reflexivity|].
    apply Forall_app. split.
    + apply Forall_forall. intros e He. apply list_elem_of_In in He.
      apply in_map_iff in He. destruct He as (d & <- & _).
      split; [reflexivity | left; reflexivity].
    + eapply Forall_impl; [exact Hsw|]. cbn. intros e [Ht Hin].
      split; [exact Ht | right; exact Hin].
Qed.

(** X14. The events one [Ui::Poll] adds, for filtered values and readings
    in the uint16 range: each is a switch event of one of the
    [kNumSwitches] switches or a pot event of one of the four pots, and a
    pot event carries the newly filtered value of its pot, itself in the
    uint16 range. *)
Theorem Poll_events_in_range (kNumSwitches kNumLeds : nat)
    (inp : PollInput) (u : Ui) :
  (forall i, (i < 4)%nat ->
     0 <= pot_filtered_value_ u !!! i <= UINT16_MAX
     /\ 0 <= pot inp i <= UINT16_MAX) ->
  exists evs,
    queue_ (Poll kNumSwitches kNumLeds inp u) = queue_ u ++ evs
    /\ Forall
         (fun e =>
            match control_type e with
            | CONTROL_SWITCH => (control_id e < kNumSwitches)%nat
            | CONTROL_POT =>
                (control_id e < 4)%nat
                /\ data e = smoothed inp u (control_id e)
                /\ 0 <= data e <= UINT16_MAX
            end) evs.
Proof.
  intros Hrange. unfold Poll.
  set (u1 := fold_left (poll_switch inp) (seq 0 kNumSwitches) u).
  set (u2 := fold_left (poll_pot inp) (seq 0 4) u1).
  destruct (poll_switches_events inp (seq 0 kNumSwitches) u)
    as (evs & Eq1 & Hsw). fold u1 in Eq1.
  destruct (poll_switches_frame inp (seq 0 kNumSwitches) u)
    as (_ & Ev1 & Ef1). fold u1 in Ev1, Ef1.
  destruct (poll_pots_fold inp (seq 0 4) (NoDup_seq 0 4) u1)
    as (Eq2 & _). fold u2 in Eq2.
  destruct (paint_frame kNumLeds u2) as (Eq3 & _).
  exists (evs ++ flat_map (pot_events inp u1) (seq 0 4)).
  rewrite Eq3, Eq2, Eq1, <- app_assoc. split; [reflexivity|].
  apply Forall_app. split.
  - eapply Forall_impl; [exact Hsw|]. cbn. intros e [Ht Hin].
    rewrite Ht. apply in_seq in Hin. lia.
  - apply Forall_forall. intros e He. apply list_elem_of_In in He.
    apply in_flat_map in He. destruct He as (k & Hk & He).
    apply in_seq in Hk. unfold pot_events in He.
    destruct (pot_moved inp u1 k); [|destruct He].
    destruct He as [<-|[]]. cbn [control_type control_id data].
    assert (Es : smoothed inp u1 k = smoothed inp u k)
      by (unfold smoothed; rewrite Ef1; reflexivity).
    rewrite Es. split; [lia|]. split; [reflexivity|].
    destruct (Hrange k ltac:(lia)) as [Hf Ha].
    apply smoothed_range; assumption.
Qed.

(** [Ui::Init] on four-element pot arrays. *)
Lemma Ui_Init_pots FEAT_MODE_FREE adc lfo u :
  pots_ok u ->
  let u' := Ui_Init FEAT_MODE_FREE adc lfo u in
  pots_ok u'
  /\ forall i, (i < 4)%nat ->
       pot_value_ u' !!! i = adc i
       /\ pot_filtered_value_ u' !!! i = adc i
       /\ pot_coarse_value_ u' !!! i = adc i
       /\ pot_fine_value_ u' !!! i = 32768
       /\ catchup_state_ u' !!! i = false.
Proof.
  intros [Hv Hf Hc Hfi Hk].
  destruct u as [m fm pt dv pv pf pc pfi cs q leds lfos c].
  cbn [pot_value_ pot_filtered_value_ pot_coarse_value_ pot_fine_value_
       catchup_state_] in *.
  destruct pv as [|? [|? [|? [|? [|]]]]]; try discriminate Hv.
  destruct pf as [|? [|? [|? [|? [|]]]]]; try discriminate Hf.
  destruct pc as [|? [|? [|? [|? [|]]]]]; try discriminate Hc.
  destruct pfi as [|? [|? [|? [|? [|]]]]]; try discriminate Hfi.
  destruct cs as [|? [|? [|? [|? [|]]]]]; try discriminate Hk.
  cbn. split; [constructor; reflexivity|].
  intros i Hi. destruct i as [|[|[|[|i]]]]; [| | | |lia];
    repeat split; reflexivity.
Qed.

Lemma Ui_Init_frame FEAT_MODE_FREE adc lfo u :
  let u' := Ui_Init FEAT_MODE_FREE adc lfo u in
  mode_ u' = UI_MODE_SPLASH /\ feat_mode_ u' = FEAT_MODE_FREE
  /\ lfo_ u' = lfo /\ queue_ u' = queue_ u
  /\ press_time_ u' = press_time_ u
  /\ detect_very_long_press_ u' = detect_very_long_press_ u
  /\ leds_ u' = leds_ u /\ animation_counter_ u' = animation_counter_ u.
Proof.
  unfold Ui_Init. cbn [seq fold_left]. cbn. repeat split.
Qed.

(** X15. [Ui::Init] on four-element pot arrays and uint16 readings: each
    pot has its reported, filtered and coarse value at the reading, its
    fine value at 1 << 15 and its catch-up flag cleared; the mode is SPLASH,
    the feature mode FEAT_MODE_FREE and the oscillators the ones given;
    the queue, the press times, the very-long-press flags and the
    animation counter are not reset. *)
Theorem Init_synchronises (FEAT_MODE_FREE : Z) (adc : nat -> Z)
    (lfo : list Lfo) (u : Ui) (i : nat) :
  pots_ok u -> (i < 4)%nat ->
  (forall k, (k < 4)%nat -> 0 <= adc k <= UINT16_MAX) ->
  let u' := Ui_Init FEAT_MODE_FREE adc lfo u in
  (pot_value_ u' !!! i = adc i
   /\ pot_filtered_value_ u' !!! i = adc i
   /\ pot_coarse_value_ u' !!! i = adc i
   /\ pot_fine_value_ u' !!! i = 32768
   /\ catchup_state_ u' !!! i = false)
  /\ (mode_ u' = UI_MODE_SPLASH /\ feat_mode_ u' = FEAT_MODE_FREE
      /\ lfo_ u' = lfo)
  /\ (queue_ u' = queue_ u
      /\ press_time_ u' = press_time_ u
      /\ detect_very_long_press_ u' = detect_very_long_press_ u
      /\ animation_counter_ u' = animation_counter_ u).
Proof.
  intros Hok Hi _ u'.
  destruct (Ui_Init_pots FEAT_MODE_FREE adc lfo u Hok) as [_ Hp].
  destruct (Ui_Init_frame FEAT_MODE_FREE adc lfo u)
    as (H1 & H2 & H3 & H4 & H5 & H6 & _ & H8).
  split; [exact (Hp i Hi)|]. split; auto.
Qed.

(** A poll whose readings are the values already filtered and reported. *)
Lemma Poll_steady kNumSwitches kNumLeds inp u :
  pots_ok u ->
  (forall i, (i < 4)%nat ->
     0 <= pot inp i <= UINT16_MAX
     /\ pot_filtered_value_ u !!! i = pot inp i
     /\ pot_value_ u !!! i = pot inp i) ->
  let u' := Poll kNumSwitches kNumLeds inp u in
  pots_ok u'
  /\ (forall i, (i < 4)%nat ->
        pot_filtered_value_ u' !!! i = pot inp i
        /\ pot_value_ u' !!! i = pot inp i)
  /\ exists evs,
       queue_ u' = queue_ u ++ evs
       /\ Forall (fun e => control_type e = CONTROL_SWITCH) evs.
Proof.
  intros Hok Hst u'.
  assert (Hsm : forall i, (i < 4)%nat ->
            smoothed inp u i = pot inp i /\ pot_moved inp u i = false).
  { intros i Hi. destruct (Hst i Hi) as (Ha & Ef & Ev).
    assert (Es : smoothed inp u i = pot inp i).
    { unfold smoothed. rewrite Ef, Z.shiftr_div_pow2 by lia.
      change (2 ^ 5) with 32.
      replace (31 * pot inp i + pot inp i) with (pot inp i * 32) by ring.
      apply Z.div_mul. lia. }
    split; [exact Es|]. unfold pot_moved, kPotMoveThreshold. rewrite Es, Ev.
    change (Z.shiftl 1 (16 - 10)) with 64.
    destruct (Z.leb_spec (pot inp i + 64) (pot inp i)),
      (Z.leb_spec (pot inp i) (pot inp i - 64)); cbn [orb];
      (reflexivity || lia). }
  destruct (Poll_pots kNumSwitches kNumLeds inp u) as (Hq & Hlen & Hval).
  fold u' in Hq, Hlen, Hval.
  split; [|split].
  - destruct Hok as [Hv Hf Hc Hfi Hk].
    destruct (Poll_committed_frame kNumSwitches kNumLeds inp u)
      as (_ & E2 & E3 & E4 & _). fold u' in E2, E3, E4.
    destruct Hlen as [Lv Lf].
    constructor; congruence.
  - intros i Hi. destruct Hok as [Hv Hf _ _ _].
    destruct (Hval i Hi ltac:(lia) ltac:(lia)) as [Ev Ef].
    destruct (Hsm i Hi) as [Es Em]. destruct (Hst i Hi) as (Ha & Ef0 & Ev0).
    rewrite Ev, Ef, Em, Es, Ev0.
    rewrite u16_small by exact Ha. auto.
  - destruct Hq as (evs & Hsw & Eq). exists evs. split; [|exact Hsw].
    rewrite Eq. f_equal.
    rewrite <- (app_nil_r evs) at 2. f_equal.
    assert (G : forall js, (forall k, In k js -> (k < 4)%nat) ->
                flat_map (pot_events inp u) js = []).
    { induction js as [|k js IH]; intros Hjs; cbn [flat_map]; [reflexivity|].
      rewrite IH by (intros k' Hk'; apply Hjs; right; exact Hk').
      unfold pot_events.
      rewrite (proj2 (Hsm k (Hjs k (or_introl eq_refl)))). reflexivity. }
    apply G. intros k Hk. apply in_seq in Hk. lia.
Qed.

(** X16. After [Ui::Init] with uint16 readings, as long as every poll
    reads the pots where [Init] read them, the filter does not drift: the
    reported, filtered and coarse values stay at the readings and the polls
    queue switch events only. *)
Theorem constant_reading_no_pot_event (kNumSwitches kNumLeds : nat)
    (FEAT_MODE_FREE : Z) (adc : nat -> Z) (lfo : list Lfo) (u0 : Ui)
    (inps : list PollInput) :
  pots_ok u0 ->
  (forall i, (i < 4)%nat -> 0 <= adc i <= UINT16_MAX) ->
  Forall (fun inp => forall i, (i < 4)%nat -> pot inp i = adc i) inps ->
  let u :=
    Polls kNumSwitches kNumLeds (Ui_Init FEAT_MODE_FREE adc lfo u0) inps in
  (forall i, (i < 4)%nat ->
     pot_value_ u !!! i = adc i
     /\ pot_filtered_value_ u !!! i = adc i
     /\ pot_coarse_value_ u !!! i = adc i)
  /\ exists evs,
       queue_ u = queue_ u0 ++ evs
       /\ Forall (fun e => control_type e = CONTROL_SWITCH) evs.
Proof.
  intros Hok Hadc Hinps u.
  destruct (Ui_Init_pots FEAT_MODE_FREE adc lfo u0 Hok) as [Hok1 Hp].
  destruct (Ui_Init_frame FEAT_MODE_FREE adc lfo u0)
    as (_ & _ & _ & Hq & _).
  unfold u. clear u. rewrite <- Hq.
  revert Hok1 Hp. generalize (Ui_Init FEAT_MODE_FREE adc lfo u0). clear Hq Hok.
  induction Hinps as [|inp inps Hinp _ IH]; intros v Hok Hp; cbn [Polls].
  - split.
    + intros i Hi. destruct (Hp i Hi) as (H1 & H2 & H3 & _). auto.
    + exists []. rewrite app_nil_r. split; [reflexivity | constructor].
  - destruct (Poll_steady kNumSwitches kNumLeds inp v Hok) as (Hok' & Hst & Hq).
    { intros i Hi. rewrite (Hinp i Hi).
      destruct (Hp i Hi) as (H1 & H2 & _). auto. }
    destruct (Poll_committed_frame kNumSwitches kNumLeds inp v)
      as (_ & Ec & Efi & Ek & _).
    destruct (IH (Poll kNumSwitches kNumLeds inp v) Hok') as [Hval Hev].
    { intros i Hi. destruct (Hst i Hi) as [Ef Ev].
      destruct (Hp i Hi) as (_ & _ & H3 & H4 & H5).
      rewrite Ef, Ev, Ec, Efi, Ek, (Hinp i Hi). auto. }
    split; [exact Hval|].
    destruct Hq as (evs1 & Eq1 & Hsw1). destruct Hev as (evs2 & Eq2 & Hsw2).
    exists (evs1 ++ evs2). rewrite Eq2, Eq1, <- app_assoc.
    split; [reflexivity|]. apply Forall_app. auto.
Qed.

Lemma Poll_events_in_range_witness :
  let inp :=
    {| milliseconds := 0; just_pressed := fun _ => false;
       pressed := fun _ => false; released := fun _ => false;
       pot := fun _ => 9000 |} in
  exists evs,
    queue_ (Poll 4 4 inp splash_panel) = queue_ splash_panel ++ evs
    /\ Forall
         (fun e =>
            match control_type e with
            | CONTROL_SWITCH => (control_id e < 4)%nat
            | CONTROL_POT =>
                (control_id e < 4)%nat
                /\ data e = smoothed inp splash_panel (control_id e)
                /\ 0 <= data e <= UINT16_MAX
            end) evs.
Proof.
  intros inp. apply (Poll_events_in_range 4 4 inp splash_panel).
  intros i Hi.
  do 4 (destruct i as [|i]; [vm_compute; repeat split; discriminate|]).
  lia.
Defined.

Lemma Init_synchronises_witness :
  pot_coarse_value_ splash_panel !!! 2%nat = 100
  /\ pot_fine_value_ splash_panel !!! 2%nat = 32768
  /\ mode_ splash_panel = UI_MODE_SPLASH.
Proof.
  destruct (Init_synchronises 0 (fun _ => 100) (replicate 4 (slow_lfo 0))
              (Ui_zero 4 4) 2 ltac:(constructor; reflexivity) ltac:(lia)
              ltac:(intros k _; vm_compute; split; discriminate))
    as ((_ & _ & Hc & Hf & _) & (Hm & _) & _).
  repeat split; assumption.
Defined.

Lemma constant_reading_no_pot_event_witness :
  let inp :=
    {| milliseconds := 0; just_pressed := fun _ => false;
       pressed := fun _ => false; released := fun _ => false;
       pot := fun _ => 100 |} in
  exists evs,
    queue_ (Polls 4 4 splash_panel [inp; inp; inp])
    = queue_ (Ui_zero 4 4) ++ evs
    /\ Forall (fun e => control_type e = CONTROL_SWITCH) evs.
Proof.
  intros inp.
  exact (proj2 (constant_reading_no_pot_event 4 4 0 (fun _ => 100)
                  (replicate 4 (slow_lfo 0)) (Ui_zero 4 4) [inp; inp; inp]
                  ltac:(constructor; reflexivity)
                  ltac:(intros k _; vm_compute; split; discriminate)
                  ltac:(repeat (constructor; [intros; reflexivity|]);
                        constructor))).
Defined.

(** ** The handlers: zoom, coarse values and catch-up flags *)

Lemma set_mode_same u : set_mode (mode_ u) u = u.
Proof. destruct u. reflexivity. Qed.

Lemma set_queue_same u : set_queue (queue_ u) u = u.
Proof. destruct u. reflexivity. Qed.

(** No pot moved: the loop of the zoom case changes nothing. *)
Lemma detect_moved_none (js : list nat) : forall u,
  (forall i, In i js ->
     Z.abs (pot_value_ u !!! i - pot_coarse_value_ u !!! i)
     <= kCatchupThreshold) ->
  fold_left
    (fun (u : Ui) (i : nat) =>
       if kCatchupThreshold
          <? Z.abs (pot_value_ u !!! i - pot_coarse_value_ u !!! i)
       then set_catchup_state i true u
       else u) js u = u.
Proof.
  induction js as [|j js IH]; intros u H; cbn [fold_left]; [reflexivity|].
  destruct (Z.ltb_spec kCatchupThreshold
              (Z.abs (pot_value_ u !!! j - pot_coarse_value_ u !!! j)))
    as [Hlt|_].
  - specialize (H j (or_introl eq_refl)). lia.
  - apply IH. intros i Hi. apply H. right. exact Hi.
Qed.

(** The loop of the zoom case, flag by flag. *)
Lemma detect_moved_exact (js : list nat) : forall u,
  let u' :=
    fold_left
      (fun (u : Ui) (i : nat) =>
         if kCatchupThreshold
            <? Z.abs (pot_value_ u !!! i - pot_coarse_value_ u !!! i)
         then set_catchup_state i true u
         else u) js u in
  forall i,
    catchup_state_ u' !!! i = catchup_state_ u !!! i
    \/ (catchup_state_ u' !!! i = true
        /\ In i js
        /\ kCatchupThreshold
           < Z.abs (pot_value_ u !!! i - pot_coarse_value_ u !!! i)).
Proof.
  induction js as [|j js IH]; intros u; cbn [fold_left]; [left; reflexivity|].
  intros i.
  set (u1 := if _ <? _ then set_catchup_state j true u else u).
  assert (H1 : pot_value_ u1 = pot_value_ u
               /\ pot_coarse_value_ u1 = pot_coarse_value_ u).
  { unfold u1. destruct (_ <? _); auto. }
  destruct H1 as [Ev Ec].
  assert (Hone : catchup_state_ u1 !!! i = catchup_state_ u !!! i
                 \/ (catchup_state_ u1 !!! i = true /\ i = j
                     /\ kCatchupThreshold
                        < Z.abs (pot_value_ u !!! i - pot_coarse_value_ u !!! i))).
  { unfold u1.
    destruct (Z.ltb_spec kCatchupThreshold
                (Z.abs (pot_value_ u !!! j - pot_coarse_value_ u !!! j)))
      as [Hlt|Hge]; [|left; reflexivity].
    cbn [set_catchup_state catchup_state_].
    destruct (Nat.eq_dec j i) as [->|Hne].
    - destruct (decide (i < length (catchup_state_ u))%nat) as [Hl|Hl].
      + right. rewrite list_lookup_total_insert_eq by exact Hl. auto.
      + left. rewrite list_insert_ge by lia. reflexivity.
    - left. apply list_lookup_total_insert_ne. exact Hne. }
  destruct (IH u1 i) as [E|(Et & Hin & Hmv)].
  - rewrite E. destruct Hone as [E1|(E1 & -> & Hmv)].
    + left. exact E1.
    + right. split; [exact E1|]. split; [left; reflexivity | exact Hmv].
  - right. split; [exact Et|]. split; [right; exact Hin|].
    rewrite Ev, Ec in Hmv. exact Hmv.
Qed.

Section HandlerProperties.

Variable SWITCH_SELECT : nat.
Variable FEAT_MODE_LAST : Z.

Local Abbreviation OnSwitchReleased' :=
  (OnSwitchReleased SWITCH_SELECT FEAT_MODE_LAST).
Local Abbreviation handle_event' := (handle_event SWITCH_SELECT FEAT_MODE_LAST).
Local Abbreviation handle_events' := (handle_events SWITCH_SELECT FEAT_MODE_LAST).
Local Abbreviation drain' := (drain SWITCH_SELECT FEAT_MODE_LAST).
Local Abbreviation DoEvents' := (DoEvents SWITCH_SELECT FEAT_MODE_LAST).

Lemma OnSwitchReleased_long e u :
  control_id e = SWITCH_SELECT ->
  kLongPressDuration < data e <= kVeryLongPressDuration ->
  OnSwitchReleased' e u = set_mode UI_MODE_ZOOM u.
Proof.
  unfold kLongPressDuration, kVeryLongPressDuration. intros Hid Hd.
  unfold OnSwitchReleased. rewrite Hid, Nat.eqb_refl.
  unfold kVeryLongPressDuration, kLongPressDuration.
  destruct (Z.ltb_spec 2000 (data e)); [lia|].
  destruct (Z.ltb_spec 500 (data e)); [reflexivity | lia].
Qed.

Lemma handle_event_release e u :
  control_type e = CONTROL_SWITCH -> data e <> 0 ->
  handle_event' e u = OnSwitchReleased' e u.
Proof.
  intros Ht Hd. unfold handle_event, handler_of. rewrite Ht.
  destruct (Z.eqb_spec (data e) 0); [contradiction | reflexivity].
Qed.

(** X17. Zoom and back: in NORMAL, with no pot reported further than the
    catch-up threshold from its coarse value, a long press of SELECT
    followed by a short release of SELECT goes through ZOOM and gives back
    the very state it started from: no catch-up flag is set, the feature
    mode does not advance and no oscillator is reset. *)
Theorem zoom_and_back (e_long e_short : Event) (u : Ui) :
  pots_ok u -> mode_ u = UI_MODE_NORMAL ->
  control_type e_long = CONTROL_SWITCH ->
  control_id e_long = SWITCH_SELECT ->
  kLongPressDuration < data e_long <= kVeryLongPressDuration ->
  control_type e_short = CONTROL_SWITCH ->
  control_id e_short = SWITCH_SELECT ->
  0 < data e_short <= kLongPressDuration ->
  (forall i, (i < 4)%nat ->
     Z.abs (pot_value_ u !!! i - pot_coarse_value_ u !!! i)
     <= kCatchupThreshold) ->
  mode_ (handle_event' e_long u) = UI_MODE_ZOOM
  /\ handle_events' [e_long; e_short] u = u.
Proof.
  intros _ Em Ht1 Hl1 Hl2 Ht2 Hs1 Hs2 Hpots.
  unfold handle_events. cbn [fold_left].
  rewrite (handle_event_release e_long)
    by (assumption || unfold kLongPressDuration in Hl2; lia).
  rewrite handle_event_release by (assumption || lia).
  rewrite OnSwitchReleased_long by assumption.
  split; [reflexivity|].
  rewrite OnSwitchReleased_short by (assumption || lia).
  cbn [set_mode mode_]. unfold detect_moved_pots.
  rewrite detect_moved_none.
  - destruct u. cbn in *. subst. reflexivity.
  - intros i Hi. apply in_seq in Hi. apply Hpots. lia.
Qed.

Lemma OnSwitchReleased_other e u :
  control_id e <> SWITCH_SELECT -> OnSwitchReleased' e u = u.
Proof.
  intros Hid. unfold OnSwitchReleased.
  destruct (Nat.eqb_spec (control_id e) SWITCH_SELECT);
    [contradiction | reflexivity].
Qed.

Lemma OnSwitchReleased_very_long e u :
  kVeryLongPressDuration < data e -> OnSwitchReleased' e u = u.
Proof.
  unfold kVeryLongPressDuration. intros Hd. unfold OnSwitchReleased.
  destruct (Nat.eqb _ _); [|reflexivity].
  unfold kVeryLongPressDuration.
  destruct (Z.ltb_spec 2000 (data e)); [reflexivity | lia].
Qed.

(** The release handler, case by case. *)
Lemma OnSwitchReleased_cases e u :
  OnSwitchReleased' e u = u
  \/ (control_id e = SWITCH_SELECT
      /\ kLongPressDuration < data e <= kVeryLongPressDuration
      /\ OnSwitchReleased' e u = set_mode UI_MODE_ZOOM u)
  \/ (control_id e = SWITCH_SELECT /\ data e <= kLongPressDuration
      /\ mode_ u = UI_MODE_ZOOM
      /\ OnSwitchReleased' e u
         = set_mode UI_MODE_NORMAL (detect_moved_pots u))
  \/ (control_id e = SWITCH_SELECT /\ data e <= kLongPressDuration
      /\ mode_ u = UI_MODE_NORMAL
      /\ OnSwitchReleased' e u
         = set_lfo (init_lfos (lfo_ u))
             (set_feat_mode (Z.rem (feat_mode_ u + 1) FEAT_MODE_LAST) u)).
Proof.
  destruct (Nat.eq_dec (control_id e) SWITCH_SELECT) as [Hid|Hid];
    [|left; apply OnSwitchReleased_other; exact Hid].
  destruct (Z.lt_ge_cases kVeryLongPressDuration (data e)) as [Hv|Hv];
    [left; apply OnSwitchReleased_very_long; exact Hv|].
  destruct (Z.lt_ge_cases kLongPressDuration (data e)) as [Hl|Hl].
  { right. left. split; [exact Hid|]. split; [lia|].
    apply OnSwitchReleased_long; [exact Hid | lia]. }
  rewrite OnSwitchReleased_short by assumption.
  destruct (mode_ u) eqn:Em; [left; reflexivity | |].
  - right. right. left. auto.
  - right. right. right. auto.
Qed.

(** X18. Handling one event never moves a coarse pot value by the catch-up
    threshold or more: a coarse value changes only in NORMAL, by a pot
    event of that very pot, and then it becomes the data of the event,
    which was within the threshold.  The test is on the distance alone,
    whatever the catch-up flag says. *)
Theorem coarse_value_never_jumps (e : Event) (u : Ui) (i : nat) :
  pots_ok u ->
  (control_type e = CONTROL_POT ->
   (control_id e < 4)%nat /\ 0 <= data e <= UINT16_MAX) ->
  let u' := handle_event' e u in
  Z.abs (pot_coarse_value_ u' !!! i - pot_coarse_value_ u !!! i)
  < kCatchupThreshold
  /\ (pot_coarse_value_ u' !!! i <> pot_coarse_value_ u !!! i ->
      mode_ u = UI_MODE_NORMAL /\ control_type e = CONTROL_POT
      /\ control_id e = i /\ pot_coarse_value_ u' !!! i = data e).
Proof.
  intros _ Hd0 u'.
  assert (Hd : control_type e = CONTROL_POT -> 0 <= data e <= UINT16_MAX)
    by (intros H; apply Hd0, H).
  clear Hd0.
  assert (Hsame : pot_coarse_value_ u' = pot_coarse_value_ u ->
            Z.abs (pot_coarse_value_ u' !!! i - pot_coarse_value_ u !!! i)
            < kCatchupThreshold
            /\ (pot_coarse_value_ u' !!! i <> pot_coarse_value_ u !!! i ->
                mode_ u = UI_MODE_NORMAL /\ control_type e = CONTROL_POT
                /\ control_id e = i /\ pot_coarse_value_ u' !!! i = data e)).
  { intros E. rewrite E, Z.sub_diag. split; [reflexivity | congruence]. }
  unfold u' in *. clear u'. unfold handle_event, handler_of in *.
  destruct (control_type e) eqn:Et.
  - destruct (data e =? 0); [apply Hsame; reflexivity|].
    apply Hsame.
    destruct (OnSwitchReleased_cases e u)
      as [E|[(_ & _ & E)|[(_ & _ & _ & E)|(_ & _ & _ & E)]]];
      rewrite E; try reflexivity.
    cbn [set_mode pot_coarse_value_].
    apply (fold_left_inv (fun a => pot_coarse_value_ a = pot_coarse_value_ u));
      [|reflexivity].
    intros a j Ha. destruct (_ <? _); exact Ha.
  - specialize (Hd eq_refl). unfold OnPotChanged in *.
    destruct (mode_ u) eqn:Em; try (apply Hsame; reflexivity).
    destruct (Z.ltb_spec
                (Z.abs (data e - pot_coarse_value_ u !!! control_id e))
                kCatchupThreshold) as [Hin|Hout];
      [|apply Hsame; reflexivity].
    cbn [set_catchup_state set_pot_coarse_value pot_coarse_value_].
    rewrite u16_small by exact Hd.
    destruct (Nat.eq_dec (control_id e) i) as [Hid|Hid].
    + rewrite Hid in *.
      destruct (decide (i < length (pot_coarse_value_ u))%nat) as [Hl|Hl].
      * rewrite list_lookup_total_insert_eq by exact Hl.
        split; [exact Hin | auto].
      * rewrite list_insert_ge by lia. rewrite Z.sub_diag.
        split; [reflexivity | congruence].
    + rewrite list_lookup_total_insert_ne by exact Hid. rewrite Z.sub_diag.
      split; [reflexivity | congruence].
Qed.

(** X19. The two ways a catch-up flag changes when one event is handled:
    it is set by the short release of SELECT that leaves ZOOM for NORMAL,
    for one of the four pots reported further than the threshold from its
    coarse value; it is cleared in NORMAL by a pot event of its own pot
    within the threshold of the coarse value.  Nothing else writes it. *)
Theorem catchup_flag_changes (e : Event) (u : Ui) (i : nat) :
  pots_ok u ->
  (control_type e = CONTROL_POT -> (control_id e < 4)%nat) ->
  let u' := handle_event' e u in
  catchup_state_ u' !!! i <> catchup_state_ u !!! i ->
  (catchup_state_ u' !!! i = true
   /\ mode_ u = UI_MODE_ZOOM /\ mode_ u' = UI_MODE_NORMAL
   /\ control_type e = CONTROL_SWITCH /\ control_id e = SWITCH_SELECT
   /\ data e <= kLongPressDuration
   /\ (i < 4)%nat
   /\ kCatchupThreshold
      < Z.abs (pot_value_ u !!! i - pot_coarse_value_ u !!! i))
  \/ (catchup_state_ u' !!! i = false
      /\ mode_ u = UI_MODE_NORMAL /\ mode_ u' = UI_MODE_NORMAL
      /\ control_type e = CONTROL_POT /\ control_id e = i
      /\ Z.abs (data e - pot_coarse_value_ u !!! i) < kCatchupThreshold).
Proof.
  intros _ _ u'. unfold u'. clear u'. unfold handle_event, handler_of.
  destruct (control_type e) eqn:Et.
  - destruct (data e =? 0); [intros H; contradiction H; reflexivity|].
    destruct (OnSwitchReleased_cases e u)
      as [E|[(_ & _ & E)|[(Hid & Hd & Em & E)|(_ & _ & _ & E)]]];
      rewrite E; try (intros H; contradiction H; reflexivity).
    cbn [set_mode catchup_state_ mode_]. intros Hne. left.
    destruct (detect_moved_exact (seq 0 4) u i) as [Es|(Etrue & Hin & Hmv)].
    + contradiction Hne.
    + apply in_seq in Hin. repeat split; try assumption. lia.
  - unfold OnPotChanged.
    destruct (mode_ u) eqn:Em; try (intros H; contradiction H; reflexivity).
    destruct (Z.ltb_spec
                (Z.abs (data e - pot_coarse_value_ u !!! control_id e))
                kCatchupThreshold) as [Hin|Hout];
      [|intros H; contradiction H; reflexivity].
    cbn [set_catchup_state set_pot_coarse_value catchup_state_ mode_].
    intros Hne. right.
    destruct (Nat.eq_dec (control_id e) i) as [Hid|Hid].
    + rewrite Hid in *.
      destruct (decide (i < length (catchup_state_ u))%nat) as [Hl|Hl].
      * rewrite list_lookup_total_insert_eq by exact Hl. auto 10.
      * rewrite list_insert_ge in Hne by lia. contradiction Hne. reflexivity.
    + rewrite list_lookup_total_insert_ne in Hne by exact Hid.
      contradiction Hne. reflexivity.
Qed.

End HandlerProperties.

Lemma zoom_and_back_witness :
  let u := set_mode UI_MODE_NORMAL splash_panel in
  mode_ (handle_event 3 4 (mkEvent CONTROL_SWITCH 3 501) u) = UI_MODE_ZOOM
  /\ handle_events 3 4
       [mkEvent CONTROL_SWITCH 3 501; mkEvent CONTROL_SWITCH 3 301] u = u.
Proof.
  intros u.
  apply (zoom_and_back 3 4 (mkEvent CONTROL_SWITCH 3 501)
           (mkEvent CONTROL_SWITCH 3 301) u);
    try reflexivity.
  - constructor; reflexivity.
  - vm_compute. split; [reflexivity | discriminate].
  - vm_compute. split; [reflexivity | discriminate].
  - intros i Hi.
    do 4 (destruct i as [|i]; [vm_compute; discriminate|]). lia.
Defined.

(** A report at 5000 for a pot committed at 100 is not taken. *)
Lemma coarse_value_never_jumps_witness :
  let u := set_mode UI_MODE_NORMAL splash_panel in
  Z.abs (pot_coarse_value_
           (handle_event 3 4 (mkEvent CONTROL_POT 0 5000) u) !!! 0%nat
         - pot_coarse_value_ u !!! 0%nat) < kCatchupThreshold.
Proof.
  intros u.
  exact (proj1 (coarse_value_never_jumps 3 4 (mkEvent CONTROL_POT 0 5000)
                  u 0 ltac:(constructor; reflexivity)
                  ltac:(intros _; split;
                        [cbn; lia | vm_compute; split; discriminate]))).
Defined.

Lemma catchup_flag_changes_witness :
  catchup_state_
    (handle_event 3 4 (mkEvent CONTROL_SWITCH 3 301) zoomed_panel) !!! 0%nat
  = true.
Proof.
  destruct (catchup_flag_changes 3 4 (mkEvent CONTROL_SWITCH 3 301)
              zoomed_panel 0 ltac:(constructor; reflexivity)
              ltac:(intros H; discriminate H)
              ltac:(vm_compute; discriminate))
    as [(H & _)|(_ & Hm & _)].
  - exact H.
  - vm_compute in Hm. discriminate Hm.
Defined.

(** ** [Ui::DoEvents]: the event loop *)

Lemma detect_moved_pots_queue q u :
  detect_moved_pots (set_queue q u) = set_queue q (detect_moved_pots u).
Proof.
  unfold detect_moved_pots.
  generalize (seq 0 4). intros js. revert u.
  induction js as [|j js IH]; intros u; cbn [fold_left]; [reflexivity|].
  cbn [set_queue pot_value_ pot_coarse_value_].
  destruct (_ <? _); [|apply IH].
  rewrite <- IH. reflexivity.
Qed.

Section EventLoop.

Variable SWITCH_SELECT : nat.
Variable FEAT_MODE_LAST : Z.

Local Abbreviation OnSwitchReleased' :=
  (OnSwitchReleased SWITCH_SELECT FEAT_MODE_LAST).
Local Abbreviation handle_event' := (handle_event SWITCH_SELECT FEAT_MODE_LAST).
Local Abbreviation handle_events' := (handle_events SWITCH_SELECT FEAT_MODE_LAST).
Local Abbreviation drain' := (drain SWITCH_SELECT FEAT_MODE_LAST).
Local Abbreviation DoEvents' := (DoEvents SWITCH_SELECT FEAT_MODE_LAST).
Local Abbreviation short_select' := (short_select SWITCH_SELECT).

(** No handler reads or writes the queue. *)
Lemma handle_event_queue e q u :
  handle_event' e (set_queue q u) = set_queue q (handle_event' e u).
Proof.
  unfold handle_event. destruct (handler_of e).
  - reflexivity.
  - unfold OnSwitchReleased. destruct (Nat.eqb _ _); [|reflexivity].
    destruct (_ <? _); [reflexivity|].
    destruct (_ <? _); [reflexivity|].
    cbn [set_queue mode_]. destruct (mode_ u); [reflexivity| |reflexivity].
    change (mkUi (mode_ u) (feat_mode_ u) (press_time_ u)
              (detect_very_long_press_ u) (pot_value_ u)
              (pot_filtered_value_ u) (pot_coarse_value_ u)
              (pot_fine_value_ u) (catchup_state_ u) q (leds_ u) (lfo_ u)
              (animation_counter_ u)) with (set_queue q u).
    rewrite detect_moved_pots_queue. reflexivity.
  - unfold OnPotChanged. cbn [set_queue mode_ pot_coarse_value_].
    destruct (mode_ u); [reflexivity|reflexivity|].
    destruct (_ <? _); reflexivity.
Qed.

Lemma handle_events_queue es : forall q u,
  handle_events' es (set_queue q u) = set_queue q (handle_events' es u).
Proof.
  induction es as [|e es IH]; intros q u; [reflexivity|].
  cbn [handle_events fold_left].
  change (fold_left _ es ?x) with (handle_events' es x).
  rewrite handle_event_queue. apply IH.
Qed.

Lemma drain_handle_events q : forall u,
  drain' q (set_queue q u) = set_queue [] (handle_events' q u).
Proof.
  induction q as [|e q IH]; intros u; cbn [drain]; [reflexivity|].
  change (set_queue q (set_queue (e :: q) u)) with (set_queue q u).
  rewrite handle_event_queue, IH. reflexivity.
Qed.

(** X20. [DoEvents] handles the queued events oldest first and leaves the
    queue empty: the mode, the feature mode, the pot values, the catch-up
    flags, the leds and the oscillators are those reached by handling the
    events of the queue one after the other, the first queued first, and
    no event is left in the queue.  (The idle timer of the queue, which
    the last statement of [DoEvents] may touch, is not part of the
    state.) *)
Theorem DoEvents_handles_in_order (u : Ui) :
  DoEvents' u = set_queue [] (handle_events' (queue_ u) u)
  /\ queue_ (DoEvents' u) = [].
Proof.
  assert (E : DoEvents' u = set_queue [] (handle_events' (queue_ u) u)).
  { unfold DoEvents. rewrite <- (set_queue_same u) at 2.
    apply drain_handle_events. }
  split; [exact E|]. rewrite E. reflexivity.
Qed.

(** One short release of SELECT in NORMAL. *)
Lemma short_select_normal e u :
  short_select' e -> mode_ u = UI_MODE_NORMAL ->
  handle_event' e u
  = set_lfo (init_lfos (lfo_ u))
      (set_feat_mode (Z.rem (feat_mode_ u + 1) FEAT_MODE_LAST) u).
Proof.
  intros (Ht & Hid & Hd) Em. unfold handle_event, handler_of. rewrite Ht.
  destruct (Z.eqb_spec (data e) 0); [lia|].
  rewrite OnSwitchReleased_short by (assumption || lia). rewrite Em.
  reflexivity.
Qed.

(** X21. In NORMAL, with the feature mode in [0, FEAT_MODE_LAST), any
    number n of short releases of SELECT leaves the mode NORMAL and the
    feature mode at (feature mode + n) modulo FEAT_MODE_LAST, so
    FEAT_MODE_LAST of them bring back the feature mode; the coarse values
    and the catch-up flags are not touched. *)
Theorem feature_mode_cycles (es : list Event) (u : Ui) :
  0 < FEAT_MODE_LAST ->
  mode_ u = UI_MODE_NORMAL -> 0 <= feat_mode_ u < FEAT_MODE_LAST ->
  Forall short_select' es ->
  let u' := handle_events' es u in
  mode_ u' = UI_MODE_NORMAL
  /\ feat_mode_ u'
     = (feat_mode_ u + Z.of_nat (length es)) mod FEAT_MODE_LAST
  /\ pot_coarse_value_ u' = pot_coarse_value_ u
  /\ catchup_state_ u' = catchup_state_ u
  /\ (Z.of_nat (length es) = FEAT_MODE_LAST -> feat_mode_ u' = feat_mode_ u).
Proof.
  intros HL Em Hf Hes u'.
  assert (G : mode_ u' = UI_MODE_NORMAL
              /\ feat_mode_ u'
                 = (feat_mode_ u + Z.of_nat (length es)) mod FEAT_MODE_LAST
              /\ pot_coarse_value_ u' = pot_coarse_value_ u
              /\ catchup_state_ u' = catchup_state_ u).
  { unfold u'. clear u'. revert u Em Hf.
    induction Hes as [|e es He _ IH]; intros u Em Hf.
    - cbn [handle_events fold_left length]. rewrite Z.add_0_r.
      rewrite Z.mod_small by lia. auto.
    - cbn [handle_events fold_left length].
      change (fold_left _ es ?x) with (handle_events' es x).
      rewrite (short_select_normal e u He Em).
      set (u1 := set_lfo _ _).
      assert (Ef1 : feat_mode_ u1 = (feat_mode_ u + 1) mod FEAT_MODE_LAST).
      { unfold u1. cbn [set_lfo set_feat_mode feat_mode_].
        apply Z.rem_mod_nonneg; lia. }
      destruct (IH u1) as (Em' & Ef' & Ec' & Ek').
      + exact Em.
      + rewrite Ef1. apply Z.mod_pos_bound. lia.
      + split; [exact Em'|]. split; [|split; [exact Ec' | exact Ek']].
        rewrite Ef', Ef1. rewrite Z.add_mod_idemp_l by lia.
        f_equal. lia. }
  destruct G as (G1 & G2 & G3 & G4).
  repeat (split; [assumption|]).
  intros Hlen. rewrite G2, Hlen.
  replace (feat_mode_ u + FEAT_MODE_LAST)
    with (feat_mode_ u + 1 * FEAT_MODE_LAST) by ring.
  rewrite Z.mod_add by lia. apply Z.mod_small. exact Hf.
Qed.

(** X22. In ZOOM, pot events of the four pots change the fine values only:
    after any sequence of them the mode, the feature mode, the reported and
    coarse values, the catch-up flags and the oscillators are as before,
    and the fine value of the pot of the last event is its data as a
    uint16. *)
Theorem zoom_keeps_committed_values (es : list Event) (e : Event) (u : Ui) :
  pots_ok u -> mode_ u = UI_MODE_ZOOM ->
  Forall (fun e => control_type e = CONTROL_POT /\ (control_id e < 4)%nat)
    (es ++ [e]) ->
  let u' := handle_events' (es ++ [e]) u in
  mode_ u' = UI_MODE_ZOOM
  /\ feat_mode_ u' = feat_mode_ u
  /\ pot_value_ u' = pot_value_ u
  /\ pot_coarse_value_ u' = pot_coarse_value_ u
  /\ catchup_state_ u' = catchup_state_ u
  /\ lfo_ u' = lfo_ u
  /\ pot_fine_value_ u' !!! control_id e = u16 (data e).
Proof.
  intros Hok Em Hes0 u'.
  assert (Hes : Forall (fun e => control_type e = CONTROL_POT) (es ++ [e])).
  { eapply Forall_impl; [exact Hes0|]. cbn. intros x [Hx _]. exact Hx. }
  assert (Hlen : (control_id e < length (pot_fine_value_ u))%nat).
  { apply Forall_app in Hes0. destruct Hes0 as [_ He0].
    apply Forall_cons in He0. destruct He0 as [[_ He0] _].
    rewrite (ok_pot_fine u Hok). exact He0. }
  clear Hes0 Hok.
  assert (G : forall es u0,
            mode_ u0 = UI_MODE_ZOOM ->
            Forall (fun e => control_type e = CONTROL_POT) es ->
            let v := handle_events' es u0 in
            mode_ v = UI_MODE_ZOOM /\ feat_mode_ v = feat_mode_ u0
            /\ pot_value_ v = pot_value_ u0
            /\ pot_coarse_value_ v = pot_coarse_value_ u0
            /\ catchup_state_ v = catchup_state_ u0
            /\ lfo_ v = lfo_ u0
            /\ length (pot_fine_value_ v) = length (pot_fine_value_ u0)).
  { clear. intros es u0 Em Hes. revert u0 Em.
    induction Hes as [|e es He _ IH]; intros u0 Em.
    - cbn. auto 10.
    - cbn [handle_events fold_left].
      change (fold_left _ es ?x) with (handle_events' es x).
      assert (E1 : handle_event' e u0
                   = set_pot_fine_value (control_id e) (u16 (data e)) u0).
      { unfold handle_event, handler_of, OnPotChanged. rewrite He, Em.
        reflexivity. }
      rewrite E1.
      destruct (IH (set_pot_fine_value (control_id e) (u16 (data e)) u0) Em)
        as (H1 & H2 & H3 & H4 & H5 & H6 & H7).
      cbn [set_pot_fine_value pot_fine_value_] in H7.
      rewrite length_insert in H7. auto 10. }
  apply Forall_app in Hes. destruct Hes as [Hes He].
  apply Forall_cons in He. destruct He as [He _].
  destruct (G es u Em Hes) as (H1 & H2 & H3 & H4 & H5 & H6 & H7).
  unfold u', handle_events. rewrite fold_left_app. cbn [fold_left].
  change (fold_left _ es u) with (handle_events' es u).
  assert (E1 : handle_event' e (handle_events' es u)
               = set_pot_fine_value (control_id e) (u16 (data e))
                   (handle_events' es u)).
  { unfold handle_event, handler_of, OnPotChanged. rewrite He, H1.
    reflexivity. }
  rewrite E1. cbn [set_pot_fine_value mode_ feat_mode_ pot_value_
    pot_coarse_value_ catchup_state_ lfo_ pot_fine_value_].
  repeat (split; [assumption|]).
  apply list_lookup_total_insert_eq. lia.
Qed.

End EventLoop.

(** A long press of SELECT and a pot event queued in NORMAL: the pot
    event is handled second, in ZOOM, and sets the fine value. *)
Lemma DoEvents_handles_in_order_witness :
  let u :=
    set_queue [mkEvent CONTROL_SWITCH 3 501; mkEvent CONTROL_POT 0 900]
      (set_mode UI_MODE_NORMAL splash_panel) in
  DoEvents 3 4 u
  = set_queue []
      (handle_events 3 4
         [mkEvent CONTROL_SWITCH 3 501; mkEvent CONTROL_POT 0 900] u)
  /\ queue_ (DoEvents 3 4 u) = [].
Proof.
  intros u.
  destruct (DoEvents_handles_in_order 3 4 u) as (He & Hq).
  split; [exact He | exact Hq].
Defined.

Lemma feature_mode_cycles_witness :
  let u := set_feat_mode 2 (set_mode UI_MODE_NORMAL splash_panel) in
  feat_mode_
    (handle_events 3 4 (replicate 4 (mkEvent CONTROL_SWITCH 3 301)) u) = 2.
Proof.
  intros u.
  destruct (feature_mode_cycles 3 4
              (replicate 4 (mkEvent CONTROL_SWITCH 3 301)) u
              ltac:(lia) eq_refl ltac:(vm_compute; split; discriminate ||
                                       reflexivity)
              ltac:(repeat (constructor;
                            [repeat split; vm_compute;
                             (reflexivity || discriminate)|]);
                    constructor))
    as (_ & _ & _ & _ & H).
  exact (H eq_refl).
Defined.

Lemma zoom_keeps_committed_values_witness :
  let u' :=
    handle_events 3 4 [mkEvent CONTROL_POT 1 700; mkEvent CONTROL_POT 0 900]
      zoomed_panel in
  pot_coarse_value_ u' = pot_coarse_value_ zoomed_panel
  /\ pot_fine_value_ u' !!! 0%nat = 900.
Proof.
  intros u'.
  destruct (zoom_keeps_committed_values 3 4 [mkEvent CONTROL_POT 1 700]
              (mkEvent CONTROL_POT 0 900) zoomed_panel
              ltac:(constructor; reflexivity) eq_refl
              ltac:(repeat (constructor; [split; [reflexivity | cbn; lia]|]);
                    constructor))
    as (_ & _ & _ & Hc & _ & _ & Hf).
  split; [exact Hc | exact Hf].
Defined.

(** ** From the switch to the feature mode *)

Lemma switch_data_app i evs1 evs2 :
  switch_data i (evs1 ++ evs2) = switch_data i evs1 ++ switch_data i evs2.
Proof. unfold switch_data. rewrite List.filter_app, map_app. reflexivity. Qed.

Lemma switch_data_same i ds :
  switch_data i (map (mkEvent CONTROL_SWITCH i) ds) = ds.
Proof.
  unfold switch_data. induction ds as [|d ds IH]; [reflexivity|].
  cbn [map List.filter]. unfold is_switch_event at 1.
  cbn [control_type control_id]. rewrite Nat.eqb_refl. cbn [map data].
  rewrite IH. reflexivity.
Qed.

Lemma switch_data_other i j ds :
  j <> i -> switch_data i (map (mkEvent CONTROL_SWITCH j) ds) = [].
Proof.
  intros Hji. unfold switch_data. induction ds as [|d ds IH]; [reflexivity|].
  cbn [map List.filter]. unfold is_switch_event at 1.
  cbn [control_type control_id].
  destruct (Nat.eqb_spec j i); [contradiction | exact IH].
Qed.

Lemma switch_data_pots i inp u js :
  switch_data i (flat_map (pot_events inp u) js) = [].
Proof.
  induction js as [|j js IH]; [reflexivity|].
  cbn [flat_map]. rewrite switch_data_app, IH, app_nil_r.
  unfold pot_events. destruct (pot_moved inp u j); reflexivity.
Qed.

(** One turn of the switch loop. *)
Lemma poll_switch_spec inp u j :
  queue_ (poll_switch inp u j)
  = queue_ u
    ++ map (mkEvent CONTROL_SWITCH j)
         (fst (switch_poll (switch_input inp j) (switch_state u j)))
  /\ press_time_ (poll_switch inp u j)
     = <[j := press_time
               (snd (switch_poll (switch_input inp j) (switch_state u j)))]>
         (press_time_ u)
  /\ detect_very_long_press_ (poll_switch inp u j)
     = <[j := detect_very_long_press
               (snd (switch_poll (switch_input inp j) (switch_state u j)))]>
         (detect_very_long_press_ u).
Proof.
  unfold poll_switch.
  destruct (switch_poll (switch_input inp j) (switch_state u j)) as [ds s].
  cbn [fst snd set_switch queue_ press_time_ detect_very_long_press_].
  split; [apply AddEvents_frame|].
  apply (fold_left_inv
           (fun a => <[j := press_time s]> (press_time_ a)
                     = <[j := press_time s]> (press_time_ u)
                     /\ <[j := detect_very_long_press s]>
                          (detect_very_long_press_ a)
                        = <[j := detect_very_long_press s]>
                            (detect_very_long_press_ u)));
    [|split; reflexivity].
  intros a d Ha. exact Ha.
Qed.

(** The switch loop, seen from switch [i]. *)
Lemma poll_switches_one inp i (js : list nat) :
  NoDup js -> forall u,
  (i < length (press_time_ u))%nat ->
  (i < length (detect_very_long_press_ u))%nat ->
  let u' := fold_left (poll_switch inp) js u in
  let sp := switch_poll (switch_input inp i) (switch_state u i) in
  exists evs,
    queue_ u' = queue_ u ++ evs
    /\ length (press_time_ u') = length (press_time_ u)
    /\ length (detect_very_long_press_ u')
       = length (detect_very_long_press_ u)
    /\ (In i js -> switch_data i evs = fst sp /\ switch_state u' i = snd sp)
    /\ (~ In i js ->
        switch_data i evs = [] /\ switch_state u' i = switch_state u i).
Proof.
  induction 1 as [|j js Hj Hnd IH]; intros u Hp Hd; cbn [fold_left].
  - exists []. rewrite app_nil_r. repeat split; try reflexivity.
    + destruct H.
    + destruct H.
  - destruct (poll_switch_spec inp u j) as (Eq & Ep & Ed).
    set (u1 := poll_switch inp u j) in *.
    assert (Lp : length (press_time_ u1) = length (press_time_ u))
      by (rewrite Ep; apply length_insert).
    assert (Ld : length (detect_very_long_press_ u1)
                 = length (detect_very_long_press_ u))
      by (rewrite Ed; apply length_insert).
    destruct (IH u1 ltac:(lia) ltac:(lia))
      as (evs & Eq' & Lp' & Ld' & Hin & Hout).
    exists (map (mkEvent CONTROL_SWITCH j)
              (fst (switch_poll (switch_input inp j) (switch_state u j)))
            ++ evs).
    split; [rewrite Eq', Eq, <- app_assoc; reflexivity|].
    split; [lia|]. split; [lia|].
    rewrite switch_data_app.
    destruct (Nat.eq_dec j i) as [->|Hji].
    + assert (Hni : ~ In i js)
        by (intros H; apply Hj, list_elem_of_In, H).
      destruct (Hout Hni) as [E1 E2]. split; [|intros H; contradiction H; left; reflexivity].
      intros _. rewrite switch_data_same, E1, app_nil_r.
      split; [reflexivity|]. rewrite E2. unfold switch_state.
      rewrite Ep, Ed.
      rewrite !list_lookup_total_insert_eq by assumption.
      destruct (snd _). reflexivity.
    + assert (Es : switch_state u1 i = switch_state u i).
      { unfold switch_state. rewrite Ep, Ed.
        rewrite !list_lookup_total_insert_ne by exact Hji. reflexivity. }
      rewrite switch_data_other by exact Hji. cbn [app].
      rewrite Es in Hin, Hout. split.
      * intros [H|H]; [contradiction | exact (Hin H)].
      * intros H. apply Hout. intros H'. apply H. right. exact H'.
Qed.

(** One poll, seen from switch [i]. *)
Lemma Poll_switch kNumSwitches kNumLeds i inp u :
  (i < kNumSwitches)%nat ->
  (i < length (press_time_ u))%nat ->
  (i < length (detect_very_long_press_ u))%nat ->
  let u' := Poll kNumSwitches kNumLeds inp u in
  let sp := switch_poll (switch_input inp i) (switch_state u i) in
  exists evs,
    queue_ u' = queue_ u ++ evs
    /\ switch_data i evs = fst sp
    /\ switch_state u' i = snd sp
    /\ length (press_time_ u') = length (press_time_ u)
    /\ length (detect_very_long_press_ u')
       = length (detect_very_long_press_ u).
Proof.
  intros Hi Hp Hd u' sp. unfold u', sp, Poll. clear u' sp.
  destruct (poll_switches_one inp i (seq 0 kNumSwitches)
              (NoDup_seq 0 kNumSwitches) u Hp Hd)
    as (evs & Eq1 & Lp1 & Ld1 & Hin & _).
  destruct (Hin ltac:(apply in_seq; lia)) as [Esd Est]. clear Hin.
  set (u1 := fold_left (poll_switch inp) (seq 0 kNumSwitches) u) in *.
  destruct (poll_pots_fold inp (seq 0 4) (NoDup_seq 0 4) u1) as (Eq2 & _).
  set (u2 := fold_left (poll_pot inp) (seq 0 4) u1) in *.
  assert (F2 : press_time_ u2 = press_time_ u1
               /\ detect_very_long_press_ u2 = detect_very_long_press_ u1).
  { unfold u2. apply fold_left_inv; [|split; reflexivity].
    intros a k Ha. rewrite poll_pot_unfold. cbn zeta.
    destruct (pot_moved inp a k); exact Ha. }
  destruct F2 as [Fp2 Fd2].
  destruct (paint_frame kNumLeds u2) as (Eq3 & _).
  assert (F3 : press_time_ (paint kNumLeds u2) = press_time_ u2
               /\ detect_very_long_press_ (paint kNumLeds u2)
                  = detect_very_long_press_ u2).
  { apply paint_inv; try (intros; assumption). split; reflexivity. }
  destruct F3 as [Fp3 Fd3].
  exists (evs ++ flat_map (pot_events inp u1) (seq 0 4)).
  split; [rewrite Eq3, Eq2, Eq1, <- app_assoc; reflexivity|].
  split; [rewrite switch_data_app, switch_data_pots, app_nil_r; exact Esd|].
  split.
  { rewrite <- Est. unfold switch_state. rewrite Fp3, Fd3, Fp2, Fd2.
    reflexivity. }
  rewrite Fp3, Fd3, Fp2, Fd2. split; assumption.
Qed.

(** Any sequence of polls, seen from switch [i]. *)
Lemma Polls_switch_run (kNumSwitches kNumLeds i : nat)
    (inps : list PollInput) (u : Ui) :
  (i < kNumSwitches)%nat ->
  (i < length (press_time_ u))%nat ->
  (i < length (detect_very_long_press_ u))%nat ->
  let run :=
    switch_run (map (fun inp => switch_input inp i) inps)
      (switch_state u i) in
  exists evs,
    queue_ (Polls kNumSwitches kNumLeds u inps) = queue_ u ++ evs
    /\ switch_data i evs = fst run
    /\ switch_state (Polls kNumSwitches kNumLeds u inps) i = snd run.
Proof.
  intros Hi. revert u.
  induction inps as [|inp inps IH]; intros u Hp Hd; cbn [Polls map switch_run].
  - exists []. rewrite app_nil_r. repeat split.
  - destruct (Poll_switch kNumSwitches kNumLeds i inp u Hi Hp Hd)
      as (evs1 & Eq1 & Esd1 & Est1 & Lp1 & Ld1).
    destruct (IH (Poll kNumSwitches kNumLeds inp u) ltac:(lia) ltac:(lia))
      as (evs2 & Eq2 & Esd2 & Est2).
    rewrite Est1 in Esd2, Est2.
    destruct (switch_poll (switch_input inp i) (switch_state u i))
      as [ds s1]. cbn [fst snd] in *.
    destruct (switch_run (map (fun inp0 => switch_input inp0 i) inps) s1)
      as [es s2]. cbn [fst snd] in *.
    exists (evs1 ++ evs2). rewrite Eq2, Eq1, <- app_assoc.
    split; [reflexivity|]. split; [|exact Est2].
    rewrite switch_data_app, Esd1, Esd2. reflexivity.
Qed.

(** X23. The switches do not interfere: over any sequence of polls, the
    events of switch [i] that reach the queue carry, in order, the data
    that the switch loop gives for that switch alone on its own inputs,
    and its press time and very-long-press flag end as that run leaves
    them, whatever the other switches and the pots do. *)
Theorem Polls_switch_events (kNumSwitches kNumLeds i : nat)
    (inps : list PollInput) (u : Ui) :
  (i < kNumSwitches)%nat ->
  (i < length (press_time_ u))%nat ->
  (i < length (detect_very_long_press_ u))%nat ->
  let run :=
    switch_run (map (fun inp => switch_input inp i) inps)
      (switch_state u i) in
  exists evs,
    queue_ (Polls kNumSwitches kNumLeds u inps) = queue_ u ++ evs
    /\ switch_data i evs = fst run
    /\ switch_state (Polls kNumSwitches kNumLeds u inps) i = snd run.
Proof.
  intros Hi Hp Hd run.
  destruct (Polls_switch_run kNumSwitches kNumLeds i inps u Hi Hp Hd)
    as (evs & Eq & Esd & Est).
  exists evs. split; [exact Eq|]. split; [exact Esd | exact Est].
Qed.

(** A press at [t0], held and released at [tr] within the long-press
    threshold. *)
Lemma gesture_short t0 hs tr s :
  t0 <> 0 -> 0 <= tr - t0 -> tr - t0 <= kLongPressDuration ->
  Forall (fun t => t0 <= t <= tr) hs ->
  switch_run (gesture t0 hs tr) s = ([0; tr - t0 + 1], mkSwitchState 0 false).
Proof.
  intros H0 Hr Hshort Hhs. unfold gesture. cbn [switch_run].
  rewrite switch_poll_press, switch_run_app, switch_run_held_short.
  - cbn [switch_run]. rewrite switch_poll_release
      by (assumption || unfold kLongPressDuration in Hshort; lia).
    reflexivity.
  - eapply Forall_impl; [exact Hhs|]. cbn. intros t Ht. lia.
Qed.

(** A bounded queue that is not overrun holds the events added, in
    order. *)
Lemma bounded_queue_fits queue_size overflow (log : list Event) :
  (length log <= queue_size)%nat ->
  bounded_queue queue_size overflow log = log.
Proof.
  unfold bounded_queue. intros Hlen.
  assert (G : forall (l acc : list Event),
            (length acc + length l <= queue_size)%nat ->
            fold_left
              (fun q e => if (length q <? queue_size)%nat then q ++ [e]
                          else overflow q e) l acc
            = acc ++ l).
  { induction l as [|e l IH]; intros acc Hacc; cbn [fold_left].
    - rewrite app_nil_r. reflexivity.
    - cbn [length] in Hacc.
      destruct (Nat.ltb_spec (length acc) queue_size) as [_|Hge]; [|lia].
      rewrite IH by (rewrite length_app; cbn [length]; lia).
      rewrite <- app_assoc. reflexivity. }
  apply (G log []). cbn [length]. lia.
Qed.

Section Click.

Variables kNumSwitches kNumLeds : nat.
Variable SWITCH_SELECT : nat.
Variable FEAT_MODE_LAST : Z.

(** The size of the event queue and what it does when it is full: the
    queue is declared in ui.h and defined in stmlib, neither part of the
    sources. *)
Variable queue_size : nat.
Variable overflow : list Event -> Event -> list Event.

Local Abbreviation OnSwitchReleased' :=
  (OnSwitchReleased SWITCH_SELECT FEAT_MODE_LAST).
Local Abbreviation handle_event' := (handle_event SWITCH_SELECT FEAT_MODE_LAST).
Local Abbreviation handle_events' := (handle_events SWITCH_SELECT FEAT_MODE_LAST).
Local Abbreviation DoEvents' := (DoEvents SWITCH_SELECT FEAT_MODE_LAST).
Local Abbreviation Polls' := (Polls kNumSwitches kNumLeds).

(** In NORMAL an event that is not a release of SELECT leaves the mode,
    the feature mode and the oscillators. *)
Lemma handle_event_inert e u :
  mode_ u = UI_MODE_NORMAL ->
  is_switch_event SWITCH_SELECT e = false \/ data e = 0 ->
  mode_ (handle_event' e u) = UI_MODE_NORMAL
  /\ feat_mode_ (handle_event' e u) = feat_mode_ u
  /\ lfo_ (handle_event' e u) = lfo_ u.
Proof.
  intros Em He. unfold handle_event, handler_of.
  unfold is_switch_event in He.
  destruct (control_type e) eqn:Et.
  - destruct (Z.eqb_spec (data e) 0) as [E0|E0]; [auto|].
    destruct He as [He|He]; [|contradiction].
    apply Nat.eqb_neq in He.
    rewrite OnSwitchReleased_other by exact He. auto.
  - unfold OnPotChanged. rewrite Em. destruct (_ <? _); cbn; auto.
Qed.

(** The feature mode after a batch of events in which SELECT has no long
    press: one step for each release of SELECT. *)
Lemma handle_events_by_select (evs : list Event) : forall u,
  mode_ u = UI_MODE_NORMAL -> 0 <= feat_mode_ u < FEAT_MODE_LAST ->
  Forall (fun d => d <= kLongPressDuration) (switch_data SWITCH_SELECT evs) ->
  let n :=
    length (List.filter (fun d => negb (d =? 0))
              (switch_data SWITCH_SELECT evs)) in
  mode_ (handle_events' evs u) = UI_MODE_NORMAL
  /\ feat_mode_ (handle_events' evs u)
     = (feat_mode_ u + Z.of_nat n) mod FEAT_MODE_LAST
  /\ lfo_ (handle_events' evs u) = Nat.iter n init_lfos (lfo_ u).
Proof.
  induction evs as [|e evs IH]; intros u Em Hf Hd.
  - cbn. rewrite Z.add_0_r, Z.mod_small by lia. auto.
  - cbn [handle_events fold_left].
    change (fold_left _ evs ?x) with (handle_events' evs x).
    unfold switch_data in *. cbn [List.filter] in *.
    destruct (is_switch_event SWITCH_SELECT e) eqn:Es; cbn [map] in *.
    + apply Forall_cons in Hd. destruct Hd as [Hd1 Hd].
      cbn [List.filter length].
      destruct (Z.eqb_spec (data e) 0) as [E0|E0]; cbn [negb].
      * destruct (handle_event_inert e u Em (or_intror E0))
          as (Em1 & Ef1 & El1).
        destruct (IH (handle_event' e u) Em1 ltac:(rewrite Ef1; exact Hf) Hd)
          as (H1 & H2 & H3).
        rewrite Ef1 in H2. rewrite El1 in H3. auto.
      * assert (E1 : handle_event' e u
                     = set_lfo (init_lfos (lfo_ u))
                         (set_feat_mode
                            (Z.rem (feat_mode_ u + 1) FEAT_MODE_LAST) u)).
        { unfold is_switch_event in Es.
          destruct (control_type e) eqn:Et; [|discriminate Es].
          apply Nat.eqb_eq in Es.
          unfold handle_event, handler_of. rewrite Et.
          destruct (Z.eqb_spec (data e) 0); [contradiction|].
          rewrite OnSwitchReleased_short by assumption. rewrite Em.
          reflexivity. }
        rewrite E1. set (u1 := set_lfo _ _).
        assert (Ef1 : feat_mode_ u1 = (feat_mode_ u + 1) mod FEAT_MODE_LAST).
        { unfold u1. cbn [set_lfo set_feat_mode feat_mode_].
          apply Z.rem_mod_nonneg; lia. }
        destruct (IH u1 Em
                    ltac:(rewrite Ef1; apply Z.mod_pos_bound; lia) Hd)
          as (H1 & H2 & H3).
        split; [exact H1|]. split.
        -- rewrite H2, Ef1. rewrite Z.add_mod_idemp_l by lia.
           f_equal. cbn [length]. lia.
        -- rewrite H3. cbn [length]. rewrite Nat.iter_succ_r. reflexivity.
    + destruct (handle_event_inert e u Em (or_introl Es))
        as (Em1 & Ef1 & El1).
      destruct (IH (handle_event' e u) Em1 ltac:(rewrite Ef1; exact Hf) Hd)
        as (H1 & H2 & H3).
      rewrite Ef1 in H2. rewrite El1 in H3. auto.
Qed.

(** X24. From the switch to the feature mode, through a bounded queue.
    In NORMAL with an empty queue, SELECT is pressed (at a clock reading
    other than 0), held and released within the long-press threshold, over
    any polls and whatever the other switches and the pots do in them, as
    long as the polls add no more events than the queue holds; the queue,
    of size [queue_size] and with any overflow policy, then holds the
    events the polls added, and [DoEvents] leaves the mode NORMAL, the
    feature mode advanced by one modulo FEAT_MODE_LAST, the oscillators
    reset once and the queue empty. *)
Theorem select_click_advances (inps : list PollInput) (u : Ui)
    (t0 tr : Z) (hs : list Z) :
  (SWITCH_SELECT < kNumSwitches)%nat ->
  (SWITCH_SELECT < length (press_time_ u))%nat ->
  (SWITCH_SELECT < length (detect_very_long_press_ u))%nat ->
  mode_ u = UI_MODE_NORMAL -> queue_ u = [] ->
  0 <= feat_mode_ u < FEAT_MODE_LAST ->
  map (fun inp => switch_input inp SWITCH_SELECT) inps = gesture t0 hs tr ->
  t0 <> 0 -> 0 <= tr - t0 < kLongPressDuration ->
  Forall (fun t => t0 <= t <= tr) hs ->
  let v := Polls' u inps in
  (length (queue_ v) <= queue_size)%nat ->
  let u' :=
    DoEvents' (set_queue (bounded_queue queue_size overflow (queue_ v)) v) in
  bounded_queue queue_size overflow (queue_ v) = queue_ v
  /\ mode_ u' = UI_MODE_NORMAL
  /\ feat_mode_ u' = (feat_mode_ u + 1) mod FEAT_MODE_LAST
  /\ lfo_ u' = init_lfos (lfo_ u)
  /\ queue_ u' = [].
Proof.
  intros Hi Hp Hd Em Eq Hf Hg H0 Hr Hhs v Hfit u'.
  assert (Eb : bounded_queue queue_size overflow (queue_ v) = queue_ v)
    by (apply bounded_queue_fits; exact Hfit).
  split; [exact Eb|]. unfold u'. clear u'. rewrite Eb, set_queue_same.
  clear Eb Hfit.
  destruct (Polls_switch_run kNumSwitches kNumLeds SWITCH_SELECT inps u
              Hi Hp Hd) as (evs & Eqv & Esd & _).
  rewrite Hg, gesture_short in Esd by (assumption || lia).
  cbn [fst] in Esd. rewrite Eq in Eqv. cbn [app] in Eqv.
  fold v in Eqv.
  assert (Emv : mode_ v = UI_MODE_NORMAL).
  { unfold v. rewrite Polls_normal by (rewrite Em; discriminate). exact Em. }
  assert (Fv : feat_mode_ v = feat_mode_ u /\ lfo_ v = lfo_ u).
  { unfold v. clear. revert u.
    induction inps as [|inp inps IH]; intros u; cbn [Polls]; [auto|].
    destruct (Poll_committed_frame kNumSwitches kNumLeds inp u)
      as (F1 & _ & _ & _ & F5).
    destruct (IH (Poll kNumSwitches kNumLeds inp u)) as [G1 G2].
    rewrite G1, G2. auto. }
  destruct Fv as [Ffv Flv].
  assert (E : DoEvents' v = set_queue [] (handle_events' evs v)).
  { unfold DoEvents. rewrite <- (set_queue_same v) at 2.
    rewrite Eqv. apply drain_handle_events. }
  destruct (handle_events_by_select evs v Emv ltac:(rewrite Ffv; exact Hf))
    as (H1 & H2 & H3).
  { rewrite Esd. repeat constructor; unfold kLongPressDuration in *; lia. }
  rewrite Esd in H2, H3. cbn [List.filter] in H2, H3.
  change (0 =? 0) with true in H2, H3. cbn [negb] in H2, H3.
  destruct (Z.eqb_spec (tr - t0 + 1) 0) as [Ez|_]; [lia|].
  cbn [negb length Nat.iter nat_rect] in H2, H3.
  rewrite E. cbn [set_queue mode_ feat_mode_ lfo_ queue_].
  rewrite H1, H2, H3, Ffv, Flv. auto.
Qed.

(** X25. A hold of exactly the long-press threshold: no poll finds the
    switch held for more than the threshold, so the release event is
    queued, with data threshold + 1; [OnSwitchReleased] takes that data
    for a long press, and the panel goes to ZOOM, whatever its mode, with
    nothing else changed: in NORMAL the feature mode does not advance. *)
Theorem release_at_threshold_zooms (t0 tr : Z) (hs : list Z)
    (s : SwitchState) (u : Ui) :
  t0 <> 0 -> tr - t0 = kLongPressDuration ->
  Forall (fun t => t0 <= t <= tr) hs ->
  fst (switch_run (gesture t0 hs tr) s) = [0; kLongPressDuration + 1]
  /\ handle_events'
       (map (mkEvent CONTROL_SWITCH SWITCH_SELECT)
          (fst (switch_run (gesture t0 hs tr) s))) u
     = set_mode UI_MODE_ZOOM u.
Proof.
  intros H0 Htr Hhs.
  assert (Hk : kLongPressDuration = 500) by reflexivity.
  rewrite gesture_short by (assumption || lia). cbn [fst]. rewrite Htr.
  split; [reflexivity|].
  cbn [map handle_events fold_left].
  assert (E0 : handle_event' (mkEvent CONTROL_SWITCH SWITCH_SELECT 0) u = u)
    by reflexivity.
  rewrite E0.
  rewrite handle_event_release
    by (cbn [control_type data]; reflexivity
        || (unfold kLongPressDuration; discriminate)).
  apply OnSwitchReleased_long; [reflexivity|].
  cbn [data]. unfold kLongPressDuration, kVeryLongPressDuration. lia.
Qed.

End Click.

Lemma Polls_switch_events_witness :
  exists evs,
    queue_ (Polls 4 4 splash_panel [select_down true 1; select_down false 2])
    = queue_ splash_panel ++ evs
    /\ switch_data 3 evs
       = fst (switch_run
                (map (fun inp => switch_input inp 3)
                   [select_down true 1; select_down false 2])
                (switch_state splash_panel 3))
    /\ switch_state
         (Polls 4 4 splash_panel [select_down true 1; select_down false 2]) 3
       = snd (switch_run
                (map (fun inp => switch_input inp 3)
                   [select_down true 1; select_down false 2])
                (switch_state splash_panel 3)).
Proof.
  apply (Polls_switch_events 4 4 3
           [select_down true 1; select_down false 2] splash_panel);
    cbn; lia.
Defined.

(** SELECT pressed at 1 ms, held at 2 ms and released at 3 ms, through a
    queue of 16 events that drops what arrives when it is full. *)
Lemma select_click_advances_witness :
  let release :=
    {| milliseconds := 3; just_pressed := fun _ => false;
       pressed := fun _ => false; released := fun i => Nat.eqb i 3;
       pot := fun _ => 100 |} in
  let u := set_mode UI_MODE_NORMAL splash_panel in
  let v := Polls 4 4 u [select_down true 1; select_down false 2; release] in
  feat_mode_
    (DoEvents 3 4 (set_queue (bounded_queue 16 (fun q _ => q) (queue_ v)) v))
  = 1.
Proof.
  intros release u v.
  exact (proj1 (proj2 (proj2
    (select_click_advances 4 4 3 4 16 (fun q _ => q)
       [select_down true 1; select_down false 2; release] u 1 3 [2]
       ltac:(lia) ltac:(cbn; lia) ltac:(cbn; lia) eq_refl eq_refl
       ltac:(cbn; lia) eq_refl ltac:(lia)
       ltac:(unfold kLongPressDuration; lia)
       ltac:(repeat (constructor; [lia|]); constructor)
       ltac:(vm_compute; lia))))).
Defined.

Lemma release_at_threshold_zooms_witness :
  fst (switch_run (gesture 1000 [1200] 1500) (mkSwitchState 0 false))
  = [0; 501]
  /\ mode_
       (handle_events 3 4
          (map (mkEvent CONTROL_SWITCH 3)
             (fst (switch_run (gesture 1000 [1200] 1500)
                     (mkSwitchState 0 false))))
          (set_mode UI_MODE_NORMAL splash_panel))
     = UI_MODE_ZOOM.
Proof.
  destruct (release_at_threshold_zooms 3 4 1000 1500 [1200]
              (mkSwitchState 0 false) (set_mode UI_MODE_NORMAL splash_panel)
              ltac:(lia) eq_refl
              ltac:(repeat (constructor; [lia|]); constructor))
    as [H1 H2].
  split; [exact H1|]. rewrite H2. reflexivity.
Defined.
